(** * Eru Email Sender Pro: the dispatch engine of [main.py]

    A shallow embedding of the address validator, the placeholder expander,
    the Outlook-safe HTML builder and the send/retry worker of [main.py],
    with the properties that its specification states about them.

    Conventions of the embedding.
    - A Python [str] is a [list ascii]; a character is a code point below
      256 (Latin-1), and the character predicates below ([isspace],
      [is_word], [lower]) are Python's restricted to that range.  The
      non-Latin-1 glyphs of the worker's log lines are kept as the bytes
      of their UTF-8 encoding.
    - [re] patterns are values of [regex], run by a backtracking matcher
      that tries alternatives in the order of Python's engine (greedy
      repetition longest first, lazy repetition shortest first). *)

From Stdlib Require Import Ascii String.
From Stdlib Require Import List ZArith Lia Bool Arith PeanoNat.
Import ListNotations.
Local Open Scope list_scope.

(** ** Python strings *)

Module Py.

Definition str := list ascii.

(** A string literal of the source. *)
Definition lit (s : string) : str := list_ascii_of_string s.

Definition code (c : ascii) : nat := nat_of_ascii c.

Definition in_range (lo hi : nat) (c : ascii) : bool :=
  (lo <=? code c) && (code c <=? hi).

(** [str.isspace] on one character: TAB..CR, FS..US, space, NEL, NBSP. *)
Definition isspace (c : ascii) : bool :=
  in_range 9 13 c || in_range 28 32 c || (code c =? 133) || (code c =? 160).

(** [str.isalnum() or c == '_'], the word characters of [\b] and [\w]. *)
Definition is_word (c : ascii) : bool :=
  in_range 48 57 c || in_range 65 90 c || in_range 97 122 c || (code c =? 95)
  || (code c =? 170) || in_range 178 179 c || (code c =? 181)
  || in_range 185 186 c || in_range 188 190 c
  || in_range 192 214 c || in_range 216 246 c || in_range 248 255 c.

(** [str.lower] on one character. *)
Definition lower (c : ascii) : ascii :=
  if in_range 65 90 c || (in_range 192 222 c && negb (code c =? 215))
  then ascii_of_nat (code c + 32) else c.

Definition upper (c : ascii) : ascii :=
  if in_range 97 122 c || (in_range 224 254 c && negb (code c =? 247))
  then ascii_of_nat (code c - 32) else c.

Definition eqc (a b : ascii) : bool := Ascii.eqb a b.

Fixpoint eqs (a b : str) : bool :=
  match a, b with
  | [], [] => true
  | x :: a', y :: b' => eqc x y && eqs a' b'
  | _, _ => false
  end.

(** [s.lstrip()], [s.rstrip()], [s.strip()]. *)
Fixpoint lstrip (s : str) : str :=
  match s with
  | c :: s' => if isspace c then lstrip s' else s
  | [] => []
  end.

Definition rstrip (s : str) : str := rev (lstrip (rev s)).

Definition strip (s : str) : str := rstrip (lstrip s).

(** [s.startswith(p)], [s.endswith(p)]. *)
Fixpoint startswith (p s : str) : bool :=
  match p, s with
  | [], _ => true
  | x :: p', y :: s' => eqc x y && startswith p' s'
  | _ :: _, [] => false
  end.

Definition endswith (p s : str) : bool := startswith (rev p) (rev s).

(** [needle in s]. *)
Fixpoint contains (needle s : str) : bool :=
  startswith needle s ||
  match s with
  | [] => false
  | _ :: s' => contains needle s'
  end.

(** [s.count(c)] for a one-character argument. *)
Definition count (c : ascii) (s : str) : nat :=
  length (filter (eqc c) s).

(** [s.split(c)] for a one-character separator: never empty. *)
Fixpoint split (c : ascii) (s : str) : list str :=
  match s with
  | [] => [[]]
  | x :: s' =>
      if eqc x c then [] :: split c s'
      else match split c s' with
           | w :: ws => (x :: w) :: ws
           | [] => [[x]]
           end
  end.

(** [s.replace(old, new)] for a non-empty [old]: the occurrences of [old]
    are found left to right and do not overlap; [skip] counts the
    characters of the occurrence being replaced that are still to be
    dropped. *)
Fixpoint replace_go (old new : str) (skip : nat) (s : str) : str :=
  match s with
  | [] => []
  | c :: s' =>
      match skip with
      | S k => replace_go old new k s'
      | O => if startswith old s
             then new ++ replace_go old new (length old - 1) s'
             else c :: replace_go old new 0 s'
      end
  end.

Definition replace (old new s : str) : str := replace_go old new 0 s.

(** [str(n)] for an integer. *)
Definition digit (n : nat) : ascii := ascii_of_nat (48 + n).

Fixpoint digits_go (fuel n : nat) (acc : str) : str :=
  match fuel with
  | O => acc
  | S f => let acc' := digit (n mod 10) :: acc in
           if n <? 10 then acc' else digits_go f (n / 10) acc'
  end.

Definition str_of_nat (n : nat) : str := digits_go (S n) n [].

Definition str_of_Z (z : Z) : str :=
  match z with
  | Zneg p => lit "-" ++ str_of_nat (Pos.to_nat p)
  | _ => str_of_nat (Z.to_nat z)
  end.

End Py.

Import Py.

(** ** The [re] module: patterns and the backtracking matcher *)

Module Re.

(** One item of a bracketed set. *)
Inductive item : Type :=
| IChar (c : ascii)              (* a single character *)
| IRange (lo hi : ascii)         (* lo-hi *)
| ISpace                         (* \s *)
| INotSpace.                     (* \S *)

Inductive regex : Type :=
| Lit (c : ascii)                          (* a literal character *)
| Set_ (negated : bool) (items : list item) (* [...] and [^...] *)
| Cat (r1 r2 : regex)                      (* r1 r2 *)
| Eps                                      (* the empty pattern *)
| Repeat (greedy : bool) (lo : nat) (hi : option nat) (r : regex)
                                           (* r{lo,hi}, r{lo,hi}? *)
| Group (n : nat) (r : regex)              (* capturing group number n *)
| NonCap (r : regex)                       (* (?:r) *)
| Bound                                    (* \b *)
| Bol                                      (* ^ *)
| Eol.                                     (* $ *)

(** The text of each group that took part in the match. *)
Definition groups := list (nat * str).

Fixpoint group (g : groups) (n : nat) : str :=
  match g with
  | [] => []
  | (m, s) :: g' => if m =? n then s else group g' n
  end.

Definition item_has (i : item) (c : ascii) : bool :=
  match i with
  | IChar x => eqc x c
  | IRange lo hi => in_range (code lo) (code hi) c
  | ISpace => isspace c
  | INotSpace => negb (isspace c)
  end.

(** Membership in a set; under IGNORECASE either case of [c] may be the
    one listed. *)
Definition set_has (ic : bool) (items : list item) (c : ascii) : bool :=
  existsb (fun i => item_has i c) items
  || (ic && (existsb (fun i => item_has i (lower c)) items
             || existsb (fun i => item_has i (upper c)) items)).

Definition lit_eq (ic : bool) (p c : ascii) : bool :=
  if ic then eqc (lower p) (lower c) else eqc p c.

Definition word_opt (c : option ascii) : bool :=
  match c with
  | Some x => is_word x
  | None => false
  end.

Section Matcher.

Context {A : Type}.

(** A continuation receives the character before the current position
    (none at the start of the string), the rest of the string and the
    groups captured so far. *)
Definition cont := option ascii -> str -> groups -> option A.

Definition orelse (a : option A) (b : unit -> option A) : option A :=
  match a with
  | Some x => Some x
  | None => b tt
  end.

Definition below (n : nat) (hi : option nat) : bool :=
  match hi with
  | Some h => n <? h
  | None => true
  end.

(** The rounds of a repetition of [body], [cnt] of them done: a greedy
    repetition tries one more round before it stops, a lazy one stops
    before it tries more.  Each round has to consume a character, so
    [length s] rounds are enough. *)
Fixpoint rep_loop (body : option ascii -> str -> groups -> cont -> option A)
    (greedy : bool) (lo : nat) (hi : option nat) (k : cont)
    (fuel cnt : nat) (prev : option ascii) (s : str) (g : groups)
    {struct fuel} : option A :=
  let stop (_ : unit) :=
    if lo <=? cnt then k prev s g else None in
  let more (_ : unit) :=
    match fuel with
    | O => None
    | S fuel' =>
        if below cnt hi then
          body prev s g
               (fun prev' s' g' =>
                  if length s' <? length s
                  then rep_loop body greedy lo hi k fuel' (S cnt) prev' s' g'
                  else None)
        else None
    end in
  if greedy then orelse (more tt) stop else orelse (stop tt) more.

(** [mt ic r prev s g k]: match [r] at the head of [s], then continue
    with [k]; the first successful alternative wins. *)
Fixpoint mt (ic : bool) (r : regex) (prev : option ascii) (s : str)
    (g : groups) (k : cont) {struct r} : option A :=
  match r with
  | Lit p =>
      match s with
      | c :: s' => if lit_eq ic p c then k (Some c) s' g else None
      | [] => None
      end
  | Set_ negated items =>
      match s with
      | c :: s' =>
          if xorb negated (set_has ic items c) then k (Some c) s' g else None
      | [] => None
      end
  | Cat r1 r2 =>
      mt ic r1 prev s g (fun prev' s' g' => mt ic r2 prev' s' g' k)
  | Eps => k prev s g
  | Repeat greedy lo hi r' =>
      rep_loop (fun prev' s' g' k' => mt ic r' prev' s' g' k')
               greedy lo hi k (length s) 0 prev s g
  | Group n r' =>
      mt ic r' prev s g
         (fun prev' s' g' =>
            k prev' s' ((n, firstn (length s - length s') s) :: g'))
  | NonCap r' => mt ic r' prev s g k
  | Bound =>
      if xorb (word_opt prev) (word_opt (hd_error s)) then k prev s g
      else None
  | Bol => match prev with None => k prev s g | Some _ => None end
  | Eol =>
      match s with
      | [] => k prev s g
      | [c] => if code c =? 10 then k prev s g else None
      | _ => None
      end
  end.

End Matcher.

(** A match found at the head of [s]: the text after it and the groups.
    With [advance] set an empty match does not count. *)
Definition match_at (ic : bool) (r : regex) (advance : bool)
    (prev : option ascii) (s : str) : option (str * groups) :=
  mt ic r prev s []
     (fun _ s' g =>
        if advance && (length s =? length s') then None else Some (s', g)).

(** [re.match(r, s)]: the groups of a match at the start of [s]. *)
Definition re_match (ic : bool) (r : regex) (s : str) : option groups :=
  option_map snd (match_at ic r false None s).

(** [re.search(r, s)]: the groups of the leftmost match. *)
Fixpoint search_from (ic : bool) (r : regex) (prev : option ascii)
    (s : str) : option groups :=
  match match_at ic r false prev s with
  | Some (_, g) => Some g
  | None =>
      match s with
      | [] => None
      | c :: s' => search_from ic r (Some c) s'
      end
  end.

Definition re_search (ic : bool) (r : regex) (s : str) : option groups :=
  search_from ic r None s.

(** [re.sub(r, repl, s)], the replacement being a function of the groups.
    [skip] counts the characters of the match being replaced that are
    still to be dropped.  After an empty match the same position is
    tried once more for a match that is not empty, then the character is
    copied. *)
Fixpoint sub_from (ic : bool) (r : regex) (repl : groups -> str)
    (prev : option ascii) (skip : nat) (s : str) : str :=
  match skip with
  | S k =>
      match s with
      | [] => []
      | c :: s' => sub_from ic r repl (Some c) k s'
      end
  | O =>
      let copy (_ : unit) :=
        match s with
        | [] => []
        | c :: s' => c :: sub_from ic r repl (Some c) 0 s'
        end in
      let drop (n : nat) :=
        match s with
        | [] => []
        | c :: s' => sub_from ic r repl (Some c) (n - 1) s'
        end in
      match match_at ic r false prev s with
      | None => copy tt
      | Some (rest, g) =>
          if length rest <? length s
          then repl g ++ drop (length s - length rest)
          else
            match match_at ic r true prev s with
            | Some (rest2, g2) =>
                repl g ++ repl g2 ++ drop (length s - length rest2)
            | None => repl g ++ copy tt
            end
      end
  end.

Definition re_sub (ic : bool) (r : regex) (repl : groups -> str)
    (s : str) : str :=
  sub_from ic r repl None 0 s.

(** Pattern notation helpers. *)
Fixpoint cat (rs : list regex) : regex :=
  match rs with
  | [] => Eps
  | [r] => r
  | r :: rs' => Cat r (cat rs')
  end.

Definition text (s : string) : regex := cat (map Lit (lit s)).
Definition star (r : regex) : regex := Repeat true 0 None r.
Definition plus (r : regex) : regex := Repeat true 1 None r.
Definition opt (r : regex) : regex := Repeat true 0 (Some 1) r.
Definition lazy_star (r : regex) : regex := Repeat false 0 None r.
Definition at_least (n : nat) (r : regex) : regex := Repeat true n None r.

End Re.

Import Re.

(** ** Surname and address validation *)

(** [get_surname(fullname)] *)
Definition get_surname (fullname : str) : str :=
  let fullname := strip fullname in
  if contains (lit ",") fullname
  then strip (hd [] (split "," fullname))
  else fullname.

(** [pattern] of [validate_email]: ^, one or more of a-zA-Z0-9._%+-, an @,
    one or more of a-zA-Z0-9.-, a dot, two or more letters, $. *)
Definition email_pattern : regex :=
  cat [ Bol;
        plus (Set_ false [IRange "a" "z"; IRange "A" "Z"; IRange "0" "9";
                          IChar "."; IChar "_"; IChar "%"; IChar "+";
                          IChar "-"]);
        Lit "@";
        plus (Set_ false [IRange "a" "z"; IRange "A" "Z"; IRange "0" "9";
                          IChar "."; IChar "-"]);
        Lit ".";
        at_least 2 (Set_ false [IRange "a" "z"; IRange "A" "Z"]);
        Eol ].

Definition is_empty (s : str) : bool :=
  match s with
  | [] => true
  | _ :: _ => false
  end.

(** [validate_email(email)], returning [(is_valid, error_message)].  The
    unpacking [local, domain = email.split('@')] is reached only when
    [email.count('@') == 1], where the split has two parts
    ([split_length] below); the last branch stands for its [ValueError]. *)
Definition validate_email (email : str) : bool * str :=
  if is_empty email || is_empty (strip email)
  then (false, lit "Email address is empty")
  else
    let email := strip email in
    match re_match false email_pattern email with
    | None => (false, lit "Invalid email format: " ++ email)
    | Some _ =>
        if negb (count "@" email =? 1)
        then (false, lit "Email must contain exactly one @ symbol: " ++ email)
        else
          match split "@" email with
          | [local; domain] =>
              if length local =? 0
              then (false, lit "Local part of email is empty")
              else if length domain =? 0
              then (false, lit "Domain part of email is empty")
              else if startswith (lit ".") domain || endswith (lit ".") domain
              then (false, lit "Domain cannot start or end with dot: " ++ domain)
              else (true, [])
          | _ => (false, lit "ValueError")
          end
    end.

(** ** The recipient batch *)

(** One row of the sheet, after [load_excel] has renamed its first four
    columns and filled the blanks with empty strings. *)
Record Row : Type := mkRow {
  Full_Name : str;
  Email : str;
  CC : str;
  Attachment_Path : str
}.

(** [row[name]] *)
Definition column (name : str) (r : Row) : option str :=
  if eqs name (lit "Full Name") then Some (Full_Name r)
  else if eqs name (lit "Email") then Some (Email r)
  else if eqs name (lit "CC") then Some (CC r)
  else if eqs name (lit "Attachment Path") then Some (Attachment_Path r)
  else None.

(** [df.columns] *)
Definition columns : list str :=
  [lit "Full Name"; lit "Email"; lit "CC"; lit "Attachment Path"].

(** A DataFrame: the rows in order, each with its index label, as
    [df.iterrows()] yields them. *)
Definition DataFrame := list (nat * Row).

(** The index that [pd.read_excel] gives: labels 0, 1, 2, ... *)
Definition range_indexed (df : DataFrame) : Prop :=
  map fst df = seq 0 (length df).

(** One entry of [invalid_emails]. *)
Record Invalid : Type := mkInvalid {
  inv_row : nat;
  inv_email : str;
  inv_error : str
}.

(** [df.iloc[positions]]; [None] is the IndexError of a position that is
    out of bounds. *)
Fixpoint iloc (df : DataFrame) (positions : list nat) : option DataFrame :=
  match positions with
  | [] => Some []
  | p :: ps =>
      match nth_error df p, iloc df ps with
      | Some x, Some rest => Some (x :: rest)
      | _, _ => None
      end
  end.

(** The loop of [validate_emails_in_dataframe]: [valid_indices] and
    [invalid_emails] in the order in which they are appended. *)
Fixpoint validate_rows (email_column : str) (rows : DataFrame)
    : list nat * list Invalid :=
  match rows with
  | [] => ([], [])
  | (idx, row) :: rest =>
      let email := strip (match column email_column row with
                          | Some e => e
                          | None => []
                          end) in
      let '(is_valid, error) := validate_email email in
      let '(valid_indices, invalid_emails) := validate_rows email_column rest in
      if is_valid || eqs email []
      then (idx :: valid_indices, invalid_emails)
      else (valid_indices, mkInvalid (idx + 2) email error :: invalid_emails)
  end.

(** [validate_emails_in_dataframe(df, email_column)], returning
    [(valid_df, invalid_emails)]; [None] is the IndexError of [df.iloc].
    A [df] that is [None] is not modelled. *)
Definition validate_emails_in_dataframe (df : DataFrame) (email_column : str)
    : option (DataFrame * list Invalid) :=
  if negb (existsb (eqs email_column) columns)
  then Some (df, [])
  else
    let '(valid_indices, invalid_emails) := validate_rows email_column df in
    match valid_indices with
    | [] => Some (firstn 0 df, invalid_emails)
    | _ :: _ =>
        match iloc df valid_indices with
        | Some valid_df => Some (valid_df, invalid_emails)
        | None => None
        end
    end.

(** ** The Outlook-safe HTML builder *)

(** A literal of the source that holds double quotes, each written as a
    backquote here (the source has no backquote of its own). *)
Definition html (s : string) : str :=
  map (fun c => if eqc c "`" then ascii_of_nat 34 else c) (lit s).

(** The skeleton of [wrapped] before and after [{inner}]. *)
Definition shell_open : str := html
"<!DOCTYPE html>
<html xmlns:v=`urn:schemas-microsoft-com:vml` xmlns:o=`urn:schemas-microsoft-com:office:office` xmlns=`http://www.w3.org/1999/xhtml`>
<head>
  <meta http-equiv=`x-ua-compatible` content=`IE=edge`>
  <meta name=`format-detection` content=`telephone=no, date=no, address=no, email=no`>
  <meta name=`x-apple-disable-message-reformatting`>
  <!--[if mso]>
  <xml>
   <o:OfficeDocumentSettings>
    <o:AllowPNG/>
    <o:PixelsPerInch>96</o:PixelsPerInch>
   </o:OfficeDocumentSettings>
  </xml>
  <style type=`text/css`>
    body, table, td, div, p, a { font-family: Segoe UI, Arial, sans-serif !important; }
    p { margin:0 !important; }
  </style>
  <![endif]-->
  <style>
    body, table, td, div, p, a { font-family: Segoe UI, Arial, sans-serif; -webkit-text-size-adjust: 100%; -ms-text-size-adjust: 100%; }
    p { margin:0 !important; } /* kept for safety but spacing handled by tables */
    .content { font-size: 11pt; line-height: 1.35; color:#2b2b2b; }
    img { border:0; outline:0; text-decoration:none; -ms-interpolation-mode:bicubic; }
  </style>
</head>
<body style=`Margin:0; padding:0; background:#ffffff;`>
  <table role=`presentation` cellpadding=`0` cellspacing=`0` border=`0` width=`100%`>
    <tr>
      <td align=`left` style=`padding:0;`>
        <div class=`content` style=`font-family: Segoe UI, Arial, sans-serif; font-size:11pt; line-height:1.35; mso-line-height-rule:exactly;`>
          ".

Definition shell_close : str := html
"
        </div>
      </td>
    </tr>
  </table>
</body>
</html>".

(** The sets [\s], [^>] and [\s\S] of the patterns below. *)
Definition ws : regex := Set_ false [ISpace].
Definition not_gt : regex := Set_ true [IChar ">"].
Definition any : regex := Set_ false [ISpace; INotSpace].

(** The pattern of [body_match]: <body, any run without >, then >, group 1
    (the shortest run of characters) and </body>. *)
Definition body_pattern : regex :=
  cat [text "<body"; star not_gt; Lit ">"; Group 1 (lazy_star any);
       text "</body>"].

(** The patterns of the two div substitutions: <div at a word boundary,
    group 1 (any run without >) and >; and </div>. *)
Definition div_open_pattern : regex :=
  cat [text "<div"; Bound; Group 1 (star not_gt); Lit ">"].
Definition div_close_pattern : regex := text "</div>".

(** The pattern of [had_paragraphs]: <p at a word boundary. *)
Definition p_open_pattern : regex := cat [text "<p"; Bound].

(** Two or more line breaks in a row, each <br, spaces, an optional /, >
    and spaces. *)
Definition br_run_pattern : regex :=
  at_least 2 (NonCap (cat [text "<br"; star ws; opt (Lit "/"); Lit ">";
                           star ws])).

(** A blank paragraph: <p at a word boundary, any run without >, then >,
    spaces and </p>. *)
Definition blank_p_pattern : regex :=
  cat [text "<p"; Bound; star not_gt; Lit ">"; star ws; text "</p>"].

(** A paragraph: as above with group 1 (the shortest run of characters)
    in place of the spaces. *)
Definition para_pattern : regex :=
  cat [text "<p"; Bound; star not_gt; Lit ">"; Group 1 (lazy_star any);
       text "</p>"].

(** One line break. *)
Definition br_pattern : regex :=
  cat [text "<br"; star ws; opt (Lit "/"); Lit ">"].

Definition table_open : str :=
  html "<table role=`presentation` border=`0` cellspacing=`0` cellpadding=`0` width=`100%`>".

(** The replacement of a run of line breaks. *)
Definition br_spacer (px : Z) : str :=
  table_open ++ html "<tr><td style=`padding:0 0 " ++ str_of_Z px
  ++ html "px 0;`><span style=`font-size:1px; line-height:1px;`>&nbsp;</span></td></tr></table>".

(** A spacer row of height [px]. *)
Definition spacer_row (px : Z) : str :=
  html "<tr><td height=`" ++ str_of_Z px
  ++ html "` style=`font-size:0; line-height:0;`>&nbsp;</td></tr>".

(** The replacement of a blank paragraph. *)
Definition spacer (px : Z) : str :=
  table_open ++ spacer_row px ++ html "</table>".

(** A content row. *)
Definition content_row (content : str) : str :=
  html "<tr><td style=`line-height:1.35; mso-line-height-rule:exactly; font-family: Segoe UI, Arial, sans-serif;`>"
  ++ content ++ html "</td></tr>".

(** [_wrap_para(m)] *)
Definition wrap_para (px : Z) (m : groups) : str :=
  let content := group m 1 in
  table_open ++ content_row content ++ spacer_row px ++ html "</table>".

Definition role_presentation : str := html "role=`presentation`".

(** The body of [build_outlook_safe_html] up to the skeleton: the value
    of [inner] when [wrapped] is built. *)
Definition build_inner (editor_html : str) (para_spacing_px : Z) : str :=
  let html_ := editor_html in
  let PARA_SPACE_PX := Z.max 0 para_spacing_px in
  let body_match := re_search true body_pattern html_ in
  let inner := match body_match with
               | Some m => group m 1
               | None => html_
               end in
  let inner := re_sub true div_open_pattern
                 (fun m => lit "<p" ++ group m 1 ++ lit ">") inner in
  let inner := re_sub true div_close_pattern (fun _ => lit "</p>") inner in
  let had_paragraphs :=
    match re_search true p_open_pattern inner with
    | Some _ => true
    | None => false
    end in
  let inner := re_sub true br_run_pattern
                 (fun _ => br_spacer PARA_SPACE_PX) inner in
  let inner := re_sub true blank_p_pattern
                 (fun _ => spacer PARA_SPACE_PX) inner in
  let inner := re_sub true para_pattern (wrap_para PARA_SPACE_PX) inner in
  if negb (contains role_presentation inner) && negb had_paragraphs
  then re_sub true br_pattern
         (fun _ => lit "<br/>" ++ spacer PARA_SPACE_PX) inner
  else inner.

(** [build_outlook_safe_html(editor_html, para_spacing_px)] *)
Definition build_outlook_safe_html (editor_html : str) (para_spacing_px : Z)
    : str :=
  shell_open ++ build_inner editor_html para_spacing_px ++ shell_close.

(** ** The email worker *)

Module Worker.

Inductive Status : Type := Pending | Sent | Failed.

(** What the worker does that its caller can see: the four signals of
    [EmailWorker] and the calls of [time.sleep]. *)
Inductive Event : Type :=
| progress_updated (percent : Z)
| log_updated (message : str)
| status_updated (index : nat) (status : Status)
| finished_sending
| sleep (seconds : nat).

(** The calls into COM and Outlook. *)
Inductive Call : Type :=
| CoInitialize                       (* pythoncom.CoInitialize() *)
| Dispatch                           (* win32com.client.Dispatch(...) *)
| GetNamespace                       (* outlook.GetNamespace("MAPI") *)
| GetDefaultFolder (folder : nat)    (* namespace.GetDefaultFolder(n) *)
| SentItemsCount                     (* sent.Items.Count *)
| OutboxItemsCount                   (* outbox.Items.Count *)
| CreateItem                         (* outlook.CreateItem(0) *)
| SetTo (v : str)                    (* mail.To = v *)
| SetCC (v : str)                    (* mail.CC = v *)
| SetSubject (v : str)               (* mail.Subject = v *)
| SetBodyFormat                      (* mail.BodyFormat = 2 *)
| SetHTMLBody (v : str)              (* mail.HTMLBody = v *)
| SetImportance                      (* mail.Importance = 2 *)
| SetReadReceiptRequested            (* mail.ReadReceiptRequested = True *)
| AttachmentsAdd (path : str)        (* mail.Attachments.Add(path) *)
| Send.                              (* mail.Send() *)

(** A call returns (an integer where the worker reads one) or raises an
    exception, of which the worker uses [str(e)] only. *)
Inductive Result : Type :=
| Returned (v : Z)
| Raised (e : str).

Inductive Outcome (A : Type) : Type :=
| Ret (a : A)
| Raise (e : str).
Arguments Ret {A} a.
Arguments Raise {A} e.

(** The fields of [EmailWorker] that [__init__] sets from its arguments. *)
Record EmailWorker : Type := mkWorker {
  df : DataFrame;
  subject : str;
  body_template : str;
  para_spacing_px : Z;
  max_retries : Z
}.

Section Job.

(** The surroundings of a job: the state of Outlook and of the file
    system, how they answer each call, whether a path exists, the value
    of [self.running] at each successive read of it (the caller's thread
    writes it), and the float arithmetic of the percentage,
    [int((processed_count / total) * 100)]. *)
Variable World : Type.
Variable respond : World -> Call -> Result * World.
Variable path_exists : World -> str -> bool.
Variable running_at : nat -> bool.
Variable percent_of : nat -> nat -> Z.

Record St : Type := mkSt {
  world : World;
  reads : nat;                  (* reads of [self.running] so far *)
  events : list Event;          (* signals and sleeps, oldest first *)
  calls : list (Call * bool)    (* calls made, and whether each raised *)
}.

Definition M (A : Type) : Type := St -> Outcome A * St.

Definition ret {A} (a : A) : M A := fun s => (Ret a, s).

Definition bind {A B} (m : M A) (k : A -> M B) : M B :=
  fun s => match m s with
           | (Ret a, s') => k a s'
           | (Raise e, s') => (Raise e, s')
           end.

(** [try: m except Exception as e: h(e)] *)
Definition try_except {A} (m : M A) (h : str -> M A) : M A :=
  fun s => match m s with
           | (Ret a, s') => (Ret a, s')
           | (Raise e, s') => h e s'
           end.

Definition emit (e : Event) : M unit :=
  fun s => (Ret tt, mkSt (world s) (reads s) (events s ++ [e]) (calls s)).

Definition call (c : Call) : M Z :=
  fun s => match respond (world s) c with
           | (Returned v, w) =>
               (Ret v, mkSt w (reads s) (events s) (calls s ++ [(c, false)]))
           | (Raised e, w) =>
               (Raise e, mkSt w (reads s) (events s) (calls s ++ [(c, true)]))
           end.

(** [os.path.exists(p)] *)
Definition os_path_exists (p : str) : M bool :=
  fun s => (Ret (path_exists (world s) p), s).

(** A read of [self.running]. *)
Definition running : M bool :=
  fun s => (Ret (running_at (reads s)),
            mkSt (world s) (S (reads s)) (events s) (calls s)).

Notation "x <- m ;; k" := (bind m (fun x => k))
  (at level 61, m at next level, right associativity).
Notation "m ;;; k" := (bind m (fun _ => k))
  (at level 61, right associativity).

Definition log (s : string) : str := lit s.

Variable self : EmailWorker.

(** The connection loop of [run]: whether [outlook] is set when the
    loop is left. *)
Fixpoint connect (attempts : list nat) : M bool :=
  match attempts with
  | [] => ret false
  | attempt :: rest =>
      connected <-
        try_except
          (call Dispatch ;;;
           emit (log_updated (log "✅ Connected to Outlook COM.")) ;;;
           ret true)
          (fun e =>
             emit (log_updated
                     (log "⚠ Attempt " ++ str_of_nat (attempt + 1)
                      ++ log " failed to connect Outlook: " ++ e)) ;;;
             emit (sleep 3) ;;;
             ret false) ;;
      if connected then ret true else connect rest
  end.

(** The wait of [_send_single_email] for the mail to leave the outbox. *)
Fixpoint wait_sent (rounds : nat) (start_sent_count : Z) : M unit :=
  match rounds with
  | O => ret tt
  | S rounds' =>
      outbox_count <- call OutboxItemsCount ;;
      if (outbox_count =? 0)%Z then ret tt
      else
        sent_count <- call SentItemsCount ;;
        if (sent_count >? start_sent_count)%Z then ret tt
        else emit (sleep 1) ;;; wait_sent rounds' start_sent_count
  end.

(** The subject and the raw body that [_send_single_email] builds for
    a row. *)
Definition expand_subject (row : Row) : str :=
  let full_name := strip (Full_Name row) in
  replace (lit "{{fullname}}") full_name (subject self).

Definition expand_body (row : Row) : str :=
  let full_name := strip (Full_Name row) in
  let surname := get_surname full_name in
  replace (lit "{{fullname}}") surname (body_template self).

(** [_send_single_email(outlook, outbox, sent, row, index)].  The first
    three assignments cannot raise, so [email] is bound when the handler
    formats its log line. *)
Definition _send_single_email (row : Row) (index : nat) : M bool :=
  let email := strip (Email row) in
  let cc_value := strip (CC row) in
  let attachment := strip (Attachment_Path row) in
  try_except
    (if is_empty email then
       emit (status_updated index Failed) ;;;
       emit (log_updated (log "❌ No email for row "
                          ++ str_of_nat (index + 2))) ;;;
       ret false
     else
       present <- os_path_exists attachment ;;
       if negb present then
         emit (status_updated index Failed) ;;;
         emit (log_updated (log "❌ Attachment not found: "
                            ++ attachment)) ;;;
         ret false
       else
         start_sent_count <- call SentItemsCount ;;
         let subject := expand_subject row in
         let body_raw := expand_body row in
         let body := build_outlook_safe_html body_raw (para_spacing_px self) in
         call CreateItem ;;;
         call (SetTo email) ;;;
         (if negb (is_empty cc_value) then call (SetCC cc_value) ;;; ret tt
          else ret tt) ;;;
         call (SetSubject subject) ;;;
         try_except (call SetBodyFormat ;;; ret tt) (fun _ => ret tt) ;;;
         call (SetHTMLBody body) ;;;
         call SetImportance ;;;
         call SetReadReceiptRequested ;;;
         call (AttachmentsAdd attachment) ;;;
         call Send ;;;
         wait_sent 30 start_sent_count ;;;
         emit (status_updated index Sent) ;;;
         emit (log_updated (log "✅ Sent to " ++ email)) ;;;
         ret true)
    (fun e =>
       emit (status_updated index Failed) ;;;
       emit (log_updated (log "❌ Error sending to " ++ email
                          ++ log ": " ++ e)) ;;;
       ret false).

(** The first pass of [run] over [self.df.iterrows()]; the result is
    [failed_emails]. *)
Fixpoint first_pass (total : nat) (rows : DataFrame)
    (processed_count : nat) (failed_emails : DataFrame) : M DataFrame :=
  match rows with
  | [] => ret failed_emails
  | (index, row) :: rest =>
      go <- running ;;
      if negb go then
        emit (log_updated (log "⛔ Sending stopped by user.")) ;;;
        ret failed_emails
      else
        success <- _send_single_email row index ;;
        let failed_emails :=
          if success then failed_emails
          else failed_emails ++ [(index, row)] in
        let processed_count := processed_count + 1 in
        emit (progress_updated (percent_of processed_count total)) ;;;
        first_pass total rest processed_count failed_emails
  end.

(** One retry pass over [failed_emails]; the result is [still_failed]. *)
Fixpoint retry_pass (failed_emails still_failed : DataFrame)
    : M DataFrame :=
  match failed_emails with
  | [] => ret still_failed
  | (index, row) :: rest =>
      go <- running ;;
      if negb go then ret still_failed
      else
        success <- _send_single_email row index ;;
        retry_pass rest
          (if success then still_failed
           else still_failed ++ [(index, row)])
  end.

Definition nonempty {A} (l : list A) : bool :=
  match l with
  | [] => false
  | _ :: _ => true
  end.

(** The loop over [range(self.max_retries)]; the result is
    [failed_emails] when the loop is left. *)
Fixpoint retry_loop (attempts : list nat) (failed_emails : DataFrame)
    : M DataFrame :=
  match attempts with
  | [] => ret failed_emails
  | retry_attempt :: rest =>
      go <- running ;;
      if negb go || negb (nonempty failed_emails) then ret failed_emails
      else
        emit (log_updated
                (log "🔄 Retry attempt " ++ str_of_nat (retry_attempt + 1)
                 ++ log "/" ++ str_of_Z (max_retries self))) ;;;
        still_failed <- retry_pass failed_emails [] ;;
        let failed_emails := still_failed in
        (if nonempty failed_emails then emit (sleep 2) else ret tt) ;;;
        retry_loop rest failed_emails
  end.

(** [run] from [total = len(self.df)] to the end of its [try] block. *)
Definition send_all : M unit :=
  let total := length (df self) in
  failed_emails <- first_pass total (df self) 0 [] ;;
  failed_emails <-
    (if nonempty failed_emails && (0 <? max_retries self)%Z then
       emit (log_updated
               (log "🔄 Retrying " ++ str_of_nat (length failed_emails)
                ++ log " failed emails...")) ;;;
       retry_loop (seq 0 (Z.to_nat (max_retries self))) failed_emails
     else ret failed_emails) ;;
  (if nonempty failed_emails then
     emit (log_updated
             (log "⚠️ " ++ str_of_nat (length failed_emails)
              ++ log " emails still failed after all retries"))
   else ret tt) ;;;
  emit finished_sending.

(** [run()] *)
Definition run : M unit :=
  try_except
    (call CoInitialize ;;;
     outlook <- connect (seq 0 5) ;;
     if negb outlook then
       emit (log_updated (log "❌ Could not connect to Outlook. Make sure it is open and fully ready.")) ;;;
       emit finished_sending
     else
       call GetNamespace ;;;
       folders <-
         try_except
           (call (GetDefaultFolder 4) ;;;
            call (GetDefaultFolder 5) ;;;
            ret true)
           (fun e =>
              emit (log_updated
                      (log "❌ Outlook is busy or not ready: " ++ e)) ;;;
              emit finished_sending ;;;
              ret false) ;;
       if negb folders then ret tt
       else send_all)
    (fun e =>
       emit (log_updated (log "FATAL ERROR in worker: " ++ e)) ;;;
       emit finished_sending).

(** The state in which [run] starts. *)
Definition start (w : World) : St := mkSt w 0 [] [].

End Job.

Arguments mkSt {World}.
Arguments world {World}.
Arguments reads {World}.
Arguments events {World}.
Arguments calls {World}.
Arguments ret {World A}.
Arguments bind {World A B}.
Arguments try_except {World A}.
Arguments emit {World}.
Arguments call {World}.
Arguments os_path_exists {World}.
Arguments running {World}.
Arguments connect {World}.
Arguments wait_sent {World}.
Arguments _send_single_email {World}.
Arguments first_pass {World}.
Arguments retry_pass {World}.
Arguments retry_loop {World}.
Arguments send_all {World}.
Arguments run {World}.
Arguments start {World}.

End Worker.

(** ** Notions used in the statements *)

(** The character before the position reached after reading [a]. *)
Definition prev_after (prev : option ascii) (a : str) : option ascii :=
  last (map Some a) prev.

(** Membership in the set [[...]] or [[^...]] of a pattern. *)
Definition cls (ic negated : bool) (items : list item) (c : ascii) : bool :=
  xorb negated (set_has ic items c).

(** The address of a row as the loop reads it, whether the loop keeps
    the row, and the entry it reports otherwise. *)
Definition address (x : nat * Row) : str := strip (Email (snd x)).

Definition kept (x : nat * Row) : bool :=
  fst (validate_email (address x)) || eqs (address x) [].

Definition reported (x : nat * Row) : Invalid :=
  mkInvalid (fst x + 2) (address x) (snd (validate_email (address x))).

(** A frame of three rows, the second with a blank address. *)
Definition sample_frame : DataFrame :=
  [ (0, mkRow (lit "Dela Cruz, Juan") (lit "juan@example.com") [] (lit "a.pdf"));
    (1, mkRow (lit "Reyes, Ana") (lit "  ") [] (lit "b.pdf"));
    (2, mkRow (lit "Santos, Leo") (lit "leo-at-example") [] (lit "c.pdf")) ].


(** The one placeholder. *)
Definition token : str := lit "{{fullname}}".

(** Whether an occurrence of [tok] begins inside [p] when [tok] follows
    [p]. *)
Definition occurs_before (tok p : str) : bool :=
  existsb (fun i => startswith tok (skipn i (p ++ tok))) (seq 0 (length p)).

(** A template cut at the occurrences of [tok]: the pieces in front of
    each occurrence, and the piece behind the last. *)
Definition template_of (tok : str) (init : list str) (last : str) : str :=
  concat (map (fun p => p ++ tok) init) ++ last.

Definition cut_at (tok : str) (init : list str) (last : str) : Prop :=
  forallb (fun p => negb (occurs_before tok p)) init = true
  /\ contains tok last = false.

(** The surname in the words of the specification: the text before the
    first comma, trimmed, when the name has a comma; the name, trimmed,
    otherwise. *)
Definition derived_surname (full_name : str) : str :=
  if contains (lit ",") full_name
  then strip (hd [] (split "," full_name))
  else strip full_name.

(** A job of three rows: the first has all it needs, the second has no
    address, the third an attachment that is not there. *)
Definition sample_job : Worker.EmailWorker :=
  Worker.mkWorker
    [ (0, mkRow (lit " Dela Cruz, Juan ") (lit "juan@example.com") []
            (lit "a.pdf"));
      (1, mkRow (lit "Reyes, Ana") [] [] (lit "b.pdf"));
      (2, mkRow (lit "Santos, Leo") (lit "leo@example.com") []
            (lit "missing.pdf")) ]
    (lit "Notice for {{fullname}}")
    (lit "<p>Dear {{fullname}},</p>")
    12 3.

Definition sample_row : Row :=
  mkRow (lit " Dela Cruz, Juan ") (lit "juan@example.com") [] (lit "a.pdf").

(** *** Reading a list of events *)

Module Trace.

Import Worker.

(** The status events, in order. *)
Fixpoint statuses (evs : list Event) : list (nat * Status) :=
  match evs with
  | [] => []
  | status_updated i st :: evs' => (i, st) :: statuses evs'
  | _ :: evs' => statuses evs'
  end.

(** The rows named by a status event, and those reported as sent. *)
Definition touched (evs : list Event) : list nat := map fst (statuses evs).

Definition sent_of (evs : list Event) : list nat :=
  map fst (filter (fun x => match snd x with Sent => true | _ => false end)
                  (statuses evs)).

Fixpoint progresses (evs : list Event) : list Z :=
  match evs with
  | [] => []
  | progress_updated p :: evs' => p :: progresses evs'
  | _ :: evs' => progresses evs'
  end.

Fixpoint sleeps (evs : list Event) : list nat :=
  match evs with
  | [] => []
  | sleep n :: evs' => n :: sleeps evs'
  | _ :: evs' => sleeps evs'
  end.

Fixpoint finished_count (evs : list Event) : nat :=
  match evs with
  | [] => 0
  | finished_sending :: evs' => S (finished_count evs')
  | _ :: evs' => finished_count evs'
  end.

(** The status of row [index] as the events leave it: [Pending] until an
    event names the row, then the status of the latest such event. *)
Fixpoint status_of (evs : list Event) (index : nat) (now : Status) : Status :=
  match evs with
  | [] => now
  | status_updated i st :: evs' =>
      status_of evs' index (if i =? index then st else now)
  | _ :: evs' => status_of evs' index now
  end.

(** No event names a row after an event has reported it as sent. *)
Definition monotone (evs : list Event) : Prop :=
  forall before after index,
    evs = before ++ status_updated index Sent :: after ->
    ~ In index (touched after).

(** The calls made while sending one mail that raised. *)
Definition raised (cs : list (Call * bool)) : list Call :=
  map fst (filter snd cs).

End Trace.

(** *** Sample surroundings *)

Module Sample.

Import Worker.

(** Outlook answers every call with 0, except the calls in [bad], which
    raise; every path exists but "missing.pdf". *)
Definition respond (bad : Call -> bool) (w : unit) (c : Call)
    : Result * unit :=
  (if bad c then Raised (lit "busy") else Returned 0%Z, w).

Definition path_exists (w : unit) (p : str) : bool :=
  negb (eqs p (lit "missing.pdf")).

Definition is_dispatch (c : Call) : bool :=
  match c with Dispatch => true | _ => false end.

Definition is_body_format (c : Call) : bool :=
  match c with SetBodyFormat => true | _ => false end.

Definition is_send (c : Call) : bool :=
  match c with Send => true | _ => false end.

Definition never (c : Call) : bool := false.

(** The user never stops the job; the user stops it after [k + 1] rows. *)
Definition always_running (n : nat) : bool := true.
Definition stop_after (k : nat) (n : nat) : bool := n <=? k.

End Sample.

(** *** Sending one mail *)

Module SendSpec.

Import Worker Trace.

Section Send.

Context {World : Type}.

(** A step that reads no flag and adds [evs] and [cs] to the state. *)
Definition grows (s s' : St World) (evs : list Event)
    (cs : list (Call * bool)) : Prop :=
  reads s' = reads s /\ events s' = events s ++ evs
  /\ calls s' = calls s ++ cs.

Definition nap (e : Event) : Prop := e = sleep 1.

(** A computation that only calls Outlook and naps: when it returns,
    no call has raised but perhaps the setting of the body format; when
    it raises, another call has raised. *)
Definition calm {A} (m : M World A) : Prop :=
  forall s, exists o s' naps cs,
    m s = (o, s') /\ grows s s' naps cs /\ Forall nap naps
    /\ match o with
       | Ret _ => Forall (eq SetBodyFormat) (raised cs)
       | Raise _ => exists c, In c (raised cs) /\ c <> SetBodyFormat
       end.

(** A computation that ends by reporting row [index] as sent, unless a
    call raises before. *)
Definition sends (index : nat) (message : str) (m : M World bool) : Prop :=
  forall s, exists o s' naps cs,
    m s = (o, s') /\ Forall nap naps
    /\ match o with
       | Ret b =>
           b = true
           /\ grows s s' (naps ++ [status_updated index Sent;
                                   log_updated message]) cs
           /\ Forall (eq SetBodyFormat) (raised cs)
       | Raise _ =>
           grows s s' naps cs
           /\ exists c, In c (raised cs) /\ c <> SetBodyFormat
       end.

End Send.

(** The log line of the handler of [_send_single_email]. *)
Definition error_message (row : Row) (e : str) : str :=
  log "❌ Error sending to " ++ strip (Email row) ++ log ": " ++ e.

End SendSpec.

(** *** Connecting *)

Module ConnectSpec.

Import Worker.

(** The log line of a failed attempt and the line that ends the job. *)
Definition attempt_failed (attempt : nat) (e : str) : str :=
  log "⚠ Attempt " ++ str_of_nat (attempt + 1)
  ++ log " failed to connect Outlook: " ++ e.

Definition could_not_connect : str :=
  log "❌ Could not connect to Outlook. Make sure it is open and fully ready.".

(** What the failed attempts numbered [attempts] emit, [errors] being
    the exceptions of [Dispatch] in order. *)
Definition failed_attempts (attempts : list nat) (errors : list str)
    : list Event :=
  concat (map (fun x => [log_updated (attempt_failed (fst x) (snd x)); sleep 3])
              (combine attempts errors)).

End ConnectSpec.

(** *** A pass over the rows *)

Module PassSpec.

Import Worker Trace.

(** What a pass over [rows] leaves: events [evs] in which no row is named
    again once reported as sent and which name rows of [rows] only, and
    the rows [extra] that it adds to the failed ones, none of them
    reported as sent. *)
Definition pass_ok (rows : DataFrame) (evs : list Event) (extra : DataFrame)
    : Prop :=
  monotone evs
  /\ incl (touched evs) (map fst rows)
  /\ incl extra rows
  /\ NoDup (map fst extra)
  /\ (forall x, In x extra -> ~ In (fst x) (sent_of evs))
  /\ finished_count evs = 0.

(** A status that an attempt reports. *)
Definition attempted (x : nat * Status) : Prop :=
  snd x = Sent \/ snd x = Failed.

End PassSpec.

(** A job of one row without an address, with one retry. *)
Definition lone_job : Worker.EmailWorker :=
  Worker.mkWorker
    [ (0, mkRow (lit "Reyes, Ana") [] [] (lit "b.pdf")) ]
    (lit "Notice for {{fullname}}")
    (lit "<p>Dear {{fullname}},</p>")
    12 1.

(** *** Tags and patterns *)

Module RenderSpec.

(** [s] starts with [h], whatever the case of its letters. *)
Fixpoint starts_ci (h s : str) : bool :=
  match h, s with
  | [], _ => true
  | x :: h', y :: s' => lit_eq true x y && starts_ci h' s'
  | _ :: _, [] => false
  end.

(** [h] occurs in [s], whatever the case of its letters. *)
Fixpoint occurs_ci (h s : str) : bool :=
  starts_ci h s ||
  match s with
  | [] => false
  | _ :: s' => occurs_ci h s'
  end.

(** An occurrence of [h] begins inside [u] when [v] follows [u]. *)
Definition begins (h u v : str) : bool :=
  existsb (fun i => starts_ci h (skipn i u ++ v)) (seq 0 (length u)).

(** [x] differs from [h] at a place that both have. *)
Fixpoint mismatch (h x : str) : bool :=
  match h, x with
  | a :: h', b :: x' => negb (lit_eq true a b) || mismatch h' x'
  | _, _ => false
  end.

(** At every place of [u], [u] differs from [h] from there on. *)
Definition clean (h u : str) : bool :=
  forallb (fun i => mismatch h (skipn i u)) (seq 0 (length u)).

(** The tags that the builder rewrites. *)
Definition heads : list str :=
  [lit "<p"; lit "</p>"; lit "<br"; lit "<div"; lit "</div>"; lit "<body"].

(** Markup that holds none of them. *)
Definition inert (t : str) : bool :=
  forallb (fun h => negb (occurs_ci h t)) heads.

(** The attributes of an opening tag: empty, or text without angle
    brackets that does not start with a word character. *)
Definition attrs_ok (a : str) : bool :=
  forallb (fun c => negb (eqc c "<") && negb (eqc c ">")) a
  && match a with
     | [] => true
     | c :: _ => negb (is_word c)
     end.

(** Text that is nothing but spaces. *)
Definition blank (c : str) : bool := forallb isspace c.

(** A pattern that can only match a text that starts with [h]. *)
Definition headed (r : regex) (h : str) : Prop :=
  forall A prev s g (k : @cont A),
    starts_ci h s = false -> mt true r prev s g k = None.

(** What follows a piece of markup: nothing, or a tag. *)
Definition follows (v : str) : Prop :=
  v = [] \/ exists v', v = "<"%char :: v'.

Definition no_lt (h : str) : bool :=
  forallb (fun c => negb (lit_eq true c "<")) h.

(** The two paragraph patterns, written out. *)
Definition blank_p_expanded : regex :=
  Cat (cat (map Lit ("<"%char :: lit "p")))
    (Cat Bound
       (Cat (Repeat true 0 None (Set_ true [IChar ">"]))
          (Cat (Lit ">")
             (Cat (Repeat true 0 None (Set_ false [ISpace]))
                (cat (map Lit ("<"%char :: lit "/p>"))))))).

Definition para_expanded : regex :=
  Cat (cat (map Lit ("<"%char :: lit "p")))
    (Cat Bound
       (Cat (Repeat true 0 None (Set_ true [IChar ">"]))
          (Cat (Lit ">")
             (Cat (Group 1 (Repeat false 0 None (Set_ false [ISpace; INotSpace])))
                (cat (map Lit ("<"%char :: lit "/p>"))))))).

End RenderSpec.

(** *** The shape of an address *)

Module AddressSpec.

(** The three sets of the pattern of [validate_email]. *)
Definition local_char (c : ascii) : bool :=
  cls false false [IRange "a" "z"; IRange "A" "Z"; IRange "0" "9";
                   IChar "."; IChar "_"; IChar "%"; IChar "+"; IChar "-"] c.

Definition domain_char (c : ascii) : bool :=
  cls false false [IRange "a" "z"; IRange "A" "Z"; IRange "0" "9";
                   IChar "."; IChar "-"] c.

Definition letter (c : ascii) : bool :=
  cls false false [IRange "a" "z"; IRange "A" "Z"] c.

(** [local@name.tld]: a local part, a domain whose last label [tld] is
    two letters or more, the rest of the domain being [name]. *)
Definition address (local name tld : str) : str :=
  local ++ "@"%char :: name ++ "."%char :: tld.

Definition shaped (local name tld : str) : Prop :=
  local <> [] /\ forallb local_char local = true
  /\ name <> [] /\ forallb domain_char name = true
  /\ 2 <= length tld /\ forallb letter tld = true.

(** The reason given for a domain that starts with a dot. *)
Definition dot_reason (domain : str) : str :=
  lit "Domain cannot start or end with dot: " ++ domain.

End AddressSpec.

(** *** The calls of one attempt *)

Module AttemptSpec.

Import Worker Trace SendSpec.

(** The calls that [_send_single_email] makes, as against those of the
    start of [run]; the two that its wait repeats. *)
Definition mail_call (c : Call) : bool :=
  match c with
  | CoInitialize | Dispatch | GetNamespace | GetDefaultFolder _ => false
  | _ => true
  end.

Definition poll (c : Call) : bool :=
  match c with
  | OutboxItemsCount | SentItemsCount => true
  | _ => false
  end.

(** The calls that compose and send the mail of a row, in order. *)
Definition mail_script (self : EmailWorker) (row : Row) : list Call :=
  [SentItemsCount; CreateItem; SetTo (strip (Email row))]
  ++ (if is_empty (strip (CC row)) then [] else [SetCC (strip (CC row))])
  ++ [SetSubject (expand_subject self row);
      SetBodyFormat;
      SetHTMLBody (build_outlook_safe_html (expand_body self row)
                                           (para_spacing_px self));
      SetImportance;
      SetReadReceiptRequested;
      AttachmentsAdd (strip (Attachment_Path row));
      Send].

(** What a run through [script] and a wait of at most [rounds] rounds
    leaves: the calls [cs] are an initial part of [script] followed by
    polls, the naps are at most [rounds]; when it went through ([ok]),
    all of it was called and nothing raised but perhaps the setting of
    the body format; when it did not, the last call raised, and was not
    that one. *)
Definition played (script : list Call) (rounds : nat) (ok : bool)
    (naps : list Event) (cs : list (Call * bool)) : Prop :=
  Forall nap naps /\ length naps <= rounds
  /\ (exists polls rest,
        map fst cs ++ rest = script ++ polls
        /\ forallb poll polls = true /\ length polls <= 2 * rounds
        /\ (ok = true -> rest = []))
  /\ if ok then Forall (eq SetBodyFormat) (raised cs)
     else exists pre c,
            cs = pre ++ [(c, true)] /\ c <> SetBodyFormat
            /\ Forall (eq SetBodyFormat) (raised pre).

Definition went {A} (o : Outcome A) : bool :=
  match o with
  | Ret _ => true
  | Raise _ => false
  end.

(** The state of Outlook after the calls [cs], made one after the other
    from [w]. *)
Fixpoint after {World} (respond : World -> Call -> Result * World)
    (w : World) (cs : list Call) : World :=
  match cs with
  | [] => w
  | c :: cs' => after respond (snd (respond w c)) cs'
  end.

(** The exception [e] is the one with which the last of the calls [cs],
    made from [w], was answered, leaving [w']. *)
Definition cause {World} (respond : World -> Call -> Result * World)
    (w : World) (cs : list (Call * bool)) (e : str) (w' : World) : Prop :=
  exists pre c,
    cs = pre ++ [(c, true)]
    /\ respond (after respond w (map fst pre)) c = (Raised e, w').

(** A computation that plays [script], waits, and reports row [index]
    as sent if nothing raised; when a call raised, the exception that
    leaves the computation is the one of that call. *)
Definition plays {World} (respond : World -> Call -> Result * World)
    (index : nat) (message : str) (script : list Call)
    (rounds : nat) (m : M World bool) : Prop :=
  forall s, exists o s' naps cs,
    m s = (o, s')
    /\ reads s' = reads s
    /\ events s' = events s ++ naps
                   ++ (if went o
                       then [status_updated index Sent; log_updated message]
                       else [])
    /\ calls s' = calls s ++ cs
    /\ played script rounds (went o) naps cs
    /\ match o with
       | Ret b => b = true
       | Raise e => cause respond (world s) cs e (world s')
       end.

(** The two log lines of a row that is turned down before any call. *)
Definition no_email (index : nat) : str :=
  log "❌ No email for row " ++ str_of_nat (index + 2).

Definition no_attachment (row : Row) : str :=
  log "❌ Attachment not found: " ++ strip (Attachment_Path row).

Definition sent_to (row : Row) : str :=
  log "✅ Sent to " ++ strip (Email row).

(** Sample surroundings: an outbox that never empties beside a sent
    folder that never grows, and an outbox that cannot be read. *)
Definition stuck_outbox (w : unit) (c : Call) : Result * unit :=
  (Returned 1%Z, w).

Definition is_outbox (c : Call) : bool :=
  match c with OutboxItemsCount => true | _ => false end.

End AttemptSpec.

(** *** The passes of a job, row by row *)

Module RunSpec.

Import Worker Trace.

(** What a pass over [rows] reports when its attempts end as [results],
    one result for each row that it reaches, and the rows that it adds
    to the failed ones. *)
Definition reports (rows : DataFrame) (results : list bool)
    : list (nat * Status) :=
  map (fun x : nat * Row * bool =>
         (fst (fst x), if snd x then Sent else Failed))
      (combine rows results).

Definition failures (rows : DataFrame) (results : list bool) : DataFrame :=
  map fst (filter (fun x : nat * Row * bool => negb (snd x))
                  (combine rows results)).

(** A row that cannot be sent, whatever Outlook does: it has no
    address, or its attachment is nowhere. *)
Definition hopeless {World} (path_exists : World -> str -> bool) (row : Row)
    : Prop :=
  is_empty (strip (Email row)) = true
  \/ forall w, path_exists w (strip (Attachment_Path row)) = false.

(** The results of a pass give [False] for every such row. *)
Definition results_of {World} (path_exists : World -> str -> bool)
    (rows : DataFrame) (results : list bool) : Prop :=
  Forall (fun x : nat * Row * bool =>
            hopeless path_exists (snd (fst x)) -> snd x = false)
         (combine rows results).

(** How often an event names row [index]; how often the job sleeps for
    [n] seconds. *)
Definition attempts_of (evs : list Event) (index : nat) : nat :=
  count_occ Nat.eq_dec (touched evs) index.

Definition sleeps_of (evs : list Event) (n : nat) : nat :=
  count_occ Nat.eq_dec (sleeps evs) n.

(** The calls with which [run] starts. *)
Definition startup_call (c : Call) : bool :=
  match c with
  | CoInitialize | Dispatch | GetNamespace | GetDefaultFolder _ => true
  | _ => false
  end.

(** The two log lines with which [run] gives up before the first row. *)
Definition fatal_error (e : str) : str :=
  log "FATAL ERROR in worker: " ++ e.

Definition not_ready (e : str) : str :=
  log "❌ Outlook is busy or not ready: " ++ e.

Definition connected : str := log "✅ Connected to Outlook COM.".

(** What the first pass leaves when its attempts end as [results], the
    flag being read for the first time at read [first_read], and what
    the retries leave, [retries] of them being allowed on the rows
    [failed]. *)
Definition first_part (running_at : nat -> bool) (first_read : nat)
    (percent_of : nat -> nat -> Z) (rows : DataFrame)
    (results : list bool) (evs : list Event) : Prop :=
  length results <= length rows
  /\ (forall j, j < length results -> running_at (first_read + j) = true)
  /\ (length results < length rows ->
      running_at (first_read + length results) = false)
  /\ statuses evs = reports rows results
  /\ progresses evs
     = map (fun i => percent_of i (length rows)) (seq 1 (length results))
  /\ finished_count evs = 0
  /\ sleeps_of evs 2 = 0.

Definition retry_part (retries : nat) (failed : DataFrame)
    (evs : list Event) : Prop :=
  progresses evs = []
  /\ finished_count evs = 0
  /\ sleeps_of evs 2 <= retries
  /\ incl (touched evs) (map fst failed)
  /\ (NoDup (map fst failed) -> forall i, attempts_of evs i <= retries)
  /\ (retries = 0 -> statuses evs = [])
  /\ Forall PassSpec.attempted (statuses evs).

End RunSpec.

(** *** Documents *)

Module DocumentSpec.

Import RenderSpec.

(** The pattern of [body_match], written out. *)
Definition body_expanded : regex :=
  Cat (cat (map Lit ("<"%char :: lit "body")))
    (Cat (Repeat true 0 None (Set_ true [IChar ">"]))
       (Cat (Lit ">")
          (Cat (Group 1 (Repeat false 0 None (Set_ false [ISpace; INotSpace])))
             (cat (map Lit ("<"%char :: lit "/body>")))))).

(** A document: what stands in front of the body element, the
    attributes of its tag, its content, and what stands behind it. *)
Definition document (pre a c post : str) : str :=
  pre ++ lit "<body" ++ a ++ lit ">" ++ c ++ lit "</body>" ++ post.

(** A sample document. *)
Definition sample_document : str :=
  document (lit "<html><head><title>t</title></head>")
           (lit " style=x")
           (lit "<p>Dear Ana,</p>")
           (lit "</html>").

(** The pattern of the first div substitution, written out. *)
Definition div_open_expanded : regex :=
  Cat (cat (map Lit ("<"%char :: lit "div")))
    (Cat Bound
       (Cat (Group 1 (Repeat true 0 None (Set_ true [IChar ">"])))
          (Lit ">"))).

End DocumentSpec.

(** *** Line breaks *)

Module BreakSpec.

Import RenderSpec.

(** A line break [<br>], [<br/>], [<br />]: spaces in front of an
    optional slash. *)
Record Br : Type := mkBr { gap : str; slash : bool }.

Definition br_source (b : Br) : str :=
  lit "<br" ++ gap b ++ (if slash b then lit "/" else []) ++ lit ">".

(** What the pattern of a run repeats, the pattern of a run and that
    of one line break, written out. *)
Definition br_body : regex :=
  Cat (cat (map Lit ("<"%char :: lit "br")))
    (Cat (Repeat true 0 None (Set_ false [ISpace]))
       (Cat (Repeat true 0 (Some 1) (Lit "/"))
          (Cat (Lit ">") (Repeat true 0 None (Set_ false [ISpace]))))).

Definition br_run_expanded : regex := Repeat true 2 None (NonCap br_body).

Definition br_expanded : regex :=
  Cat (cat (map Lit ("<"%char :: lit "br")))
    (Cat (Repeat true 0 None (Set_ false [ISpace]))
       (Cat (Repeat true 0 (Some 1) (Lit "/")) (Lit ">"))).







(** A run of line breaks, each with the spaces behind it. *)
Definition run_source (brs : list (Br * str)) : str :=
  concat (map (fun x => br_source (fst x) ++ snd x) brs).

Definition breaks_ok (brs : list (Br * str)) : bool :=
  forallb (fun x => blank (gap (fst x)) && blank (snd x)) brs.

(** A text that does not start with a space. *)
Definition flush (t : str) : bool :=
  match t with
  | [] => true
  | c :: _ => negb (isspace c)
  end.



End BreakSpec.

(** *** Documents of blocks *)

Module BlockSpec.

Import RenderSpec BreakSpec.

(** [o] is the tag [h], whatever the case of its letters. *)
Fixpoint spelled (h o : str) : bool :=
  match h, o with
  | [], [] => true
  | x :: h', y :: o' => lit_eq true x y && spelled h' o'
  | _, _ => false
  end.

Definition has_items {T} (l : list T) : bool :=
  match l with
  | [] => false
  | _ :: _ => true
  end.

(** Text with line breaks: pieces of text, each with the run of line
    breaks behind it (a line break comes with the spaces behind it), and
    the text behind the last run. *)
Definition Run : Type := list (Br * str).

Definition Flow : Type := list (str * Run) * str.

Definition flow_source (f : Flow) : str :=
  concat (map (fun x => fst x ++ run_source (snd x)) (fst f)) ++ snd f.

(** The text holds none of the tags that the builder rewrites, the line
    breaks are well written, no run is empty, and the text behind a run
    does not start with a space, so that the run ends where it is said
    to; between two runs there is text. *)
Fixpoint flow_chain (items : list (str * Run)) (tail : str) : bool :=
  match items with
  | [] => inert tail
  | (t, r) :: rest =>
      inert t && breaks_ok r && has_items r
      && match rest with
         | [] => flush tail
         | (t', _) :: _ => flush t' && has_items t'
         end
      && flow_chain rest tail
  end.

Definition flow_ok (f : Flow) : bool := flow_chain (fst f) (snd f).

(** What the specification puts in the place of a run of two or more
    line breaks, written out. *)
Definition break_spacer (px : Z) : str :=
  html "<table role=`presentation` border=`0` cellspacing=`0` cellpadding=`0` width=`100%`><tr><td style=`padding:0 0 "
  ++ str_of_Z px
  ++ html "px 0;`><span style=`font-size:1px; line-height:1px;`>&nbsp;</span></td></tr></table>".

(** A run of two or more line breaks is collapsed, with the spaces
    behind them; a single line break stays as it is written. *)
Definition run_render (px : Z) (r : Run) : str :=
  if 2 <=? length r then break_spacer px else run_source r.

Definition flow_render (px : Z) (f : Flow) : str :=
  concat (map (fun x => fst x ++ run_render px (snd x)) (fst f)) ++ snd f.

(** The layout construct of the specification, written out: a table of
    rows; a content row, the content in a cell of line height 1.35 in
    the sans-serif fonts; a spacer row of a given height. *)
Definition layout (rows : list str) : str :=
  html "<table role=`presentation` border=`0` cellspacing=`0` cellpadding=`0` width=`100%`>"
  ++ concat rows ++ html "</table>".

Definition content_cell (content : str) : str :=
  html "<tr><td style=`line-height:1.35; mso-line-height-rule:exactly; font-family: Segoe UI, Arial, sans-serif;`>"
  ++ content ++ html "</td></tr>".

Definition spacer_cell (px : Z) : str :=
  html "<tr><td height=`" ++ str_of_Z px
  ++ html "` style=`font-size:0; line-height:0;`>&nbsp;</td></tr>".

(** A paragraph-like block: its opening tag without the [>], [<p] or
    [<div] in any case of the letters, its attributes, its content, and
    its closing tag, [</p>] or [</div>] in any case. *)
Record Block : Type := mkBlock {
  opening : str;
  attributes : str;
  inner : Flow;
  closing : str
}.

Definition block_source (b : Block) : str :=
  opening b ++ attributes b ++ lit ">" ++ flow_source (inner b) ++ closing b.

Definition block_ok (b : Block) : bool :=
  (spelled (lit "<p") (opening b) || spelled (lit "<div") (opening b))
  && attrs_ok (attributes b)
  && flow_ok (inner b)
  && (spelled (lit "</p>") (closing b) || spelled (lit "</div>") (closing b)).

(** A block is empty when its content is nothing but spaces. *)
Definition empty (b : Block) : bool := blank (flow_source (inner b)).

(** What the specification asks of a block: a spacer row alone when it
    is empty; otherwise a content row with its content, the runs of line
    breaks in it collapsed, and then a spacer row. *)
Definition block_render (px : Z) (b : Block) : str :=
  if empty b then layout [spacer_cell px]
  else layout [content_cell (flow_render px (inner b)); spacer_cell px].

(** The content of a document: blocks, each with the text in front of
    it, and the text behind the last. *)
Definition Body : Type := list (Flow * Block) * Flow.

Definition weave (ff : Flow -> str) (bf : Block -> str) (d : Body) : str :=
  concat (map (fun x => ff (fst x) ++ bf (snd x)) (fst d)) ++ ff (snd d).

Definition body_source (d : Body) : str := weave flow_source block_source d.

Definition body_render (px : Z) (d : Body) : str :=
  weave (flow_render px) (block_render px) d.

Definition body_ok (d : Body) : bool :=
  has_items (fst d)
  && forallb (fun x => flow_ok (fst x) && block_ok (snd x)) (fst d)
  && flow_ok (snd d).

(** A full document around the content: what stands in front of the
    body element, its opening tag without the [>], in any case of the
    letters, its attributes, its closing tag, and what stands behind. *)
Record Frame : Type := mkFrame {
  before : str;
  body_open : str;
  body_attributes : str;
  body_close : str;
  behind : str
}.

Definition Doc : Type := option Frame * Body.

Definition doc_source (d : Doc) : str :=
  match fst d with
  | None => body_source (snd d)
  | Some w =>
      before w ++ body_open w ++ body_attributes w ++ lit ">"
      ++ body_source (snd d) ++ body_close w ++ behind w
  end.

Definition frame_ok (w : Frame) (content : str) : bool :=
  negb (occurs_ci (lit "<body") (before w))
  && spelled (lit "<body") (body_open w)
  && forallb (fun c => negb (eqc c ">")) (body_attributes w)
  && spelled (lit "</body>") (body_close w)
  && negb (occurs_ci (lit "</body>") content).

Definition doc_ok (d : Doc) : bool :=
  body_ok (snd d)
  && match fst d with
     | None => true
     | Some w => frame_ok w (body_source (snd d))
     end.

(** *** The stages of the builder *)

(** A block after the two div substitutions. *)
Definition opened (b : Block) : Block :=
  mkBlock (if spelled (lit "<div") (opening b) then lit "<p" else opening b)
          (attributes b) (inner b) (closing b).

Definition closed (b : Block) : Block :=
  mkBlock (opening b) (attributes b) (inner b)
          (if spelled (lit "</div>") (closing b) then lit "</p>"
           else closing b).

Definition plain (b : Block) : bool :=
  spelled (lit "<p") (opening b) && attrs_ok (attributes b)
  && flow_ok (inner b) && spelled (lit "</p>") (closing b).

(** A block after the substitution of the runs of line breaks, and
    after that of the blank paragraphs. *)
Definition block_collapsed (px : Z) (b : Block) : str :=
  opening b ++ attributes b ++ lit ">" ++ flow_render px (inner b)
  ++ closing b.

Definition block_unblanked (px : Z) (b : Block) : str :=
  if empty b then spacer px else block_collapsed px b.

Definition normal (b : Block) : Block := closed (opened b).

(** The text of a block, or of the body element, and what follows it. *)
Definition element (o a c cl v : str) : str :=
  o ++ a ++ ">"%char :: c ++ cl ++ v.

(** No occurrence of the tag [h] begins in [u], whatever follows [u];
    none begins in [u] when a tag, or nothing, follows. *)
Definition sealed (h u : str) : Prop := forall v, begins h u v = false.

Definition free (h u : str) : Prop :=
  forall v, follows v -> begins h u v = false.

(** What follows a piece of text with line breaks: nothing, or a tag
    that is no line break. *)
Definition edge (v : str) : Prop :=
  follows v /\ starts_ci (lit "<br") v = false.

(** The tags of the blocks and of the body element. *)
Definition blocky : list str :=
  [lit "<p"; lit "</p>"; lit "<div"; lit "</div>"; lit "<body"].

(** A document in a frame: a paragraph with a single line break, an
    empty block written as a div, and a paragraph with a run of two line
    breaks. *)
Definition sample_doc : Doc :=
  (Some (mkFrame (lit "<html><head><title>t</title></head>")
                 (lit "<BODY") (lit " style=x") (lit "</Body>")
                 (lit "</html>")),
   ([ (([], []),
       mkBlock (lit "<p") []
               ([(lit "Dear Ana,", [(mkBr [] false, [])])], lit "thank you.")
               (lit "</p>"));
      (([], lit "between"),
       mkBlock (lit "<DIV") (lit " align=left") ([], lit "  ") (lit "</div>"));
      (([], []),
       mkBlock (lit "<P") (lit " class=x")
               ([(lit "Regards", [(mkBr [] false, lit " ");
                                  (mkBr (lit " ") true, [])])],
                lit "Ana")
               (lit "</P>")) ],
    ([], lit "<i>tail</i>"))).

End BlockSpec.

(** * Properties *)

(** ** Strings *)

Module PyFacts.

Lemma lstrip_spaces (ws v : str) :
  forallb isspace ws = true -> lstrip (ws ++ v) = lstrip v.
Proof.
  induction ws as [|c ws IH]; simpl; intros H; [reflexivity|].
  apply andb_true_iff in H as [Hc H]. rewrite Hc. now apply IH.
Qed.

Lemma forallb_rev {A} (f : A -> bool) (l : list A) :
  forallb f (rev l) = forallb f l.
Proof.
  induction l as [|x l IH]; simpl; [reflexivity|].
  rewrite forallb_app, IH. simpl. rewrite andb_true_r. apply andb_comm.
Qed.

Lemma rstrip_spaces (v ws : str) :
  forallb isspace ws = true -> rstrip (v ++ ws) = rstrip v.
Proof.
  intros H. unfold rstrip. rewrite rev_app_distr, lstrip_spaces; [reflexivity|].
  now rewrite forallb_rev.
Qed.

(** What [lstrip] drops is a run of spaces, and what is left does not
    start with one. *)
Lemma lstrip_split (s : str) :
  exists ws, s = ws ++ lstrip s /\ forallb isspace ws = true.
Proof.
  induction s as [|c s [ws [E H]]]; simpl.
  - now exists [].
  - destruct (isspace c) eqn:Hc.
    + exists (c :: ws). simpl. rewrite Hc, H. split; [now f_equal | reflexivity].
    + now exists [].
Qed.

Lemma rstrip_split (s : str) :
  exists ws, s = rstrip s ++ ws /\ forallb isspace ws = true.
Proof.
  destruct (lstrip_split (rev s)) as [ws [E H]].
  exists (rev ws). unfold rstrip. split.
  - rewrite <- rev_app_distr, <- E. symmetry. apply rev_involutive.
  - now rewrite forallb_rev.
Qed.

Lemma lstrip_all_spaces (ws : str) :
  forallb isspace ws = true -> lstrip ws = [].
Proof.
  intros H. rewrite <- (app_nil_r ws). now rewrite lstrip_spaces.
Qed.

Lemma lstrip_app_keep (u v : str) :
  lstrip u <> [] -> lstrip (u ++ v) = lstrip u ++ v.
Proof.
  induction u as [|c u IH]; simpl; [congruence|].
  destruct (isspace c); auto.
Qed.

(** Padding with spaces on either side does not change [strip]. *)
Lemma strip_padded (ws1 v ws2 : str) :
  forallb isspace ws1 = true -> forallb isspace ws2 = true ->
  strip (ws1 ++ v ++ ws2) = strip v.
Proof.
  intros H1 H2. unfold strip. rewrite lstrip_spaces by assumption.
  destruct (lstrip v) as [|c u] eqn:E.
  - destruct (lstrip_split v) as [ws [Ev Hws]]. rewrite E, app_nil_r in Ev.
    subst v. rewrite lstrip_all_spaces.
    + reflexivity.
    + rewrite forallb_app. now rewrite Hws, H2.
  - rewrite lstrip_app_keep by (rewrite E; discriminate).
    rewrite E. now apply rstrip_spaces.
Qed.

Lemma count_app (c : ascii) (a b : str) :
  count c (a ++ b) = count c a + count c b.
Proof. unfold count. now rewrite filter_app, length_app. Qed.

Lemma count_none (c : ascii) (P : ascii -> bool) (s : str) :
  forallb P s = true -> P c = false -> count c s = 0.
Proof.
  intros H Hc. revert H. induction s as [|x s IH]; simpl; [reflexivity|].
  intros H. apply andb_true_iff in H as [Hx H].
  unfold count in *. simpl. unfold eqc at 1.
  destruct (Ascii.eqb_spec c x) as [->|_]; [congruence|]. now apply IH.
Qed.

Lemma count_strip (c : ascii) (s : str) :
  isspace c = false -> count c (strip s) = count c s.
Proof.
  intros Hc. unfold strip.
  destruct (lstrip_split s) as [w1 [E1 H1]].
  destruct (rstrip_split (lstrip s)) as [w2 [E2 H2]].
  rewrite E1 at 2. rewrite E2 at 2. rewrite !count_app.
  rewrite (count_none c isspace w1), (count_none c isspace w2) by assumption.
  lia.
Qed.

(** [c in s] for a single character. *)
Lemma contains_char (c : ascii) (s : str) :
  contains [c] s = (0 <? count c s).
Proof.
  induction s as [|x s IH]; simpl; [reflexivity|].
  unfold count in *. simpl. rewrite IH. unfold eqc.
  destruct (Ascii.eqb c x); simpl; reflexivity.
Qed.

Lemma contains_app_r (n a b : str) :
  contains n a = false -> length n = 1 -> contains n (a ++ b) = contains n b.
Proof.
  destruct n as [|c [|]]; try discriminate. intros H _.
  rewrite !contains_char in *. rewrite count_app.
  apply Nat.ltb_ge in H. assert (count c a = 0) as -> by (revert H; generalize (count c a); intros; lia). reflexivity.
Qed.

(** [s.split(c)] has one part more than [s] has occurrences of [c]. *)
Lemma split_length (c : ascii) (s : str) :
  length (split c s) = S (count c s).
Proof.
  induction s as [|x s IH]; simpl; [reflexivity|].
  unfold count in *. simpl. unfold eqc. rewrite (Ascii.eqb_sym x c).
  destruct (Ascii.eqb c x); simpl.
  - now rewrite IH.
  - destruct (split c s); simpl in *; [discriminate | exact IH].
Qed.

Lemma existsb_seq_shift (f : nat -> bool) (a n : nat) :
  existsb f (seq (S a) n) = existsb (fun i => f (S i)) (seq a n).
Proof.
  revert a. induction n as [|n IH]; intros a; [reflexivity|].
  simpl. now rewrite IH.
Qed.

End PyFacts.

(** ** The matcher on a repeated set *)

Module ReFacts.

Lemma last_cons {T} (x d : T) (l : list T) : last (x :: l) d = last l x.
Proof.
  revert x d. induction l as [|y l IH]; intros x d; [reflexivity|].
  change (last (x :: y :: l) d) with (last (y :: l) d).
  now rewrite !IH.
Qed.

Lemma prev_after_cons (prev : option ascii) (c : ascii) (a : str) :
  prev_after prev (c :: a) = prev_after (Some c) a.
Proof. unfold prev_after. simpl map. apply last_cons. Qed.

Section RepeatedSet.

Context {A : Type}.
Variables (ic negated : bool) (items : list item) (lo : nat).
Variable k : @cont A.

Let body : option ascii -> str -> groups -> @cont A -> option A :=
  fun prev' s' g' k' => mt ic (Set_ negated items) prev' s' g' k'.

Let P := cls ic negated items.

(** A successful repetition read a run [a] of the set, long enough,
    and the continuation succeeded on what follows. *)
Lemma rep_loop_inv (greedy : bool) (fuel : nat) :
  forall cnt prev s g r,
    rep_loop body greedy lo None k fuel cnt prev s g = Some r ->
    exists a b, s = a ++ b /\ forallb P a = true /\ lo <= cnt + length a
                /\ k (prev_after prev a) b g = Some r.
Proof.
  induction fuel as [|fuel IH]; intros cnt prev s g r H.
  - exists [], s. simpl in H.
    destruct greedy; simpl in H;
      destruct (lo <=? cnt) eqn:E; try discriminate;
      apply Nat.leb_le in E; (split; [reflexivity|]);
      (split; [reflexivity|]); (split; [simpl; lia|]);
      unfold prev_after; simpl; destruct (k prev s g); simpl in H;
      congruence.
  - assert (Hstop : (if lo <=? cnt then k prev s g else None) = Some r ->
                    exists a b, s = a ++ b /\ forallb P a = true
                                /\ lo <= cnt + length a
                                /\ k (prev_after prev a) b g = Some r).
    { intros E. destruct (lo <=? cnt) eqn:L; [|discriminate].
      apply Nat.leb_le in L. exists [], s.
      split; [reflexivity|]. split; [reflexivity|].
      split; [simpl; lia | exact E]. }
    assert (Hmore : forall c s', s = c :: s' ->
              (if xorb negated (set_has ic items c)
               then (if length s' <? length s
                     then rep_loop body greedy lo None k fuel (S cnt)
                            (Some c) s' g
                     else None)
               else None) = Some r ->
              exists a b, s = a ++ b /\ forallb P a = true
                          /\ lo <= cnt + length a
                          /\ k (prev_after prev a) b g = Some r).
    { intros c s' -> E.
      destruct (xorb negated (set_has ic items c)) eqn:Pc; [|discriminate].
      destruct (length s' <? length (c :: s')); [|discriminate].
      apply IH in E as (a & b & -> & Ha & Hlo & Hk).
      exists (c :: a), b. rewrite prev_after_cons. simpl.
      unfold P at 1, cls. rewrite Pc.
      split; [reflexivity|]. split; [exact Ha|].
      split; [lia | exact Hk]. }
    simpl in H. destruct greedy; simpl in H.
    + destruct s as [|c s']; simpl in H; [now apply Hstop|].
      match type of H with
      | orelse ?m _ = _ => destruct m eqn:E; simpl in H
      end.
      * inversion H; subst. now apply (Hmore c s').
      * now apply Hstop.
    + destruct (lo <=? cnt) eqn:L; simpl in H.
      * destruct (k prev s g) eqn:E; simpl in H.
        -- now apply Hstop.
        -- destruct s as [|c s']; [discriminate|]. now apply (Hmore c s').
      * destruct s as [|c s']; [discriminate|]. now apply (Hmore c s').
Qed.

(** A greedy repetition over a maximal run [a] takes the whole of it
    when the continuation succeeds behind it. *)
Lemma rep_loop_greedy_max (a b : str) :
  forall fuel cnt prev g r,
    length a <= fuel ->
    forallb P a = true ->
    match b with [] => True | c :: _ => P c = false end ->
    lo <= cnt + length a ->
    k (prev_after prev a) b g = Some r ->
    rep_loop body true lo None k fuel cnt prev (a ++ b) g = Some r.
Proof.
  induction a as [|c a IH]; intros fuel cnt prev g r Hf Ha Hb Hlo Hk.
  - simpl in *. assert (L : (lo <=? cnt) = true) by (apply Nat.leb_le; lia).
    destruct fuel; simpl; rewrite L; [exact Hk|].
    unfold body. destruct b as [|c b]; simpl; [exact Hk|].
    unfold P, cls in Hb. rewrite Hb. simpl. exact Hk.
  - destruct fuel as [|fuel]; [simpl in Hf; lia|].
    simpl in Ha. apply andb_true_iff in Ha as [Hc Ha].
    rewrite prev_after_cons in Hk.
    cbn [rep_loop app below body mt].
    unfold P, cls in Hc. rewrite Hc.
    assert (L : (length (a ++ b) <? length (c :: a ++ b)) = true)
      by (apply Nat.ltb_lt; simpl; lia).
    rewrite L. rewrite (IH fuel (S cnt) (Some c) g r); auto.
    + simpl in Hf. lia.
    + simpl in Hlo. lia.
Qed.

(** A lazy repetition stops at the first place, far enough, where the
    continuation succeeds. *)
Lemma rep_loop_lazy_first (a b : str) :
  forall fuel cnt prev g r,
    length a <= fuel ->
    forallb P a = true ->
    lo <= cnt + length a ->
    (forall a1 a2, a = a1 ++ a2 -> a2 <> [] ->
                   k (prev_after prev a1) (a2 ++ b) g = None) ->
    k (prev_after prev a) b g = Some r ->
    rep_loop body false lo None k fuel cnt prev (a ++ b) g = Some r.
Proof.
  induction a as [|c a IH]; intros fuel cnt prev g r Hf Ha Hlo Hn Hk.
  - simpl in *. assert (L : (lo <=? cnt) = true) by (apply Nat.leb_le; lia).
    unfold prev_after in Hk. simpl in Hk.
    destruct fuel; simpl; rewrite L, Hk; reflexivity.
  - destruct fuel as [|fuel]; [simpl in Hf; lia|].
    simpl in Ha. apply andb_true_iff in Ha as [Hc Ha].
    rewrite prev_after_cons in Hk.
    cbn [rep_loop app below body mt].
    assert (E : (if lo <=? cnt then k prev (c :: a ++ b) g else None) = None).
    { destruct (lo <=? cnt); [|reflexivity].
      apply (Hn [] (c :: a)); [reflexivity | discriminate]. }
    rewrite E. cbn [orelse].
    unfold P, cls in Hc. rewrite Hc.
    assert (L : (length (a ++ b) <? length (c :: a ++ b)) = true)
      by (apply Nat.ltb_lt; simpl; lia).
    rewrite L. apply IH; auto.
    + simpl in Hf. lia.
    + simpl in Hlo. lia.
    + intros a1 a2 -> Ha2. rewrite <- (prev_after_cons prev).
      apply (Hn (c :: a1) a2); [reflexivity | assumption].
Qed.

End RepeatedSet.

Section Repeated.

Context {A : Type}.
Variables (ic negated : bool) (items : list item) (lo : nat).
Variable k : @cont A.

Lemma mt_repeat_inv greedy prev s g r :
  mt ic (Repeat greedy lo None (Set_ negated items)) prev s g k = Some r ->
  exists a b, s = a ++ b /\ forallb (cls ic negated items) a = true
              /\ lo <= length a /\ k (prev_after prev a) b g = Some r.
Proof.
  intros H. cbn [mt] in H. apply rep_loop_inv in H.
  destruct H as (a & b & E & Ha & Hlo & Hk). now exists a, b.
Qed.

Lemma mt_repeat_greedy_max prev a b g r :
  forallb (cls ic negated items) a = true ->
  match b with [] => True | c :: _ => cls ic negated items c = false end ->
  lo <= length a ->
  k (prev_after prev a) b g = Some r ->
  mt ic (Repeat true lo None (Set_ negated items)) prev (a ++ b) g k = Some r.
Proof.
  intros. cbn [mt]. apply rep_loop_greedy_max; auto.
  rewrite length_app. lia.
Qed.

Lemma mt_repeat_lazy_first prev a b g r :
  forallb (cls ic negated items) a = true ->
  lo <= length a ->
  (forall a1 a2, a = a1 ++ a2 -> a2 <> [] ->
                 k (prev_after prev a1) (a2 ++ b) g = None) ->
  k (prev_after prev a) b g = Some r ->
  mt ic (Repeat false lo None (Set_ negated items)) prev (a ++ b) g k = Some r.
Proof.
  intros. cbn [mt]. apply rep_loop_lazy_first; auto.
  rewrite length_app. lia.
Qed.

(** No run of the set is one behind which the continuation succeeds. *)
Lemma mt_repeat_none greedy prev s g :
  (forall a b, s = a ++ b -> forallb (cls ic negated items) a = true ->
               lo <= length a -> k (prev_after prev a) b g = None) ->
  mt ic (Repeat greedy lo None (Set_ negated items)) prev s g k = None.
Proof.
  intros H.
  destruct (mt ic (Repeat greedy lo None (Set_ negated items)) prev s g k)
    as [r|] eqn:E; [|reflexivity].
  apply mt_repeat_inv in E as (a & b & -> & Ha & Hlo & Hk).
  rewrite (H a b) in Hk by auto. discriminate.
Qed.

End Repeated.

End ReFacts.

(** ** The matcher on the other constructs *)

Module MtFacts.

Lemma mt_cat {A} ic r1 r2 prev s g (k : @cont A) :
  mt ic (Cat r1 r2) prev s g k
  = mt ic r1 prev s g (fun prev' s' g' => mt ic r2 prev' s' g' k).
Proof. reflexivity. Qed.

Lemma mt_lit_inv {A} ic p prev s g (k : @cont A) r :
  mt ic (Lit p) prev s g k = Some r ->
  exists c s', s = c :: s' /\ lit_eq ic p c = true /\ k (Some c) s' g = Some r.
Proof.
  destruct s as [|c s']; simpl; [discriminate|].
  destruct (lit_eq ic p c) eqn:E; [|discriminate].
  intros H. now exists c, s'.
Qed.

Lemma mt_bol_inv {A} ic prev s g (k : @cont A) r :
  mt ic Bol prev s g k = Some r -> prev = None /\ k None s g = Some r.
Proof. destruct prev; simpl; [discriminate|]. auto. Qed.

Lemma mt_eol_inv {A} ic prev s g (k : @cont A) r :
  mt ic Eol prev s g k = Some r ->
  (s = [] \/ exists c, s = [c] /\ code c = 10) /\ k prev s g = Some r.
Proof.
  destruct s as [|c [|]]; simpl; try discriminate.
  - auto.
  - destruct (code c =? 10) eqn:E; [|discriminate].
    apply Nat.eqb_eq in E. intros H. split; [right; now exists c | exact H].
Qed.

Lemma lit_eq_exact p c : lit_eq false p c = true -> c = p.
Proof. unfold lit_eq, eqc. intros H. symmetry. now apply Ascii.eqb_eq. Qed.

End MtFacts.

(** ** The address validator *)

Module ValidateFacts.

Import PyFacts ReFacts MtFacts.

(** An address that the pattern accepts holds exactly one @. *)
Lemma email_pattern_one_at (s : str) (g : groups) :
  re_match false email_pattern s = Some g -> count "@" s = 1.
Proof.
  unfold re_match, match_at.
  destruct (mt false email_pattern None s [] _) as [[rest g']|] eqn:H;
    [intros _ | discriminate].
  unfold email_pattern, cat in H.
  rewrite mt_cat in H. apply mt_bol_inv in H as [_ H].
  rewrite mt_cat in H. apply mt_repeat_inv in H as (a & b & -> & Ha & _ & H).
  cbv beta in H. rewrite mt_cat in H.
  apply mt_lit_inv in H as (c & b1 & -> & Hc & H). apply lit_eq_exact in Hc.
  subst c. rewrite mt_cat in H.
  apply mt_repeat_inv in H as (d & b2 & -> & Hd & _ & H).
  cbv beta in H. rewrite mt_cat in H.
  apply mt_lit_inv in H as (c & b3 & -> & Hc & H). apply lit_eq_exact in Hc.
  subst c. rewrite mt_cat in H.
  apply mt_repeat_inv in H as (t & b4 & -> & Ht & _ & H).
  cbv beta in H. apply mt_eol_inv in H as [Hend _].
  rewrite count_app, (count_none _ _ _ Ha) by reflexivity.
  change ("@"%char :: d ++ "."%char :: t ++ b4)
    with (["@"%char] ++ d ++ ["."%char] ++ t ++ b4).
  rewrite !count_app.
  rewrite (count_none _ _ _ Hd), (count_none _ _ _ Ht) by reflexivity.
  destruct Hend as [-> | (c & -> & Hc)]; [reflexivity|].
  assert (E : count "@" [c] = 0).
  { unfold count, eqc. cbn [filter].
    destruct (Ascii.eqb_spec "@" c) as [<-|_];
      [discriminate Hc | reflexivity]. }
  rewrite E. reflexivity.
Qed.

(** The two ways in which [validate_email] turns an address down before
    it looks at the number of @. *)
Definition empty_reason : str := lit "Email address is empty".
Definition format_reason (email : str) : str :=
  lit "Invalid email format: " ++ strip email.

Lemma validate_email_not_one_at (email : str) :
  count "@" email <> 1 ->
  validate_email email = (false, empty_reason)
  \/ validate_email email = (false, format_reason email).
Proof.
  intros Hn. unfold validate_email.
  destruct (is_empty email || is_empty (strip email)); [now left|].
  destruct (re_match false email_pattern (strip email)) as [g|] eqn:E;
    [|now right].
  apply email_pattern_one_at in E.
  rewrite count_strip in E by reflexivity. contradiction.
Qed.

Lemma blank_count (c : ascii) (email : str) :
  isspace c = false ->
  is_empty email || is_empty (strip email) = true -> count c email = 0.
Proof.
  intros Hc H. rewrite <- (count_strip c email Hc).
  destruct email; [reflexivity|]. simpl in H.
  destruct (strip (a :: email)); [reflexivity | discriminate].
Qed.

(** C7, as the code has it: an address that does not hold exactly one @
    is invalid; its reason is that of an empty address when the address
    is blank, and otherwise, also when it holds no @ at all, that of a
    bad format followed by the trimmed address; so the reason holds an @
    exactly when the address holds two or more. *)
Theorem validate_email_at_count (email : str) :
  count "@" email <> 1 ->
  fst (validate_email email) = false
  /\ snd (validate_email email)
     = (if is_empty (strip email) then empty_reason
        else format_reason email)
  /\ contains (lit "@") (snd (validate_email email))
     = (2 <=? count "@" email).
Proof.
  intros Hn. unfold validate_email.
  destruct (is_empty email || is_empty (strip email)) eqn:B.
  - cbn [fst snd]. split; [reflexivity|]. split.
    + destruct email as [|c email]; [reflexivity|].
      cbn [is_empty orb] in B. now rewrite B.
    + rewrite (blank_count "@" email eq_refl B). reflexivity.
  - apply orb_false_iff in B as [_ B]. rewrite B.
    destruct (re_match false email_pattern (strip email)) as [g|] eqn:E.
    + apply email_pattern_one_at in E.
      rewrite count_strip in E by reflexivity. contradiction.
    + cbn [fst snd]. split; [reflexivity|]. split; [reflexivity|].
      change (lit "@") with ["@"%char].
      rewrite contains_app_r by reflexivity.
      rewrite contains_char, count_strip by reflexivity.
      destruct (count "@" email) as [|[|n]]; [reflexivity | congruence | reflexivity].
Qed.

Lemma validate_email_at_count_witness :
  fst (validate_email (lit "a@@b.com")) = false
  /\ snd (validate_email (lit "a@@b.com"))
     = (if is_empty (strip (lit "a@@b.com")) then empty_reason
        else format_reason (lit "a@@b.com"))
  /\ contains (lit "@") (snd (validate_email (lit "a@@b.com")))
     = (2 <=? count "@" (lit "a@@b.com")).
Proof.
  apply (validate_email_at_count (lit "a@@b.com")). vm_compute. discriminate.
Defined.

(** C7, as the specification states it, fails on an address without @:
    the reason given for "abc" is the bad format, and it holds no @. *)
Lemma validate_email_no_at_reason :
  ~ (forall email : str,
        email <> [] -> count "@" email <> 1 ->
        fst (validate_email email) = false
        /\ contains (lit "@") (snd (validate_email email)) = true).
Proof.
  intros H. destruct (H (lit "abc")) as [_ C].
  - discriminate.
  - vm_compute. discriminate.
  - vm_compute in C. discriminate.
Qed.

(** C10: spaces around an address that [validate_email] accepts do not
    change the verdict. *)
Theorem validate_email_padded (ws1 v ws2 : str) :
  forallb isspace ws1 = true -> forallb isspace ws2 = true ->
  validate_email v = (true, []) ->
  validate_email (ws1 ++ v ++ ws2) = (true, []).
Proof.
  intros H1 H2 Hv. unfold validate_email in *.
  rewrite (strip_padded ws1 v ws2 H1 H2).
  destruct (is_empty v || is_empty (strip v)) eqn:B; [discriminate|].
  apply orb_false_iff in B as [_ B]. rewrite B, orb_false_r.
  destruct (ws1 ++ v ++ ws2) as [|c u] eqn:E; [|exact Hv].
  apply app_eq_nil in E as [_ E]. apply app_eq_nil in E as [-> _].
  discriminate.
Qed.

Lemma validate_email_padded_witness :
  validate_email (lit "  " ++ lit "a@b.com" ++ lit "  ") = (true, []).
Proof.
  apply (validate_email_padded (lit "  ") (lit "a@b.com") (lit "  "));
    reflexivity.
Defined.

End ValidateFacts.

(** ** Validation of a batch *)

Module BatchFacts.

Import PyFacts.

Lemma validate_rows_filter (rows : DataFrame) :
  validate_rows (lit "Email") rows
  = (map fst (filter kept rows),
     map reported (filter (fun x => negb (kept x)) rows)).
Proof.
  induction rows as [|[idx row] rows IH]; [reflexivity|].
  cbn [validate_rows]. rewrite IH.
  change (column (lit "Email") row) with (Some (Email row)).
  cbn [filter].
  assert (K : kept (idx, row)
              = (fst (validate_email (strip (Email row)))
                 || eqs (strip (Email row)) [])) by reflexivity.
  assert (Rp : reported (idx, row)
               = mkInvalid (idx + 2) (strip (Email row))
                   (snd (validate_email (strip (Email row)))))
    by reflexivity.
  destruct (validate_email (strip (Email row))) as [is_valid error].
  cbn [fst snd] in K, Rp. rewrite K.
  destruct (is_valid || eqs (strip (Email row)) []); cbn [negb map fst];
    [reflexivity|].
  rewrite Rp. reflexivity.
Qed.

Lemma range_indexed_nth (df : DataFrame) (i : nat) (row : Row) :
  range_indexed df -> In (i, row) df -> nth_error df i = Some (i, row).
Proof.
  intros R H. apply In_nth_error in H as [j Hj].
  assert (E : nth_error (map fst df) j = Some i)
    by (rewrite nth_error_map, Hj; reflexivity).
  rewrite R in E.
  assert (Hlt : j < length (seq 0 (length df)))
    by (apply nth_error_Some; congruence).
  rewrite length_seq in Hlt.
  rewrite (nth_error_nth' _ 0) in E by (rewrite length_seq; exact Hlt).
  rewrite seq_nth in E by exact Hlt. simpl in E.
  inversion E; subst. exact Hj.
Qed.

Lemma iloc_labels (df sub : DataFrame) :
  range_indexed df -> incl sub df -> iloc df (map fst sub) = Some sub.
Proof.
  intros R. induction sub as [|[i row] sub IH]; intros Hin; [reflexivity|].
  cbn [map fst iloc].
  rewrite (range_indexed_nth df i row R) by (apply Hin; now left).
  rewrite IH; [reflexivity|].
  intros x Hx. apply Hin. now right.
Qed.

(** On a frame with the index of [read_excel], the valid frame is the
    rows that the loop keeps and the report is the rows that it does not
    keep, both in their order. *)
Lemma validate_emails_in_dataframe_filter (df : DataFrame) :
  range_indexed df ->
  validate_emails_in_dataframe df (lit "Email")
  = Some (filter kept df,
          map reported (filter (fun x => negb (kept x)) df)).
Proof.
  intros R. unfold validate_emails_in_dataframe.
  change (negb (existsb (eqs (lit "Email")) columns)) with false.
  cbn iota. rewrite validate_rows_filter.
  destruct (map fst (filter kept df)) as [|i l] eqn:E.
  - apply map_eq_nil in E. rewrite E. reflexivity.
  - rewrite <- E, iloc_labels; [reflexivity | exact R |].
    intros x Hx. apply filter_In in Hx. tauto.
Qed.

(** C8: [validate_email] turns the empty and the blank address down with
    the reason of an empty address; yet a row of the batch whose address
    is empty once trimmed stays in the valid frame, and the report has
    no entry for its row number. *)
Theorem empty_address_kept :
  validate_email [] = (false, lit "Email address is empty")
  /\ validate_email (lit "   ") = (false, lit "Email address is empty")
  /\ forall (df : DataFrame) (i : nat) (row : Row),
       range_indexed df -> In (i, row) df -> strip (Email row) = [] ->
       exists valid_df invalid_emails,
         validate_emails_in_dataframe df (lit "Email")
         = Some (valid_df, invalid_emails)
         /\ In (i, row) valid_df
         /\ forall x, In x invalid_emails -> inv_row x <> i + 2.
Proof.
  split; [reflexivity|]. split; [reflexivity|].
  intros df i row R Hin Hempty.
  assert (K : kept (i, row) = true).
  { unfold kept, address. cbn [snd]. rewrite Hempty. apply orb_true_r. }
  eexists _, _. split; [now apply validate_emails_in_dataframe_filter|].
  split.
  - apply filter_In. now split.
  - intros x Hx. apply in_map_iff in Hx as ([j row'] & <- & Hx).
    apply filter_In in Hx as [Hx Hk]. cbn [reported inv_row fst].
    intros E. assert (j = i) by lia. subst j.
    pose proof (range_indexed_nth df i row R Hin) as E1.
    pose proof (range_indexed_nth df i row' R Hx) as E2.
    rewrite E1 in E2. inversion E2; subst row'.
    rewrite K in Hk. discriminate.
Qed.

Lemma empty_address_kept_witness :
  exists valid_df invalid_emails,
    validate_emails_in_dataframe sample_frame (lit "Email")
    = Some (valid_df, invalid_emails)
    /\ In (1, mkRow (lit "Reyes, Ana") (lit "  ") [] (lit "b.pdf")) valid_df
    /\ forall x, In x invalid_emails -> inv_row x <> 1 + 2.
Proof.
  apply (proj2 (proj2 empty_address_kept) sample_frame 1).
  - reflexivity.
  - right. left. reflexivity.
  - reflexivity.
Defined.

End BatchFacts.

(** ** Reading a list of events *)

Module TraceFacts.

Import Worker Trace.

Lemma statuses_app (a b : list Event) :
  statuses (a ++ b) = statuses a ++ statuses b.
Proof.
  induction a as [|[] a IH]; simpl; rewrite ?IH; reflexivity.
Qed.

Lemma progresses_app (a b : list Event) :
  progresses (a ++ b) = progresses a ++ progresses b.
Proof.
  induction a as [|[] a IH]; simpl; rewrite ?IH; reflexivity.
Qed.

Lemma sleeps_app (a b : list Event) : sleeps (a ++ b) = sleeps a ++ sleeps b.
Proof.
  induction a as [|[] a IH]; simpl; rewrite ?IH; reflexivity.
Qed.

Lemma finished_count_app (a b : list Event) :
  finished_count (a ++ b) = finished_count a + finished_count b.
Proof.
  induction a as [|[] a IH]; simpl; rewrite ?IH; reflexivity.
Qed.

Lemma touched_app (a b : list Event) : touched (a ++ b) = touched a ++ touched b.
Proof. unfold touched. now rewrite statuses_app, map_app. Qed.

Lemma sent_of_app (a b : list Event) : sent_of (a ++ b) = sent_of a ++ sent_of b.
Proof. unfold sent_of. now rewrite statuses_app, filter_app, map_app. Qed.

Lemma sent_touched (evs : list Event) (i : nat) :
  In i (sent_of evs) -> In i (touched evs).
Proof.
  unfold sent_of, touched. intros H.
  apply in_map_iff in H as (x & <- & H). apply filter_In in H as [H _].
  now apply in_map.
Qed.

Lemma status_of_app (a b : list Event) (i : nat) (now : Status) :
  status_of (a ++ b) i now = status_of b i (status_of a i now).
Proof.
  revert now. induction a as [|[] a IH]; intros now; simpl; auto.
Qed.

Lemma status_of_untouched (b : list Event) (i : nat) (now : Status) :
  ~ In i (touched b) -> status_of b i now = now.
Proof.
  revert now. induction b as [|[] b IH]; intros now H; simpl; auto.
  unfold touched in H. simpl in H.
  destruct (Nat.eqb_spec index i) as [->|Hne].
  - exfalso. apply H. now left.
  - apply IH. intros Hin. apply H. now right.
Qed.

(** A row that stands as sent was reported as sent, and not named since. *)
Lemma status_of_sent (a : list Event) (i : nat) :
  forall now, status_of a i now = Sent ->
  (now = Sent /\ ~ In i (touched a))
  \/ exists a1 a2, a = a1 ++ status_updated i Sent :: a2
                   /\ ~ In i (touched a2).
Proof.
  induction a as [|e a IH]; intros now H.
  - left. split; [exact H | intros []].
  - assert (Hskip : statuses [e] = [] -> status_of a i now = Sent ->
              (now = Sent /\ ~ In i (touched (e :: a)))
              \/ exists a1 a2, e :: a = a1 ++ status_updated i Sent :: a2
                               /\ ~ In i (touched a2)).
    { intros He Ha. destruct (IH now Ha) as [[Hn Ht] | (a1 & a2 & -> & Ht)].
      - left. split; [exact Hn|].
        change (e :: a) with ([e] ++ a). rewrite touched_app.
        unfold touched at 1. now rewrite He.
      - right. now exists (e :: a1), a2. }
    destruct e; try (now apply Hskip).
    simpl in H. destruct (Nat.eqb_spec index i) as [->|Hne].
    + destruct (IH status H) as [[-> Ht] | (a1 & a2 & -> & Ht)].
      * right. now exists [], a.
      * right. now exists (status_updated i status :: a1), a2.
    + destruct (IH now H) as [[Hn Ht] | (a1 & a2 & -> & Ht)].
      * left. split; [exact Hn|]. unfold touched. simpl.
        intros [E | Hin]; [congruence | now apply Ht].
      * right. now exists (status_updated index status :: a1), a2.
Qed.

(** A row that an event names stands as the latest such event left it. *)
Lemma status_of_touched (evs : list Event) (i : nat) :
  Forall PassSpec.attempted (statuses evs) ->
  forall now,
    In i (touched evs) \/ now = Sent \/ now = Failed ->
    status_of evs i now = Sent \/ status_of evs i now = Failed.
Proof.
  induction evs as [|e evs IH]; intros Hall now H.
  - destruct H as [[] | H]. exact H.
  - destruct e; try (apply IH; [exact Hall | exact H]).
    cbn [statuses] in Hall. inversion Hall as [|? ? Hst Hall']; subst.
    cbn [status_of]. apply IH; [exact Hall'|].
    destruct (Nat.eqb_spec index i) as [->|Hne].
    + right. exact Hst.
    + destruct H as [[E | H] | H]; [cbn in E; congruence | now left | now right].
Qed.

End TraceFacts.

(** ** The placeholder *)

Module ExpandFacts.

Import PyFacts.

Lemma replace_go_skip (old new t r : str) :
  replace_go old new (length t) (t ++ r) = replace_go old new 0 r.
Proof.
  induction t as [|c t IH]; simpl; [|exact IH].
  destruct r; reflexivity.
Qed.

Lemma replace_absent (old new s : str) :
  contains old s = false -> replace_go old new 0 s = s.
Proof.
  induction s as [|c s IH]; [reflexivity|].
  cbn [contains replace_go]. intros H.
  apply orb_false_iff in H as [H1 H2]. rewrite H1, IH; auto.
Qed.

Lemma startswith_app (p x r : str) :
  length p <= length x -> startswith p (x ++ r) = startswith p x.
Proof.
  revert x. induction p as [|c p IH]; intros x H; [now destruct x|].
  destruct x as [|y x]; [simpl in H; lia|].
  simpl. rewrite IH; [reflexivity | simpl in H; lia].
Qed.

Lemma startswith_self (p r : str) : startswith p (p ++ r) = true.
Proof.
  induction p as [|c p IH]; [reflexivity|].
  simpl. unfold eqc. now rewrite Ascii.eqb_refl.
Qed.

Lemma occurs_before_cons (tok : str) (x : ascii) (p : str) :
  occurs_before tok (x :: p)
  = startswith tok ((x :: p) ++ tok) || occurs_before tok p.
Proof.
  unfold occurs_before. cbn [length seq existsb skipn]. f_equal.
  rewrite existsb_seq_shift. reflexivity.
Qed.

(** The scan copies a piece in whose course no occurrence begins. *)
Lemma replace_piece (old new p r : str) :
  occurs_before old p = false ->
  replace_go old new 0 (p ++ old ++ r) = p ++ replace_go old new 0 (old ++ r).
Proof.
  induction p as [|x p IH]; [reflexivity|].
  rewrite occurs_before_cons. intros H.
  apply orb_false_iff in H as [H1 H2].
  change ((x :: p) ++ old ++ r) with (x :: (p ++ old ++ r)).
  cbn [replace_go].
  assert (E : startswith old (x :: p ++ old ++ r) = false).
  { rewrite <- H1. change (x :: p ++ old ++ r) with ((x :: p) ++ old ++ r).
    rewrite app_assoc. apply startswith_app. rewrite length_app. lia. }
  rewrite E, IH by assumption. reflexivity.
Qed.

(** The scan replaces an occurrence at its head. *)
Lemma replace_head (old new r : str) :
  old <> [] ->
  replace_go old new 0 (old ++ r) = new ++ replace_go old new 0 r.
Proof.
  destruct old as [|c t]; [congruence|]. intros _.
  change ((c :: t) ++ r) with (c :: (t ++ r)). cbn [replace_go].
  change (c :: t ++ r) with ((c :: t) ++ r). rewrite startswith_self.
  replace (length (c :: t) - 1) with (length t) by (simpl; lia).
  now rewrite replace_go_skip.
Qed.

(** Every occurrence at which the template is cut is replaced. *)
Lemma replace_template (old new : str) (init : list str) (last : str) :
  old <> [] -> cut_at old init last ->
  replace old new (template_of old init last)
  = template_of new init last.
Proof.
  intros Hold [Hinit Hlast]. unfold replace, template_of.
  induction init as [|p init IH]; simpl.
  - now apply replace_absent.
  - simpl in Hinit. apply andb_true_iff in Hinit as [Hp Hinit].
    apply negb_true_iff in Hp.
    rewrite <- !app_assoc. rewrite replace_piece by assumption.
    rewrite replace_head by assumption. now rewrite IH.
Qed.

Lemma lstrip_idem (s : str) : lstrip (lstrip s) = lstrip s.
Proof.
  induction s as [|c s IH]; [reflexivity|]. simpl.
  destruct (isspace c) eqn:E; [exact IH|]. simpl. now rewrite E.
Qed.

Lemma lstrip_head (s : str) :
  match lstrip s with [] => True | c :: _ => isspace c = false end.
Proof.
  induction s as [|c s IH]; simpl; [exact I|].
  destruct (isspace c) eqn:E; [exact IH | exact E].
Qed.

Lemma lstrip_fixed (s : str) :
  match s with [] => True | c :: _ => isspace c = false end -> lstrip s = s.
Proof. destruct s as [|c s]; simpl; [reflexivity|]. now intros ->. Qed.

Lemma strip_idem (s : str) : strip (strip s) = strip s.
Proof.
  unfold strip.
  assert (E : lstrip (rstrip (lstrip s)) = rstrip (lstrip s)).
  { apply lstrip_fixed. pose proof (lstrip_head s) as Hh.
    destruct (rstrip_split (lstrip s)) as [ws [E _]].
    destruct (rstrip (lstrip s)) as [|c u]; [exact I|].
    rewrite E in Hh. exact Hh. }
  rewrite E. unfold rstrip. rewrite rev_involutive, lstrip_idem. reflexivity.
Qed.

Lemma split_hd_skip (c : ascii) (w v : str) :
  count c w = 0 -> hd [] (split c (w ++ v)) = w ++ hd [] (split c v).
Proof.
  induction w as [|x w IH]; [reflexivity|].
  unfold count. cbn [filter]. unfold eqc at 1.
  destruct (Ascii.eqb_spec c x) as [->|Hne]; [discriminate|].
  intros H. cbn [app split]. unfold eqc.
  destruct (Ascii.eqb_spec x c) as [->|_]; [congruence|].
  specialize (IH H).
  destruct (split c (w ++ v)) as [|h t] eqn:E.
  - pose proof (split_length c (w ++ v)) as L. rewrite E in L. discriminate.
  - simpl in *. now rewrite IH.
Qed.

Lemma split_hd_within (c : ascii) (u v : str) :
  0 < count c u -> hd [] (split c (u ++ v)) = hd [] (split c u).
Proof.
  induction u as [|x u IH]; [unfold count; simpl; lia|].
  unfold count. cbn [filter app split]. unfold eqc.
  rewrite (Ascii.eqb_sym x c).
  destruct (Ascii.eqb c x); [reflexivity|].
  intros H. specialize (IH H).
  destruct (split c (u ++ v)) as [|h t] eqn:E.
  - pose proof (split_length c (u ++ v)) as L. rewrite E in L. discriminate.
  - destruct (split c u) as [|h' t'] eqn:E'.
    + pose proof (split_length c u) as L. rewrite E' in L. discriminate.
    + simpl in *. now rewrite IH.
Qed.

(** [get_surname] on the trimmed name is the surname of the
    specification. *)
Lemma get_surname_derived (full_name : str) :
  get_surname (strip full_name) = derived_surname full_name.
Proof.
  unfold get_surname, derived_surname. rewrite strip_idem.
  change (lit ",") with [","%char].
  rewrite !contains_char, count_strip by reflexivity.
  destruct (0 <? count "," full_name) eqn:C; [|reflexivity].
  apply Nat.ltb_lt in C.
  destruct (lstrip_split full_name) as [w1 [E1 H1]].
  destruct (rstrip_split (lstrip full_name)) as [w2 [E2 H2]].
  fold (strip full_name) in E2.
  assert (Cs : 0 < count "," (strip full_name))
    by (rewrite count_strip by reflexivity; exact C).
  rewrite E1 at 2. rewrite E2.
  rewrite split_hd_skip by (apply (count_none _ _ _ H1); reflexivity).
  rewrite split_hd_within by exact Cs.
  rewrite <- (app_nil_r (hd [] (split "," (strip full_name)))) at 2.
  now rewrite strip_padded.
Qed.

(** C6, as the code has it: in the subject every occurrence of the
    placeholder is replaced by the full name trimmed of the spaces around
    it, in the body by the derived surname; the surnames of the two names
    of the specification are as it gives them. *)
Theorem expand_fullname (self : Worker.EmailWorker) (row : Row) :
  (forall init last,
      Worker.subject self = template_of token init last ->
      cut_at token init last ->
      Worker.expand_subject self row
      = template_of (strip (Full_Name row)) init last)
  /\ (forall init last,
        Worker.body_template self = template_of token init last ->
        cut_at token init last ->
        Worker.expand_body self row
        = template_of (derived_surname (Full_Name row)) init last)
  /\ get_surname (lit "Dela Cruz, Juan") = lit "Dela Cruz"
  /\ get_surname (lit "Juan Dela Cruz") = lit "Juan Dela Cruz".
Proof.
  split; [|split; [|split; reflexivity]].
  - intros init last E C. unfold Worker.expand_subject. rewrite E.
    apply replace_template; [discriminate | exact C].
  - intros init last E C. unfold Worker.expand_body. rewrite E.
    rewrite get_surname_derived.
    apply replace_template; [discriminate | exact C].
Qed.

Lemma expand_fullname_witness :
  Worker.expand_subject sample_job sample_row = lit "Notice for Dela Cruz, Juan"
  /\ Worker.expand_body sample_job sample_row = lit "<p>Dear Dela Cruz,</p>".
Proof.
  destruct (expand_fullname sample_job sample_row) as (Hs & Hb & _).
  split.
  - apply (Hs [lit "Notice for "] []); [reflexivity|].
    split; reflexivity.
  - apply (Hb [lit "<p>Dear "] (lit ",</p>")); [reflexivity|].
    split; reflexivity.
Defined.

(** C6, as the specification states it, fails on a name with spaces
    around it: the subject receives the trimmed name, not the name as it
    stands. *)
Lemma expand_subject_not_verbatim :
  ~ (forall (self : Worker.EmailWorker) (row : Row),
        Worker.expand_subject self row
        = replace token (Full_Name row) (Worker.subject self)).
Proof.
  intros H. specialize (H sample_job sample_row).
  vm_compute in H. discriminate.
Qed.

End ExpandFacts.

(** ** Sending one mail *)

Module SendFacts.

Import Worker Trace SendSpec.

Lemma raised_app (a b : list (Call * bool)) :
  raised (a ++ b) = raised a ++ raised b.
Proof. unfold raised. now rewrite filter_app, map_app. Qed.

Ltac grow :=
  unfold grows; cbn [reads events calls world];
  rewrite <- ?app_assoc, ?app_nil_r; repeat split; reflexivity.

Section Send.

Variable World : Type.
Variable respond : World -> Call -> Result * World.
Variable path_exists : World -> str -> bool.
Variable self : EmailWorker.

Let St := St World.
Let M := M World.
Let call := call respond.

Lemma grows_refl (s : St) : grows s s [] [].
Proof. unfold grows. now rewrite !app_nil_r. Qed.

Lemma grows_trans (s1 s2 s3 : St) e1 e2 c1 c2 :
  grows s1 s2 e1 c1 -> grows s2 s3 e2 c2 ->
  grows s1 s3 (e1 ++ e2) (c1 ++ c2).
Proof.
  intros (R1 & E1 & C1) (R2 & E2 & C2). unfold grows.
  rewrite R2, R1, E2, E1, C2, C1, !app_assoc. auto.
Qed.

Lemma calm_ret {A} (a : A) : calm (ret a : M A).
Proof.
  intros s. exists (Ret a), s, [], []. split; [reflexivity|].
  split; [apply grows_refl|]. split; constructor.
Qed.

Lemma calm_bind {A B} (m : M A) (k : A -> M B) :
  calm m -> (forall a, calm (k a)) -> calm (bind m k).
Proof.
  intros Hm Hk s. destruct (Hm s) as (o & s1 & n1 & c1 & E1 & G1 & N1 & R1).
  unfold Worker.bind. rewrite E1. destruct o as [a|e].
  - destruct (Hk a s1) as (o & s2 & n2 & c2 & E2 & G2 & N2 & R2).
    exists o, s2, (n1 ++ n2), (c1 ++ c2). split; [exact E2|].
    split; [now apply (grows_trans s s1 s2)|].
    split; [now apply Forall_app|].
    rewrite raised_app. destruct o.
    + now apply Forall_app.
    + destruct R2 as (c & Hc & Hne). exists c. split; [|exact Hne].
      apply in_or_app. now right.
  - exists (Raise e), s1, n1, c1. auto.
Qed.

Lemma calm_call (c : Call) : c <> SetBodyFormat -> calm (call c).
Proof.
  intros Hne s. unfold call, Worker.call.
  destruct (respond (world s) c) as [[v|e] w].
  - eexists (Ret v), _, [], [(c, false)]. split; [reflexivity|].
    split; [unfold grows; cbn; now rewrite app_nil_r|].
    split; constructor.
  - eexists (Raise e), _, [], [(c, true)]. split; [reflexivity|].
    split; [unfold grows; cbn; now rewrite app_nil_r|].
    split; [constructor|]. exists c. split; [now left | exact Hne].
Qed.

Lemma calm_nap : calm (emit (sleep 1) : M unit).
Proof.
  intros s. eexists (Ret tt), _, [sleep 1], []. split; [reflexivity|].
  split; [unfold grows; cbn; now rewrite app_nil_r|].
  split; [repeat constructor | constructor].
Qed.

(** [try: mail.BodyFormat = 2 except Exception: pass] always returns. *)
Lemma calm_body_format :
  calm (try_except (bind (call SetBodyFormat) (fun _ => ret tt))
                   (fun _ => ret tt)).
Proof.
  intros s. unfold call, Worker.try_except, Worker.bind, Worker.call.
  destruct (respond (world s) SetBodyFormat) as [[v|e] w].
  - eexists (Ret tt), _, [], [(SetBodyFormat, false)].
    split; [reflexivity|].
    split; [unfold grows; cbn; now rewrite app_nil_r|].
    split; constructor.
  - eexists (Ret tt), _, [], [(SetBodyFormat, true)].
    split; [reflexivity|].
    split; [unfold grows; cbn; now rewrite app_nil_r|].
    split; repeat constructor.
Qed.

Lemma calm_wait_sent (rounds : nat) (start_sent_count : Z) :
  calm (wait_sent respond rounds start_sent_count).
Proof.
  induction rounds as [|rounds IH]; cbn [wait_sent]; [apply calm_ret|].
  apply calm_bind; [apply calm_call; discriminate|]. intros outbox_count.
  destruct (outbox_count =? 0)%Z; [apply calm_ret|].
  apply calm_bind; [apply calm_call; discriminate|]. intros sent_count.
  destruct (sent_count >? start_sent_count)%Z; [apply calm_ret|].
  apply calm_bind; [apply calm_nap | intros _; exact IH].
Qed.

Lemma sends_report (index : nat) (message : str) :
  sends index message
    (bind (emit (status_updated index Sent))
          (fun _ => bind (emit (log_updated message))
                         (fun _ => ret true)) : M bool).
Proof.
  intros s. eexists (Ret true), _, [], []. split; [reflexivity|].
  split; [constructor|]. split; [reflexivity|].
  split; [|constructor].
  unfold grows; cbn. rewrite <- app_assoc, app_nil_r. auto.
Qed.

Lemma sends_bind {A} index message (m : M A) (k : A -> M bool) :
  calm m -> (forall a, sends index message (k a)) ->
  sends index message (bind m k).
Proof.
  intros Hm Hk s. destruct (Hm s) as (o & s1 & n1 & c1 & E1 & G1 & N1 & R1).
  unfold Worker.bind. rewrite E1. destruct o as [a|e].
  - destruct (Hk a s1) as (o & s2 & n2 & c2 & E2 & N2 & R2).
    exists o, s2, (n1 ++ n2), (c1 ++ c2). split; [exact E2|].
    split; [now apply Forall_app|].
    rewrite raised_app. destruct o as [b|e].
    + destruct R2 as (Hb & G2 & F2). split; [exact Hb|].
      split; [|now apply Forall_app].
      rewrite <- app_assoc. now apply (grows_trans s s1 s2).
    + destruct R2 as (G2 & c & Hc & Hne).
      split; [now apply (grows_trans s s1 s2)|].
      exists c. split; [|exact Hne]. apply in_or_app. now right.
  - exists (Raise e), s1, n1, c1. auto.
Qed.

Let send := _send_single_email respond path_exists self.

(** The shape of one attempt: a result, some naps, the status of the
    row and a log line; the calls that raised decide the result. *)
Lemma send_single_email_shape (row : Row) (index : nat) (s : St) :
  exists b s' naps message cs,
    send row index s = (Ret b, s')
    /\ grows s s' (naps ++ [status_updated index (if b then Sent else Failed);
                            log_updated message]) cs
    /\ Forall nap naps
    /\ (b = true -> Forall (eq SetBodyFormat) (raised cs))
    /\ ((exists c, In c (raised cs) /\ c <> SetBodyFormat) ->
        b = false /\ exists e, message = error_message row e).
Proof.
  unfold send, _send_single_email. cbv zeta. unfold Worker.try_except.
  destruct (is_empty (strip (Email row))) eqn:He.
  { eexists false, _, [], _, []. split; [reflexivity|].
    split; [grow|].
    split; [constructor|]. split; [discriminate|].
    intros (c & [] & _). }
  unfold Worker.bind at 1. unfold os_path_exists at 1.
  destruct (path_exists (world s) (strip (Attachment_Path row))) eqn:Hp;
    cbn [negb].
  2:{ eexists false, _, [], _, []. split; [reflexivity|].
      split; [grow|].
      split; [constructor|]. split; [discriminate|].
      intros (c & [] & _). }
  match goal with
  | |- context [match ?m s with _ => _ end] =>
      assert (H : sends index (log "✅ Sent to " ++ strip (Email row)) m)
  end.
  { apply sends_bind; [apply calm_call; discriminate | intros start].
    apply sends_bind; [apply calm_call; discriminate | intros _].
    apply sends_bind; [apply calm_call; discriminate | intros _].
    apply sends_bind.
    { destruct (is_empty (strip (CC row))); cbn [negb]; [apply calm_ret|].
      apply calm_bind; [apply calm_call; discriminate | intros _].
      apply calm_ret. }
    intros _.
    apply sends_bind; [apply calm_call; discriminate | intros _].
    apply sends_bind; [apply calm_body_format | intros _].
    apply sends_bind; [apply calm_call; discriminate | intros _].
    apply sends_bind; [apply calm_call; discriminate | intros _].
    apply sends_bind; [apply calm_call; discriminate | intros _].
    apply sends_bind; [apply calm_call; discriminate | intros _].
    apply sends_bind; [apply calm_call; discriminate | intros _].
    apply sends_bind; [apply calm_wait_sent | intros _].
    apply sends_report. }
  destruct (H s) as (o & s1 & naps & cs & E & N & R). rewrite E.
  destruct o as [b|e].
  - destruct R as (-> & G & F).
    eexists true, s1, naps, _, cs. split; [reflexivity|].
    split; [exact G|]. split; [exact N|]. split; [auto|].
    intros (c & Hc & Hne). exfalso. apply Hne.
    rewrite Forall_forall in F. symmetry. now apply F.
  - destruct R as (G & c & Hc & Hne).
    eexists false, _, naps, _, cs. split; [reflexivity|].
    split.
    { destruct G as (G1 & G2 & G3). unfold grows.
      cbn [reads events calls world].
      split; [exact G1|]. split; [|exact G3].
      rewrite G2, <- !app_assoc. reflexivity. }
    split; [exact N|]. split; [discriminate|].
    intros _. split; [reflexivity|]. exists e. reflexivity.
Qed.

(** C1, as the code has it: [_send_single_email] always returns; it
    reads no flag, and what it adds to the events is some naps of one
    second, then the status of the row, [Sent] or [Failed] as it returns
    [True] or [False], then a log line.  When it returns [True] no call
    has raised but perhaps the setting of the body format, whose
    exception is dropped; when any other call has raised it returns
    [False] and the log line is that of its handler. *)
Theorem send_single_email_contained (row : Row) (index : nat) (s : St) :
  exists b s' naps message cs,
    send row index s = (Ret b, s')
    /\ reads s' = reads s
    /\ events s' = events s ++ naps
                   ++ [status_updated index (if b then Sent else Failed);
                       log_updated message]
    /\ calls s' = calls s ++ cs
    /\ Forall nap naps
    /\ (b = true -> Forall (eq SetBodyFormat) (raised cs))
    /\ ((exists c, In c (raised cs) /\ c <> SetBodyFormat) ->
        b = false /\ exists e, message = error_message row e).
Proof.
  destruct (send_single_email_shape row index s)
    as (b & s' & naps & message & cs & E & (R & Ev & C) & N & Ht & Hf).
  exists b, s', naps, message, cs.
  split; [exact E|]. split; [exact R|]. split; [exact Ev|].
  split; [exact C|]. split; [exact N|]. split; [exact Ht | exact Hf].
Qed.

End Send.

End SendFacts.

(** ** Connecting to Outlook *)

Module ConnectFacts.

Import Worker Trace SendSpec ConnectSpec TraceFacts.

(** The counterexample and the witness of C1 live here, outside the
    section of the theorem, on the sample surroundings. *)

(** C1, as the specification states it, fails where the setting of the
    body format raises: the exception is dropped and the mail is sent. *)
Lemma body_format_exception_dropped :
  ~ (forall (World : Type) (respond : World -> Call -> Result * World)
            (path_exists : World -> str -> bool) (self : EmailWorker)
            (row : Row) (index : nat) (s : St World) (b : bool) (s' : St World),
        _send_single_email respond path_exists self row index s = (Ret b, s') ->
        (exists c, In (c, true) (skipn (length (calls s)) (calls s'))) ->
        b = false).
Proof.
  intros H.
  specialize (H unit (Sample.respond Sample.is_body_format) Sample.path_exists
                sample_job sample_row 0 (start tt) true).
  match type of H with
  | forall s', ?l = _ -> _ =>
      let r := eval vm_compute in l in
      match r with
      | (_, ?s1) => specialize (H s1)
      end
  end.
  assert (E : true = false); [|discriminate].
  apply H.
  - vm_compute. reflexivity.
  - exists SetBodyFormat. vm_compute. do 4 right. left. reflexivity.
Qed.

Lemma send_single_email_contained_witness :
  exists b s',
    _send_single_email (Sample.respond Sample.is_send) Sample.path_exists
      sample_job sample_row 0 (start tt) = (Ret b, s')
    /\ b = false.
Proof.
  destruct (SendFacts.send_single_email_contained unit
              (Sample.respond Sample.is_send) Sample.path_exists
              sample_job sample_row 0 (start tt))
    as (b & s' & naps & message & cs & E & _ & _ & G & N & Ht & Hf).
  exists b, s'. split; [exact E|].
  apply Hf. exists Send. split; [|discriminate].
  vm_compute in E.
  inversion E; subst. cbn [calls start app] in G. subst cs.
  vm_compute. left. reflexivity.
Defined.

Section Connect.

Variable World : Type.
Variable respond : World -> Call -> Result * World.
Variable path_exists : World -> str -> bool.
Variable running_at : nat -> bool.
Variable percent_of : nat -> nat -> Z.
Variable self : EmailWorker.

Hypothesis dispatch_fails :
  forall w, exists e w', respond w Dispatch = (Raised e, w').

Lemma connect_fails (attempts : list nat) :
  forall s : St World,
  exists errors s',
    connect respond attempts s = (Ret false, s')
    /\ length errors = length attempts
    /\ reads s' = reads s
    /\ events s' = events s ++ failed_attempts attempts errors
    /\ calls s' = calls s ++ repeat (Dispatch, true) (length attempts).
Proof.
  induction attempts as [|attempt rest IH]; intros s.
  - exists [], s. cbn. now rewrite !app_nil_r.
  - cbn [connect]. unfold bind at 1, try_except, bind at 1, call.
    destruct (dispatch_fails (world s)) as (e & w' & ->).
    cbn [emit bind ret].
    match goal with
    | |- context [connect respond rest ?s1] =>
        destruct (IH s1) as (errors & s' & E & L & R & Ev & C)
    end.
    exists (e :: errors), s'.
    cbn [emit bind ret reads events calls world fst snd] in *.
    split; [exact E|]. split; [simpl; now rewrite L|].
    split; [exact R|].
    split; [rewrite Ev, <- !app_assoc; reflexivity|].
    rewrite C, <- !app_assoc. reflexivity.
Qed.

Lemma failed_attempts_quiet (attempts : list nat) (errors : list str) :
  statuses (failed_attempts attempts errors) = []
  /\ progresses (failed_attempts attempts errors) = []
  /\ finished_count (failed_attempts attempts errors) = 0.
Proof.
  unfold failed_attempts. revert errors.
  induction attempts as [|a attempts IH]; intros [|e errors]; cbn; auto.
Qed.

(** C9: when [CoInitialize] returns and every [Dispatch] raises, [run]
    makes its five attempts, each followed by a log line and a sleep of
    three seconds, then emits the line that it could not connect and
    [finished_sending]; it emits no status and no progress, calls
    nothing else and never reads the flag. *)
Theorem run_connect_failure (w w1 : World) (v : Z) :
  respond w CoInitialize = (Returned v, w1) ->
  exists errors s',
    run respond path_exists running_at percent_of self (start w)
    = (Ret tt, s')
    /\ length errors = 5
    /\ events s' = failed_attempts (seq 0 5) errors
                   ++ [log_updated could_not_connect; finished_sending]
    /\ calls s' = (CoInitialize, false) :: repeat (Dispatch, true) 5
    /\ reads s' = 0
    /\ statuses (events s') = []
    /\ progresses (events s') = []
    /\ finished_count (events s') = 1.
Proof.
  intros Hco. unfold run, try_except, bind at 1, call, start.
  cbn [world]. rewrite Hco. unfold bind at 1.
  match goal with
  | |- context [connect respond (seq 0 5) ?s1] =>
      destruct (connect_fails (seq 0 5) s1)
        as (errors & s' & E & L & R & Ev & C)
  end.
  rewrite E. cbn [negb bind emit ret reads events calls world] in *.
  eexists errors, _. split; [reflexivity|].
  cbn [reads events calls world].
  split; [exact L|].
  split; [rewrite Ev, <- app_assoc; reflexivity|].
  split; [rewrite C; reflexivity|].
  split; [exact R|].
  rewrite Ev, <- app_assoc. cbn [app].
  destruct (failed_attempts_quiet (seq 0 5) errors) as (Hs & Hp & Hf).
  rewrite statuses_app, progresses_app, finished_count_app, Hs, Hp, Hf.
  auto.
Qed.

End Connect.

Lemma run_connect_failure_witness :
  exists errors s',
    run (Sample.respond Sample.is_dispatch) Sample.path_exists
        Sample.always_running (fun p t => 0%Z) sample_job (start tt)
    = (Ret tt, s')
    /\ length errors = 5
    /\ events s' = failed_attempts (seq 0 5) errors
                   ++ [log_updated could_not_connect; finished_sending]
    /\ calls s' = (CoInitialize, false) :: repeat (Dispatch, true) 5
    /\ reads s' = 0
    /\ statuses (events s') = []
    /\ progresses (events s') = []
    /\ finished_count (events s') = 1.
Proof.
  apply (run_connect_failure unit (Sample.respond Sample.is_dispatch)
           Sample.path_exists Sample.always_running (fun p t => 0%Z)
           sample_job) with (w1 := tt) (v := 0%Z).
  - intros []. exists (lit "busy"), tt. reflexivity.
  - reflexivity.
Defined.

End ConnectFacts.

(** ** The passes of [run] *)

Module PassFacts.

Import Worker Trace SendSpec PassSpec TraceFacts.

Lemma monotone_quiet (evs : list Event) : statuses evs = [] -> monotone evs.
Proof.
  intros H before after index E. rewrite E, statuses_app in H.
  apply app_eq_nil in H as [_ H]. discriminate.
Qed.

Lemma monotone_single (evs : list Event) (x : nat * Status) :
  statuses evs = [x] -> monotone evs.
Proof.
  intros H before after index E. rewrite E, statuses_app in H. cbn in H.
  unfold touched.
  destruct (statuses before) as [|y l]; cbn in H.
  - inversion H as [[Hx Ha]]. rewrite Ha. auto.
  - inversion H as [[Hy Hl]]. apply app_eq_nil in Hl as [_ Hl]. discriminate.
Qed.

Lemma monotone_app (a b : list Event) :
  monotone a -> monotone b ->
  (forall i, In i (sent_of a) -> ~ In i (touched b)) ->
  monotone (a ++ b).
Proof.
  intros Ha Hb Hab before after index E.
  apply app_eq_app in E as [l [[E1 E2] | [E1 E2]]].
  - destruct l as [|e l].
    + rewrite app_nil_r in E1. cbn in E2. subst.
      now apply (Hb [] after index).
    + cbn in E2. inversion E2; subst. rewrite touched_app.
      intros H. apply in_app_or in H as [H | H].
      * now apply (Ha before l index).
      * apply (Hab index); [|exact H].
        rewrite sent_of_app. apply in_or_app. right. cbn. now left.
  - subst. now apply (Hb l after index).
Qed.

Lemma naps_quiet (naps : list Event) :
  Forall nap naps ->
  statuses naps = [] /\ progresses naps = [] /\ finished_count naps = 0.
Proof.
  induction 1 as [|e naps He _ IH]; [auto|]. rewrite He. exact IH.
Qed.

Lemma pass_ok_nil (rows : DataFrame) (evs : list Event) :
  statuses evs = [] -> finished_count evs = 0 -> pass_ok rows evs [].
Proof.
  intros Hs Hf. unfold pass_ok, touched. rewrite Hs.
  split; [now apply monotone_quiet|].
  split; [intros x []|]. split; [intros x []|].
  split; [constructor|]. split; [intros x []|exact Hf].
Qed.

Lemma pass_ok_cons (i : nat) (r : Row) (rows : DataFrame) (b : bool)
    (e1 e2 : list Event) (extra : DataFrame) :
  NoDup (map fst ((i, r) :: rows)) ->
  statuses e1 = [(i, if b then Sent else Failed)] ->
  finished_count e1 = 0 ->
  pass_ok rows e2 extra ->
  pass_ok ((i, r) :: rows) (e1 ++ e2) (if b then extra else (i, r) :: extra).
Proof.
  intros Hnd Hs Hf (M & T & I & N & S & F).
  cbn [map fst] in Hnd. inversion Hnd as [|? ? Hi Hnd']; subst.
  assert (Ht1 : touched e1 = [i]) by (unfold touched; now rewrite Hs).
  assert (Hfresh : ~ In i (touched e2)) by (intros H; apply Hi, T, H).
  split.
  { apply monotone_app; [now apply (monotone_single _ _ Hs) | exact M |].
    intros j Hj. apply sent_touched in Hj. rewrite Ht1 in Hj.
    destruct Hj as [<- | []]. exact Hfresh. }
  split.
  { rewrite touched_app, Ht1. intros j [<- | Hj]; [now left|].
    right. now apply T. }
  split.
  { destruct b; intros x Hx; [right; now apply I|].
    destruct Hx as [<- | Hx]; [now left | right; now apply I]. }
  split.
  { destruct b; [exact N|]. cbn [map fst]. constructor; [|exact N].
    intros H. apply Hi. apply in_map_iff in H as (x & <- & Hx).
    apply in_map. now apply I. }
  split.
  { intros x Hx. rewrite sent_of_app. intros H.
    apply in_app_or in H as [H | H].
    - apply sent_touched in H as H'. rewrite Ht1 in H'.
      destruct H' as [E | []].
      destruct b.
      + apply Hi. rewrite E. apply in_map. now apply I.
      + unfold sent_of in H. rewrite Hs in H. destruct H.
    - destruct b; [now apply (S x)|].
      destruct Hx as [<- | Hx]; [|now apply (S x)].
      apply Hfresh. now apply sent_touched. }
  rewrite finished_count_app, Hf, F. reflexivity.
Qed.

Lemma bind_ret {World A B} (m : M World A) (k : A -> M World B) s a s1 :
  m s = (Ret a, s1) -> bind m k s = k a s1.
Proof. unfold bind. now intros ->. Qed.

Lemma bind_emit {World B} (e : Event) (k : unit -> M World B) s :
  bind (emit e) k s
  = k tt (mkSt (world s) (reads s) (events s ++ [e]) (calls s)).
Proof. reflexivity. Qed.

Lemma bind_running {World B} running_at (k : bool -> M World B) s :
  bind (running running_at) k s
  = k (running_at (reads s))
      (mkSt (world s) (S (reads s)) (events s) (calls s)).
Proof. reflexivity. Qed.

Lemma bind_call_ok {World B} respond (c : Call) (k : Z -> M World B)
    w r evs cs v w' :
  respond w c = (Returned v, w') ->
  bind (call respond c) k (mkSt w r evs cs)
  = k v (mkSt w' r evs (cs ++ [(c, false)])).
Proof. unfold bind, call. cbn [world]. now intros ->. Qed.

Lemma try_ret {World A} (m : M World A) (h : str -> M World A) s a s' :
  m s = (Ret a, s') -> try_except m h s = (Ret a, s').
Proof. unfold try_except. now intros ->. Qed.

Lemma connect_first {World} respond attempt rest (w : World) r evs cs v w' :
  respond w Dispatch = (Returned v, w') ->
  connect respond (attempt :: rest) (mkSt w r evs cs)
  = (Ret true,
     mkSt w' r (evs ++ [log_updated (log "✅ Connected to Outlook COM.")])
       (cs ++ [(Dispatch, false)])).
Proof.
  intros H. cbn [connect].
  rewrite (bind_ret _ _ _ true
             (mkSt w' r
                (evs ++ [log_updated (log "✅ Connected to Outlook COM.")])
                (cs ++ [(Dispatch, false)]))); [reflexivity|].
  apply try_ret. rewrite (bind_call_ok _ _ _ _ _ _ _ _ _ H). reflexivity.
Qed.

Section Loops.

Variable World : Type.
Variable respond : World -> Call -> Result * World.
Variable path_exists : World -> str -> bool.
Variable running_at : nat -> bool.
Variable percent_of : nat -> nat -> Z.
Variable self : EmailWorker.

Let send := _send_single_email respond path_exists self.

(** One attempt adds one status event, that of its result. *)
Lemma send_event (row : Row) (index : nat) (s : St World) :
  exists b s' evs,
    send row index s = (Ret b, s')
    /\ reads s' = reads s
    /\ events s' = events s ++ evs
    /\ statuses evs = [(index, if b then Sent else Failed)]
    /\ progresses evs = []
    /\ finished_count evs = 0.
Proof.
  destruct (SendFacts.send_single_email_shape World respond path_exists
              self row index s)
    as (b & s' & naps & message & cs & E & (R & Ev & _) & N & _).
  exists b, s', (naps ++ [status_updated index (if b then Sent else Failed);
                          log_updated message]).
  destruct (naps_quiet naps N) as (Hs & Hp & Hf).
  rewrite statuses_app, progresses_app, finished_count_app, Hs, Hp, Hf.
  repeat split; auto.
Qed.

Lemma first_pass_ok (total : nat) (rows : DataFrame) :
  NoDup (map fst rows) ->
  forall processed_count failed_emails (s : St World),
  exists extra s' evs,
    first_pass respond path_exists running_at percent_of self total rows
      processed_count failed_emails s
    = (Ret (failed_emails ++ extra), s')
    /\ events s' = events s ++ evs
    /\ pass_ok rows evs extra.
Proof.
  induction rows as [|[index row] rows IH]; intros Hnd processed failed s.
  - exists [], s, []. cbn. rewrite !app_nil_r.
    split; [reflexivity|]. split; [reflexivity|]. now apply pass_ok_nil.
  - cbn [first_pass]. rewrite bind_running.
    destruct (running_at (reads s)); cbn [negb].
    + destruct (send_event row index
                  (mkSt (world s) (S (reads s)) (events s) (calls s)))
        as (b & s1 & e1 & E & _ & Ev1 & Hs & _ & Hf).
      fold send. rewrite (bind_ret _ _ _ _ _ E), bind_emit.
      assert (Hnd' : NoDup (map fst rows)) by (now inversion Hnd).
      match goal with
      | |- context [first_pass _ _ _ _ _ _ rows ?p ?f ?s2] =>
          destruct (IH Hnd' p f s2) as (extra & s' & e2 & E2 & Ev2 & P)
      end.
      exists (if b then extra else (index, row) :: extra), s',
             ((e1 ++ [progress_updated (percent_of (processed + 1) total)])
              ++ e2).
      split.
      { rewrite E2. destruct b; [reflexivity|].
        now rewrite <- app_assoc. }
      split.
      { rewrite Ev2. cbn [events]. rewrite Ev1, <- !app_assoc. reflexivity. }
      apply pass_ok_cons; auto.
      * rewrite statuses_app, Hs. reflexivity.
      * rewrite finished_count_app, Hf. reflexivity.
    + eexists [], _, _. rewrite bind_emit. cbn [ret events].
      rewrite app_nil_r. split; [reflexivity|]. split; [reflexivity|].
      now apply pass_ok_nil.
Qed.

Lemma retry_pass_ok (rows : DataFrame) :
  NoDup (map fst rows) ->
  forall still_failed (s : St World),
  exists extra s' evs,
    retry_pass respond path_exists running_at self rows still_failed s
    = (Ret (still_failed ++ extra), s')
    /\ events s' = events s ++ evs
    /\ pass_ok rows evs extra.
Proof.
  induction rows as [|[index row] rows IH]; intros Hnd still s.
  - exists [], s, []. cbn. rewrite !app_nil_r.
    split; [reflexivity|]. split; [reflexivity|]. now apply pass_ok_nil.
  - cbn [retry_pass]. rewrite bind_running.
    destruct (running_at (reads s)); cbn [negb].
    + destruct (send_event row index
                  (mkSt (world s) (S (reads s)) (events s) (calls s)))
        as (b & s1 & e1 & E & _ & Ev1 & Hs & _ & Hf).
      fold send. rewrite (bind_ret _ _ _ _ _ E).
      assert (Hnd' : NoDup (map fst rows)) by (now inversion Hnd).
      match goal with
      | |- context [retry_pass _ _ _ _ rows ?f ?s2] =>
          destruct (IH Hnd' f s2) as (extra & s' & e2 & E2 & Ev2 & P)
      end.
      exists (if b then extra else (index, row) :: extra), s', (e1 ++ e2).
      split.
      { rewrite E2. destruct b; [reflexivity|].
        now rewrite <- app_assoc. }
      split.
      { rewrite Ev2, Ev1, <- !app_assoc. reflexivity. }
      apply pass_ok_cons; auto.
    + eexists [], _, []. cbn [ret events].
      rewrite !app_nil_r. split; [reflexivity|]. split; [reflexivity|].
      now apply pass_ok_nil.
Qed.

(** The retry loop names failed rows only, and none of them again once
    it has reported it as sent. *)
Lemma retry_loop_ok (attempts : list nat) :
  forall failed_emails (s : St World),
  NoDup (map fst failed_emails) ->
  exists still s' evs,
    retry_loop respond path_exists running_at self attempts failed_emails s
    = (Ret still, s')
    /\ events s' = events s ++ evs
    /\ monotone evs
    /\ incl (touched evs) (map fst failed_emails)
    /\ finished_count evs = 0.
Proof.
  induction attempts as [|attempt attempts IH]; intros failed s Hnd.
  - exists failed, s, []. cbn. rewrite app_nil_r.
    repeat split; auto; [now apply monotone_quiet | intros x []].
  - cbn [retry_loop]. rewrite bind_running.
    destruct (negb (running_at (reads s)) || negb (nonempty failed)).
    + eexists failed, _, []. cbn [ret events]. rewrite app_nil_r.
      repeat split; auto; [now apply monotone_quiet | intros x []].
    + rewrite bind_emit.
      match goal with
      | |- context [bind (retry_pass _ _ _ _ failed []) _ ?s1] =>
          destruct (retry_pass_ok failed Hnd [] s1)
            as (extra & s2 & e1 & E1 & Ev1 & (M1 & T1 & I1 & N1 & S1 & F1))
      end.
      cbn [app] in E1. rewrite (bind_ret _ _ _ _ _ E1).
      match goal with
      | |- context [bind ?m _ s2] =>
          assert (Hnap : exists s3 nap, m s2 = (Ret tt, s3)
                                        /\ events s3 = events s2 ++ nap
                                        /\ statuses nap = []
                                        /\ finished_count nap = 0)
      end.
      { destruct (nonempty extra).
        - eexists _, [sleep 2]. repeat split; reflexivity.
        - exists s2, []. rewrite app_nil_r. repeat split; reflexivity. }
      destruct Hnap as (s3 & nap & E3 & Ev3 & Hs3 & Hf3).
      rewrite (bind_ret _ _ _ _ _ E3).
      destruct (IH extra s3 N1) as (still & s' & e2 & E2 & Ev2 & M2 & T2 & F2).
      exists still, s'. eexists. split; [exact E2|].
      split.
      { rewrite Ev2, Ev3, Ev1. cbn [events]. rewrite <- !app_assoc.
        reflexivity. }
      assert (Hdisj : forall i, In i (sent_of e1) -> ~ In i (touched e2)).
      { intros i Hi Ht. apply T2 in Ht.
        apply in_map_iff in Ht as (x & <- & Hx). now apply (S1 x). }
      split.
      { apply (monotone_app [_]); [now apply monotone_quiet| |intros i []].
        apply monotone_app; [exact M1 | |].
        - apply monotone_app; [now apply monotone_quiet | exact M2 |].
          unfold sent_of. rewrite Hs3. intros i [].
        - intros i Hi. rewrite touched_app. unfold touched at 1.
          rewrite Hs3. now apply Hdisj. }
      split.
      { cbn [app]. unfold touched at 1. cbn [statuses].
        fold (touched (e1 ++ nap ++ e2)). rewrite !touched_app.
        unfold touched at 2. rewrite Hs3. cbn [map app].
        intros i Hi. apply in_app_or in Hi as [Hi | Hi]; [now apply T1|].
        apply T2 in Hi. apply in_map_iff in Hi as (x & <- & Hx).
        apply in_map. now apply I1. }
      cbn [app finished_count]. rewrite !finished_count_app, F1, Hf3, F2.
      reflexivity.
Qed.

Lemma connect_quiet (attempts : list nat) :
  forall s : St World,
  exists b s' evs,
    connect respond attempts s = (Ret b, s')
    /\ reads s' = reads s
    /\ events s' = events s ++ evs
    /\ statuses evs = [] /\ finished_count evs = 0.
Proof.
  induction attempts as [|attempt rest IH]; intros s.
  - exists false, s, []. cbn. now rewrite app_nil_r.
  - cbn [connect]. unfold bind at 1, try_except, bind at 1, call.
    destruct (respond (world s) Dispatch) as [[v|e] w'].
    + eexists true, _, [_]. cbn [bind emit ret reads events].
      repeat split; reflexivity.
    + cbn [emit bind ret].
      match goal with
      | |- context [connect respond rest ?s1] =>
          destruct (IH s1) as (b & s' & evs & E & R & Ev & Hs & Hf)
      end.
      exists b, s'. eexists. split; [exact E|].
      cbn [reads events] in *. split; [exact R|].
      split; [rewrite Ev, <- !app_assoc; reflexivity|].
      cbn. auto.
Qed.

Lemma send_all_ok (s : St World) :
  NoDup (map fst (df self)) ->
  exists s' evs,
    send_all respond path_exists running_at percent_of self s = (Ret tt, s')
    /\ events s' = events s ++ evs
    /\ monotone evs
    /\ finished_count evs = 1.
Proof.
  intros Hnd. unfold send_all. cbv zeta.
  destruct (first_pass_ok (length (df self)) (df self) Hnd 0 [] s)
    as (failed & s1 & e1 & E1 & Ev1 & (M1 & T1 & I1 & N1 & S1 & F1)).
  cbn [app] in E1. rewrite (bind_ret _ _ _ _ _ E1).
  match goal with
  | |- context [bind ?m _ s1] =>
      assert (H2 : exists still s2 e2,
                 m s1 = (Ret still, s2) /\ events s2 = events s1 ++ e2
                 /\ monotone e2 /\ incl (touched e2) (map fst failed)
                 /\ finished_count e2 = 0)
  end.
  { destruct (nonempty failed && (0 <? max_retries self)%Z).
    - rewrite bind_emit.
      match goal with
      | |- context [retry_loop _ _ _ _ ?a failed ?s0] =>
          destruct (retry_loop_ok a failed s0 N1)
            as (still & s2 & e2 & E2 & Ev2 & M2 & T2 & F2)
      end.
      exists still, s2. eexists. split; [exact E2|]. cbn [events] in Ev2.
      split; [rewrite Ev2, <- app_assoc; reflexivity|].
      split.
      { apply (monotone_app [_]); [now apply monotone_quiet | exact M2 |].
        intros i []. }
      split; [exact T2 | exact F2].
    - exists failed, s1, []. rewrite app_nil_r.
      repeat split; auto; [now apply monotone_quiet | intros x []]. }
  destruct H2 as (still & s2 & e2 & E2 & Ev2 & M2 & T2 & F2).
  rewrite (bind_ret _ _ _ _ _ E2).
  assert (Hdisj : forall i, In i (sent_of e1) -> ~ In i (touched e2)).
  { intros i Hi Ht. apply T2 in Ht.
    apply in_map_iff in Ht as (x & <- & Hx). now apply (S1 x). }
  destruct (nonempty still).
  - eexists _, _. split; [reflexivity|].
    cbn [bind emit ret events]. rewrite Ev2, Ev1, <- !app_assoc.
    split; [reflexivity|]. split.
    + apply monotone_app; [exact M1 | | ].
      * apply monotone_app; [exact M2 | now apply monotone_quiet |].
        intros i _ [].
      * intros i Hi. rewrite touched_app. cbn. rewrite app_nil_r.
        now apply Hdisj.
    + rewrite !finished_count_app, F1, F2. reflexivity.
  - eexists _, _. split; [reflexivity|].
    cbn [bind emit ret events]. rewrite Ev2, Ev1, <- !app_assoc.
    split; [reflexivity|]. split.
    + apply monotone_app; [exact M1 | | ].
      * apply monotone_app; [exact M2 | now apply monotone_quiet |].
        intros i _ [].
      * intros i Hi. rewrite touched_app. cbn. rewrite app_nil_r.
        now apply Hdisj.
    + rewrite !finished_count_app, F1, F2. reflexivity.
Qed.

(** [run] always returns, having emitted [finished_sending] once, and
    names no row again once it has reported it as sent. *)
Lemma run_ok (w : World) :
  NoDup (map fst (df self)) ->
  exists s',
    run respond path_exists running_at percent_of self (start w) = (Ret tt, s')
    /\ monotone (events s')
    /\ finished_count (events s') = 1.
Proof.
  intros Hnd. unfold run, try_except, bind at 1, call, start. cbn [world].
  destruct (respond w CoInitialize) as [[v|e] w1].
  2:{ eexists. split; [reflexivity|]. cbn.
      split; [now apply monotone_quiet | reflexivity]. }
  match goal with
  | |- context [bind (connect respond (seq 0 5)) _ ?s0] =>
      destruct (connect_quiet (seq 0 5) s0)
        as (b & s1 & e1 & E1 & R1 & Ev1 & Hs1 & Hf1)
  end.
  rewrite (bind_ret _ _ _ _ _ E1). cbn [events app] in Ev1.
  destruct b; cbn [negb].
  2:{ rewrite bind_emit. eexists. split; [reflexivity|].
      cbn [emit events]. rewrite Ev1.
      split.
      - apply monotone_quiet. rewrite !statuses_app, Hs1. reflexivity.
      - rewrite !finished_count_app, Hf1. reflexivity. }
  unfold bind at 1, call.
  destruct (respond (world s1) GetNamespace) as [[v2|e2] w2].
  2:{ eexists. split; [reflexivity|]. cbn [emit bind ret events].
      rewrite Ev1. split.
      - apply monotone_quiet. rewrite !statuses_app, Hs1. reflexivity.
      - rewrite !finished_count_app, Hf1. reflexivity. }
  unfold bind at 1, try_except, bind at 1, call. cbn [world].
  destruct (respond w2 (GetDefaultFolder 4)) as [[v3|e3] w3].
  2:{ eexists. split; [reflexivity|]. cbn [emit bind ret events].
      rewrite Ev1. split.
      - apply monotone_quiet. rewrite !statuses_app, Hs1. reflexivity.
      - rewrite !finished_count_app, Hf1. reflexivity. }
  unfold bind at 1, call. cbn [world].
  destruct (respond w3 (GetDefaultFolder 5)) as [[v4|e4] w4].
  2:{ eexists. split; [reflexivity|]. cbn [emit bind ret events].
      rewrite Ev1. split.
      - apply monotone_quiet. rewrite !statuses_app, Hs1. reflexivity.
      - rewrite !finished_count_app, Hf1. reflexivity. }
  cbn [ret negb].
  match goal with
  | |- context [send_all _ _ _ _ _ ?s0] =>
      destruct (send_all_ok s0 Hnd) as (s' & evs & E & Ev & M & F)
  end.
  rewrite E. exists s'. split; [reflexivity|].
  rewrite Ev. cbn [events]. rewrite Ev1. split.
  - apply monotone_app; [apply monotone_quiet; exact Hs1 | exact M |].
    unfold sent_of. rewrite Hs1. intros i [].
  - rewrite finished_count_app, Hf1, F. reflexivity.
Qed.

(** C4: a row stands as [Pending] before any event; and in every run
    over rows with distinct labels, once the events so far leave a row as
    [Sent], no later event names the row, so that it stands as [Sent]
    whatever follows. *)
Theorem status_never_reverts (w : World) :
  NoDup (map fst (df self)) ->
  exists s',
    run respond path_exists running_at percent_of self (start w) = (Ret tt, s')
    /\ (forall index, status_of [] index Pending = Pending)
    /\ monotone (events s')
    /\ forall before after index,
         events s' = before ++ after ->
         status_of before index Pending = Sent ->
         ~ In index (touched after)
         /\ status_of (before ++ after) index Pending = Sent.
Proof.
  intros Hnd. destruct (run_ok w Hnd) as (s' & E & M & _).
  exists s'. split; [exact E|]. split; [reflexivity|]. split; [exact M|].
  intros before after index Ev Hsent.
  apply status_of_sent in Hsent as [[Hn _] | (a1 & a2 & -> & Ht)];
    [discriminate|].
  rewrite <- app_assoc in Ev. cbn [app] in Ev.
  pose proof (M _ _ _ Ev) as Hfresh. rewrite touched_app in Hfresh.
  assert (Hafter : ~ In index (touched after))
    by (intros H; apply Hfresh, in_or_app; now right).
  split; [exact Hafter|].
  rewrite status_of_app, (status_of_untouched after) by exact Hafter.
  rewrite status_of_app. cbn [status_of]. rewrite Nat.eqb_refl.
  now apply status_of_untouched.
Qed.

End Loops.

Lemma status_never_reverts_witness :
  exists s',
    run (Sample.respond Sample.never) Sample.path_exists
        Sample.always_running (fun p t => 0%Z) sample_job (start tt)
    = (Ret tt, s')
    /\ (forall index, status_of [] index Pending = Pending)
    /\ monotone (events s')
    /\ forall before after index,
         events s' = before ++ after ->
         status_of before index Pending = Sent ->
         ~ In index (touched after)
         /\ status_of (before ++ after) index Pending = Sent.
Proof.
  apply (status_never_reverts unit (Sample.respond Sample.never)
           Sample.path_exists Sample.always_running (fun p t => 0%Z)
           sample_job tt).
  cbn. repeat constructor; cbn; intuition discriminate.
Defined.

Section Cancel.

Variable World : Type.
Variable respond : World -> Call -> Result * World.
Variable path_exists : World -> str -> bool.
Variable running_at : nat -> bool.
Variable percent_of : nat -> nat -> Z.
Variable self : EmailWorker.

(** The user stops the job after row [k]: the flag reads [True] up to
    its read number [k], the one before row [k], and [False] after. *)
Variable k : nat.
Hypothesis stopped_after : forall i, running_at i = (i <=? k).

Lemma first_pass_until (total : nat) (rows : DataFrame) :
  forall processed_count failed_emails (s : St World),
  exists failed s' evs,
    first_pass respond path_exists running_at percent_of self total rows
      processed_count failed_emails s
    = (Ret failed, s')
    /\ events s' = events s ++ evs
    /\ map fst (statuses evs) = map fst (firstn (S k - reads s) rows)
    /\ Forall attempted (statuses evs)
    /\ finished_count evs = 0
    /\ reads s + Nat.min (length rows) (S k - reads s) <= reads s'.
Proof.
  induction rows as [|[index row] rows IH]; intros processed failed s.
  - exists failed, s, []. cbn. rewrite app_nil_r, firstn_nil.
    repeat split; auto. lia.
  - cbn [first_pass]. rewrite bind_running, stopped_after.
    destruct (Nat.leb_spec (reads s) k) as [Hle | Hgt]; cbn [negb].
    + destruct (send_event World respond path_exists self row index
                  (mkSt (world s) (S (reads s)) (events s) (calls s)))
        as (b & s1 & e1 & E & R1 & Ev1 & Hs & _ & Hf).
      rewrite (bind_ret _ _ _ _ _ E), bind_emit.
      match goal with
      | |- context [first_pass _ _ _ _ _ _ rows ?p ?f ?s2] =>
          destruct (IH p f s2) as (failed' & s' & e2 & E2 & Ev2 & L & A & F & R)
      end.
      cbn [reads events] in *.
      exists failed', s',
             ((e1 ++ [progress_updated (percent_of (processed + 1) total)])
              ++ e2).
      split; [exact E2|].
      split; [rewrite Ev2, Ev1, <- !app_assoc; reflexivity|].
      rewrite !statuses_app, Hs, !finished_count_app, Hf, F. cbn [statuses app].
      rewrite R1 in L, R. cbn [reads] in L, R.
      replace (S k - reads s) with (S (k - reads s)) by lia.
      cbn [firstn map fst length].
      replace (S k - S (reads s)) with (k - reads s) in L, R by lia.
      split; [now rewrite L|].
      split; [constructor; [destruct b; [left | right]; reflexivity | exact A]|].
      split; [reflexivity | lia].
    + eexists failed, _, _. rewrite bind_emit. cbn [ret reads events].
      split; [reflexivity|]. split; [reflexivity|].
      replace (S k - reads s) with 0 by lia. cbn.
      repeat split; auto. lia.
Qed.

Lemma retry_loop_stopped (attempts : list nat) failed_emails (s : St World) :
  running_at (reads s) = false ->
  exists s',
    retry_loop respond path_exists running_at self attempts failed_emails s
    = (Ret failed_emails, s')
    /\ events s' = events s.
Proof.
  intros H. destruct attempts as [|attempt attempts].
  - now exists s.
  - cbn [retry_loop]. rewrite bind_running, H. cbn [negb orb ret].
    eexists. split; reflexivity.
Qed.

Lemma send_all_stopped (s : St World) :
  reads s = 0 -> k < length (df self) ->
  exists s' evs,
    send_all respond path_exists running_at percent_of self s = (Ret tt, s')
    /\ events s' = events s ++ evs
    /\ map fst (statuses evs) = map fst (firstn (S k) (df self))
    /\ Forall attempted (statuses evs)
    /\ finished_count evs = 1.
Proof.
  intros Hr Hk. unfold send_all. cbv zeta.
  destruct (first_pass_until (length (df self)) (df self) 0 [] s)
    as (failed & s1 & e1 & E1 & Ev1 & L1 & A1 & F1 & R1).
  rewrite Hr in L1, R1. rewrite Nat.sub_0_r in L1, R1.
  rewrite (bind_ret _ _ _ _ _ E1).
  assert (Hoff : running_at (reads s1) = false).
  { rewrite stopped_after. apply Nat.leb_gt. lia. }
  match goal with
  | |- context [bind ?m _ s1] =>
      assert (H2 : exists s2 e2,
                 m s1 = (Ret failed, s2) /\ events s2 = events s1 ++ e2
                 /\ statuses e2 = [] /\ finished_count e2 = 0)
  end.
  { destruct (nonempty failed && (0 <? max_retries self)%Z).
    - rewrite bind_emit.
      match goal with
      | |- context [retry_loop _ _ _ _ ?a failed ?s0] =>
          destruct (retry_loop_stopped a failed s0 Hoff) as (s2 & E2 & Ev2)
      end.
      exists s2. eexists. split; [exact E2|]. rewrite Ev2. cbn [events].
      repeat split; reflexivity.
    - exists s1, []. rewrite app_nil_r. repeat split; reflexivity. }
  destruct H2 as (s2 & e2 & E2 & Ev2 & Hs2 & Hf2).
  rewrite (bind_ret _ _ _ _ _ E2).
  destruct (nonempty failed).
  - eexists _, _. split; [reflexivity|].
    cbn [bind emit ret events]. rewrite Ev2, Ev1, <- !app_assoc.
    split; [reflexivity|].
    rewrite !statuses_app, !finished_count_app, Hs2, Hf2, F1. cbn.
    rewrite app_nil_r. auto.
  - eexists _, _. split; [reflexivity|].
    cbn [bind emit ret events]. rewrite Ev2, Ev1, <- !app_assoc.
    split; [reflexivity|].
    rewrite !statuses_app, !finished_count_app, Hs2, Hf2, F1. cbn.
    rewrite app_nil_r. auto.
Qed.

Lemma firstn_within {T} (n : nat) (l : list T) (x : T) :
  In x (firstn n l) -> In x l.
Proof.
  revert l. induction n as [|n IH]; intros [|y l]; cbn; try tauto.
  intros [H | H]; [now left | right; now apply IH].
Qed.

Hypothesis outlook_ready :
  forall w c,
    In c [CoInitialize; Dispatch; GetNamespace;
          GetDefaultFolder 4; GetDefaultFolder 5] ->
    exists v w', respond w c = (Returned v, w').

(** C3: when Outlook is ready and the user stops the job after row [k]
    of the first pass, [run] emits [finished_sending] once; its status
    events are one for each of the rows 0 to [k], in order, each [Sent]
    or [Failed]; and, the labels being distinct, each of these rows
    stands as [Sent] or [Failed] while no event names a later row, which
    stands as [Pending]. *)
Theorem cancel_in_first_pass (w : World) :
  k < length (df self) ->
  NoDup (map fst (df self)) ->
  exists s',
    run respond path_exists running_at percent_of self (start w) = (Ret tt, s')
    /\ finished_count (events s') = 1
    /\ map fst (statuses (events s')) = map fst (firstn (S k) (df self))
    /\ Forall attempted (statuses (events s'))
    /\ forall j index row,
         nth_error (df self) j = Some (index, row) ->
         (j <= k -> status_of (events s') index Pending = Sent
                    \/ status_of (events s') index Pending = Failed)
         /\ (k < j -> ~ In index (touched (events s'))
                      /\ status_of (events s') index Pending = Pending).
Proof.
  intros Hk Hnd. unfold run.
  destruct (outlook_ready w CoInitialize) as (v0 & w0 & H0); [cbn; tauto|].
  destruct (outlook_ready w0 Dispatch) as (v1 & w1 & H1); [cbn; tauto|].
  destruct (outlook_ready w1 GetNamespace) as (v2 & w2 & H2); [cbn; tauto|].
  destruct (outlook_ready w2 (GetDefaultFolder 4)) as (v3 & w3 & H3);
    [cbn; tauto|].
  destruct (outlook_ready w3 (GetDefaultFolder 5)) as (v4 & w4 & H4);
    [cbn; tauto|].
  match goal with
  | |- context [send_all ?r ?p ?f ?q ?x] =>
      destruct (send_all_stopped
                  (mkSt w4 0 [log_updated (log "✅ Connected to Outlook COM.")]
                     [(CoInitialize, false); (Dispatch, false);
                      (GetNamespace, false); (GetDefaultFolder 4, false);
                      (GetDefaultFolder 5, false)])
                  eq_refl Hk)
        as (s' & evs & E & Ev & L & A & F)
  end.
  exists s'. split.
  { apply try_ret. unfold start.
    rewrite (bind_call_ok _ _ _ _ _ _ _ _ _ H0). cbn [world reads events calls app].
    cbn [seq].
    rewrite (bind_ret _ _ _ _ _ (connect_first _ _ _ _ _ _ _ _ _ H1)).
    cbn [negb world reads events calls app].
    rewrite (bind_call_ok _ _ _ _ _ _ _ _ _ H2). cbn [world reads events calls app].
    rewrite (bind_ret _ _ _ true
               (mkSt w4 0 [log_updated (log "✅ Connected to Outlook COM.")]
                  [(CoInitialize, false); (Dispatch, false);
                   (GetNamespace, false); (GetDefaultFolder 4, false);
                   (GetDefaultFolder 5, false)])).
    2:{ apply try_ret. rewrite (bind_call_ok _ _ _ _ _ _ _ _ _ H3).
        cbn [world reads events calls app].
        rewrite (bind_call_ok _ _ _ _ _ _ _ _ _ H4). reflexivity. }
    cbn [negb]. exact E. }
  cbn [events app] in Ev. rewrite Ev.
  cbn [finished_count statuses].
  split; [exact F|]. split; [exact L|]. split; [exact A|].
  intros j index row Hj.
  assert (Ht : touched (log_updated (log "✅ Connected to Outlook COM.") :: evs)
               = map fst (firstn (S k) (df self))) by exact L.
  split.
  - intros Hle. apply status_of_touched; [exact A|]. left. rewrite Ht.
    apply (in_map fst _ (index, row)).
    apply (nth_error_In _ j). rewrite nth_error_firstn.
    replace (j <? S k) with true by (symmetry; apply Nat.ltb_lt; lia).
    exact Hj.
  - intros Hlt.
    assert (Hfresh : ~ In index (map fst (firstn (S k) (df self)))).
    { intros Hin.
      pose proof (firstn_skipn_middle j (df self) Hj) as Hsplit.
      rewrite <- Hsplit, map_app in Hnd. cbn [map fst] in Hnd.
      apply NoDup_remove_2 in Hnd. apply Hnd, in_or_app. left.
      replace (S k) with (Nat.min (S k) j) in Hin by lia.
      rewrite <- firstn_firstn in Hin.
      apply in_map_iff in Hin as (x & Hx & Hin).
      apply firstn_within in Hin. rewrite <- Hx. now apply in_map. }
    rewrite <- Ht in Hfresh. split; [exact Hfresh|].
    now apply status_of_untouched.
Qed.

End Cancel.

Lemma cancel_in_first_pass_witness :
  exists s',
    run (Sample.respond Sample.never) Sample.path_exists
        (Sample.stop_after 1) (fun p t => 0%Z) sample_job (start tt)
    = (Ret tt, s')
    /\ finished_count (events s') = 1
    /\ map fst (statuses (events s')) = map fst (firstn 2 (df sample_job))
    /\ Forall attempted (statuses (events s'))
    /\ forall j index row,
         nth_error (df sample_job) j = Some (index, row) ->
         (j <= 1 -> status_of (events s') index Pending = Sent
                    \/ status_of (events s') index Pending = Failed)
         /\ (1 < j -> ~ In index (touched (events s'))
                      /\ status_of (events s') index Pending = Pending).
Proof.
  apply (cancel_in_first_pass unit (Sample.respond Sample.never)
           Sample.path_exists (Sample.stop_after 1) (fun p t => 0%Z)
           sample_job 1).
  - reflexivity.
  - intros [] c _. exists 0%Z, tt. reflexivity.
  - cbn. lia.
  - cbn. repeat constructor; cbn; intuition discriminate.
Defined.

End PassFacts.

(** ** The retry passes *)

Module RetryFacts.

Import Worker Trace.

(** C2, where the code departs from it: with one retry allowed and one
    row that keeps failing, the only retry pass is the last one, and
    [run] still sleeps two seconds after it, before the summary line. *)
Theorem sleep_after_last_pass (percent_of : nat -> nat -> Z) :
  events (snd (run (Sample.respond Sample.never) Sample.path_exists
                 Sample.always_running percent_of lone_job (start tt)))
  = [ log_updated (log "✅ Connected to Outlook COM.");
      status_updated 0 Failed;
      log_updated (log "❌ No email for row 2");
      progress_updated (percent_of 1 1);
      log_updated (log "🔄 Retrying 1 failed emails...");
      log_updated (log "🔄 Retry attempt 1/1");
      status_updated 0 Failed;
      log_updated (log "❌ No email for row 2");
      sleep 2;
      log_updated (log "⚠️ 1 emails still failed after all retries");
      finished_sending ].
Proof. vm_compute. reflexivity. Qed.

End RetryFacts.

(** ** Scanning a string for a pattern *)

Module ScanFacts.

Import RenderSpec ReFacts MtFacts.

(** A chain of literals matches the text that starts with it. *)
Lemma mt_lits {A} (c : ascii) (h : str) :
  forall prev s g (k : @cont A),
    mt true (cat (map Lit (c :: h))) prev s g k
    = if starts_ci (c :: h) s
      then k (prev_after prev (firstn (length (c :: h)) s))
             (skipn (length (c :: h)) s) g
      else None.
Proof.
  revert c. induction h as [|c' h IH]; intros c prev s g k.
  - destruct s as [|y s]; [reflexivity|].
    cbn [map cat mt starts_ci length firstn skipn]. rewrite andb_true_r.
    destruct (lit_eq true c y); reflexivity.
  - change (cat (map Lit (c :: c' :: h)))
      with (Cat (Lit c) (cat (map Lit (c' :: h)))).
    rewrite mt_cat. destruct s as [|y s]; [reflexivity|].
    change (starts_ci (c :: c' :: h) (y :: s))
      with (lit_eq true c y && starts_ci (c' :: h) s).
    cbn [mt]. destruct (lit_eq true c y); [|reflexivity].
    rewrite IH. cbn [andb]. destruct (starts_ci (c' :: h) s); [|reflexivity].
    change (length (c :: c' :: h)) with (S (length (c' :: h))).
    cbn [firstn skipn]. now rewrite prev_after_cons.
Qed.

Lemma headed_lits (c : ascii) (h : str) :
  headed (cat (map Lit (c :: h))) (c :: h).
Proof. intros A prev s g k H. now rewrite mt_lits, H. Qed.

Lemma headed_cat (r1 r2 : regex) (h : str) :
  headed r1 h -> headed (Cat r1 r2) h.
Proof. intros H A prev s g k Hs. rewrite mt_cat. now apply H. Qed.

Lemma headed_noncap (r : regex) (h : str) : headed r h -> headed (NonCap r) h.
Proof. intros H A prev s g k Hs. cbn [mt]. now apply H. Qed.

Lemma headed_repeat (r : regex) (h : str) (lo : nat) :
  headed r h -> 0 < lo -> headed (Repeat true lo None r) h.
Proof.
  intros H Hlo A prev s g k Hs. cbn [mt].
  assert (L : (lo <=? 0) = false) by (apply Nat.leb_gt; exact Hlo).
  destruct (length s) as [|fuel]; cbn [rep_loop orelse below]; rewrite ?L;
    [reflexivity|].
  rewrite (H A prev s g _ Hs). reflexivity.
Qed.

Lemma match_at_headed (r : regex) (h : str) advance prev s :
  headed r h -> starts_ci h s = false -> match_at true r advance prev s = None.
Proof. intros H Hs. unfold match_at. now apply H. Qed.

(** *** [re.sub] and [re.search] along a string *)

Section Scan.

Variable r : regex.
Variable repl : groups -> str.

Lemma sub_from_skipping (m v : str) :
  forall prev,
    sub_from true r repl prev (length m) (m ++ v)
    = sub_from true r repl (prev_after prev m) 0 v.
Proof.
  induction m as [|c m IH]; intros prev; [now destruct v|].
  cbn [length app sub_from]. rewrite IH. now rewrite prev_after_cons.
Qed.

(** The scan copies a stretch in which no match begins. *)
Lemma sub_skip (u v : str) :
  forall prev,
    (forall i p, i < length u ->
                 match_at true r false p (skipn i u ++ v) = None) ->
    sub_from true r repl prev 0 (u ++ v)
    = u ++ sub_from true r repl (prev_after prev u) 0 v.
Proof.
  induction u as [|x u IH]; intros prev H; [reflexivity|].
  cbn [app]. cbn [sub_from].
  assert (H0 : match_at true r false prev (x :: u ++ v) = None)
    by (apply (H 0 prev); cbn; lia).
  rewrite H0. rewrite IH, prev_after_cons; [reflexivity|].
  intros i p Hi. apply (H (S i) p). cbn. lia.
Qed.

(** The scan replaces a match that is not empty, and goes on behind it. *)
Lemma sub_hit (m v : str) (g : groups) prev :
  m <> [] ->
  match_at true r false prev (m ++ v) = Some (v, g) ->
  sub_from true r repl prev 0 (m ++ v)
  = repl g ++ sub_from true r repl (prev_after prev m) 0 v.
Proof.
  intros Hm H. destruct m as [|c m]; [congruence|].
  cbn [app] in *. cbn [sub_from]. rewrite H.
  assert (L : (length v <? length (c :: m ++ v)) = true).
  { apply Nat.ltb_lt. cbn [length]. rewrite length_app. lia. }
  rewrite L.
  replace (length (c :: m ++ v) - length v - 1) with (length m)
    by (cbn [length]; rewrite length_app; lia).
  now rewrite sub_from_skipping, prev_after_cons.
Qed.

Lemma sub_end prev :
  match_at true r false prev [] = None -> sub_from true r repl prev 0 [] = [].
Proof. intros H. cbn [sub_from]. now rewrite H. Qed.

Lemma search_none (s : str) :
  forall prev,
    (forall i p, i <= length s -> match_at true r false p (skipn i s) = None) ->
    search_from true r prev s = None.
Proof.
  induction s as [|c s IH]; intros prev H.
  - cbn [search_from].
    assert (H0 : match_at true r false prev [] = None)
      by (apply (H 0 prev); cbn; lia).
    now rewrite H0.
  - cbn [search_from].
    assert (H0 : match_at true r false prev (c :: s) = None)
      by (apply (H 0 prev); cbn; lia).
    rewrite H0. apply IH. intros i p Hi. apply (H (S i) p). cbn. lia.
Qed.

End Scan.

(** *** Where a tag can begin *)

Lemma forallb_seq_shift (f : nat -> bool) (a n : nat) :
  forallb f (seq (S a) n) = forallb (fun i => f (S i)) (seq a n).
Proof.
  revert a. induction n as [|n IH]; intros a; [reflexivity|].
  simpl. now rewrite IH.
Qed.

Lemma begins_cons (h : str) (x : ascii) (u v : str) :
  begins h (x :: u) v = starts_ci h (x :: u ++ v) || begins h u v.
Proof.
  unfold begins. cbn [length seq existsb skipn app].
  now rewrite PyFacts.existsb_seq_shift.
Qed.

Lemma begins_app (h u1 u2 v : str) :
  begins h (u1 ++ u2) v = begins h u1 (u2 ++ v) || begins h u2 v.
Proof.
  induction u1 as [|x u1 IH]; [reflexivity|].
  cbn [app]. rewrite !begins_cons, IH, <- app_assoc. now rewrite orb_assoc.
Qed.

Lemma begins_at (h u v : str) (i : nat) :
  begins h u v = false -> i < length u -> starts_ci h (skipn i u ++ v) = false.
Proof.
  revert i. induction u as [|x u IH]; intros i H Hi; [cbn in Hi; lia|].
  rewrite begins_cons in H. apply orb_false_iff in H as [H0 H].
  destruct i as [|i]; [exact H0|]. cbn [skipn]. apply IH; [exact H|].
  cbn in Hi. lia.
Qed.

Lemma mismatch_starts (h x v : str) :
  mismatch h x = true -> starts_ci h (x ++ v) = false.
Proof.
  revert x. induction h as [|a h IH]; intros [|b x];
    cbn [mismatch starts_ci app]; try discriminate.
  intros H. destruct (lit_eq true a b); cbn [negb orb andb] in *;
    [now apply IH | reflexivity].
Qed.

Lemma clean_cons (h : str) (x : ascii) (u : str) :
  clean h (x :: u) = mismatch h (x :: u) && clean h u.
Proof.
  unfold clean. cbn [length seq forallb skipn].
  now rewrite forallb_seq_shift.
Qed.

Lemma clean_begins (h u v : str) : clean h u = true -> begins h u v = false.
Proof.
  induction u as [|x u IH]; [reflexivity|].
  rewrite clean_cons, begins_cons. intros H.
  apply andb_true_iff in H as [H0 H].
  change (x :: u ++ v) with ((x :: u) ++ v).
  now rewrite (mismatch_starts _ _ _ H0), IH.
Qed.

(** Text in which no character is the first of [h] is clean. *)
Lemma clean_without (a : ascii) (h u : str) :
  forallb (fun c => negb (lit_eq true a c)) u = true -> clean (a :: h) u = true.
Proof.
  induction u as [|x u IH]; [reflexivity|]. cbn [forallb]. intros H.
  apply andb_true_iff in H as [H0 H]. rewrite clean_cons, IH by exact H.
  cbn [mismatch]. now rewrite H0.
Qed.

Lemma starts_ci_within (h x v : str) :
  no_lt h = true -> follows v ->
  starts_ci h (x ++ v) = true -> starts_ci h x = true.
Proof.
  intros Hh Hv. revert x. induction h as [|c h IH]; intros x H; [reflexivity|].
  cbn in Hh. apply andb_true_iff in Hh as [Hc Hh].
  destruct x as [|y x].
  - cbn [app] in H. destruct Hv as [-> | [v' ->]]; [discriminate H|].
    cbn in H. apply andb_true_iff in H as [H _].
    apply negb_true_iff in Hc. cbn in Hc. congruence.
  - cbn in *. apply andb_true_iff in H as [H1 H2].
    rewrite H1. now apply IH.
Qed.

Lemma occurs_begins (a : ascii) (h t v : str) :
  no_lt h = true -> follows v ->
  occurs_ci (a :: h) t = false -> begins (a :: h) t v = false.
Proof.
  intros Hh Hv. induction t as [|x t IH]; [reflexivity|].
  cbn [occurs_ci]. intros H. apply orb_false_iff in H as [H0 H].
  rewrite begins_cons, IH by exact H. rewrite orb_false_r.
  destruct (starts_ci (a :: h) (x :: t ++ v)) eqn:E; [|reflexivity].
  cbn [starts_ci] in E, H0. apply andb_true_iff in E as [E1 E2].
  rewrite E1 in H0. cbn in H0.
  now rewrite (starts_ci_within h t v Hh Hv E2) in H0.
Qed.

End ScanFacts.

(** ** The sets and literals of the paragraph patterns *)

Module SetFacts.

Import RenderSpec ReFacts MtFacts ScanFacts.

Ltac each_char c :=
  destruct c as [[] [] [] [] [] [] [] []]; reflexivity.

Lemma not_gt_cls (c : ascii) :
  cls true true [IChar ">"] c = negb (eqc c ">").
Proof. each_char c. Qed.

Lemma ws_cls (c : ascii) : cls true false [ISpace] c = isspace c.
Proof. each_char c. Qed.

Lemma any_cls (c : ascii) : cls true false [ISpace; INotSpace] c = true.
Proof. each_char c. Qed.

Lemma lit_eq_gt (c : ascii) : lit_eq true ">" c = eqc c ">".
Proof. each_char c. Qed.

Lemma lit_eq_lt (c : ascii) : lit_eq true "<" c = eqc c "<".
Proof. each_char c. Qed.

Lemma lit_eq_lt_l (c : ascii) : lit_eq true c "<" = eqc c "<".
Proof. each_char c. Qed.

Lemma lit_eq_refl (c : ascii) : lit_eq true c c = true.
Proof. unfold lit_eq, eqc. apply Ascii.eqb_refl. Qed.

Lemma starts_ci_self (h s : str) : starts_ci h (h ++ s) = true.
Proof.
  induction h as [|c h IH]; [reflexivity|].
  cbn [app starts_ci]. now rewrite lit_eq_refl, IH.
Qed.

Lemma firstn_self {T} (h s : list T) : firstn (length h) (h ++ s) = h.
Proof. induction h as [|c h IH]; cbn; [reflexivity | now rewrite IH]. Qed.

Lemma skipn_self {T} (h s : list T) : skipn (length h) (h ++ s) = s.
Proof. induction h as [|c h IH]; cbn; [reflexivity | exact IH]. Qed.

Lemma firstn_front {T} (c b : list T) :
  firstn (length (c ++ b) - length b) (c ++ b) = c.
Proof.
  rewrite length_app. replace (length c + length b - length b) with (length c)
    by lia.
  apply firstn_self.
Qed.

(** A chain of literals reads itself. *)
Lemma mt_lits_self {A} (c : ascii) (h s : str) prev g (k : @cont A) :
  mt true (cat (map Lit (c :: h))) prev ((c :: h) ++ s) g k
  = k (prev_after prev (c :: h)) s g.
Proof. now rewrite mt_lits, starts_ci_self, firstn_self, skipn_self. Qed.

Lemma mt_lits_miss {A} (c : ascii) (h s : str) prev g (k : @cont A) :
  starts_ci (c :: h) s = false ->
  mt true (cat (map Lit (c :: h))) prev s g k = None.
Proof. intros H. now rewrite mt_lits, H. Qed.

Lemma mt_bound {A} prev s g (k : @cont A) :
  mt true Bound prev s g k
  = if xorb (word_opt prev) (word_opt (hd_error s)) then k prev s g else None.
Proof. reflexivity. Qed.

(** After [<p] comes the end of the tag or an attribute. *)
Lemma attrs_next (a rest : str) :
  attrs_ok a = true -> word_opt (hd_error (a ++ ">"%char :: rest)) = false.
Proof.
  unfold attrs_ok. intros H. apply andb_true_iff in H as [_ H].
  destruct a as [|c a]; [reflexivity|]. cbn. now apply negb_true_iff.
Qed.

Lemma attrs_not_gt (a : str) :
  attrs_ok a = true -> forallb (cls true true [IChar ">"]) a = true.
Proof.
  unfold attrs_ok. intros H. apply andb_true_iff in H as [H _].
  induction a as [|c a IH]; [reflexivity|]. cbn [forallb] in *.
  apply andb_true_iff in H as [Hc H]. apply andb_true_iff in Hc as [_ Hc].
  now rewrite not_gt_cls, Hc, IH.
Qed.

Lemma attrs_no_lt (a : str) :
  attrs_ok a = true ->
  forallb (fun c => negb (lit_eq true "<" c)) a = true.
Proof.
  unfold attrs_ok. intros H. apply andb_true_iff in H as [H _].
  induction a as [|c a IH]; [reflexivity|]. cbn [forallb] in *.
  apply andb_true_iff in H as [Hc H]. apply andb_true_iff in Hc as [Hc _].
  now rewrite lit_eq_lt, Hc, IH.
Qed.

(** The first [>] of a string is where it is. *)
Lemma first_gt_unique (a a' rest b : str) :
  forallb (cls true true [IChar ">"]) a = true ->
  forallb (cls true true [IChar ">"]) a' = true ->
  a' ++ ">"%char :: b = a ++ ">"%char :: rest ->
  a' = a /\ b = rest.
Proof.
  revert a'. induction a as [|x a IH]; intros [|y a'] Ha Ha' E.
  - now inversion E.
  - cbn in E. inversion E; subst. cbn in Ha'. discriminate.
  - cbn in E. inversion E; subst. cbn in Ha. discriminate.
  - cbn in E. inversion E; subst. cbn [forallb] in *.
    apply andb_true_iff in Ha as [_ Ha]. apply andb_true_iff in Ha' as [_ Ha'].
    destruct (IH a' Ha Ha' H1) as [-> ->]. auto.
Qed.

(** Spaces read from the front of a content that is not blank stop
    inside it. *)
Lemma spaces_within (c rest w b : str) :
  blank c = false -> w ++ b = c ++ rest -> forallb isspace w = true ->
  exists i, i < length c /\ b = skipn i c ++ rest.
Proof.
  revert w. induction c as [|x c IH]; intros w Hc E Hw; [discriminate|].
  destruct w as [|y w].
  - exists 0. split; [cbn [length]; lia | exact E].
  - cbn [app] in E. inversion E; subst. cbn [forallb] in Hw.
    apply andb_true_iff in Hw as [Hx Hw]. unfold blank in Hc.
    cbn [forallb] in Hc. rewrite Hx in Hc. cbn [andb] in Hc.
    destruct (IH w Hc H1 Hw) as (i & Hi & ->).
    exists (S i). split; [cbn [length]; lia | reflexivity].
Qed.

Lemma blank_spaces (c : str) :
  blank c = true -> forallb (cls true false [ISpace]) c = true.
Proof.
  unfold blank. induction c as [|x c IH]; [reflexivity|]. cbn [forallb].
  intros H. apply andb_true_iff in H as [Hx H]. now rewrite ws_cls, Hx, IH.
Qed.

Lemma all_any (c : str) : forallb (cls true false [ISpace; INotSpace]) c = true.
Proof.
  induction c as [|x c IH]; [reflexivity|]. cbn [forallb].
  now rewrite any_cls, IH.
Qed.

End SetFacts.

(** ** Markup without tags *)

Module ParaFacts.

Import RenderSpec ReFacts MtFacts ScanFacts SetFacts.

(** No tag that the builder rewrites begins inside inert markup that a
    tag, or nothing, follows. *)
Lemma inert_begins (h t v : str) :
  In h heads -> inert t = true -> follows v -> begins h t v = false.
Proof.
  intros Hh Ht Hv. unfold inert in Ht. rewrite forallb_forall in Ht.
  specialize (Ht h Hh). apply negb_true_iff in Ht.
  unfold heads in Hh. cbn [In] in Hh.
  repeat (destruct Hh as [<- | Hh];
          [apply occurs_begins; [reflexivity | exact Hv | exact Ht]|]).
  destruct Hh.
Qed.

End ParaFacts.

(** ** Patterns and their tags *)

Module RenderFacts.

Import RenderSpec ReFacts MtFacts ScanFacts SetFacts ParaFacts.

Lemma headed_blank_p : headed blank_p_pattern (lit "<p").
Proof. apply headed_cat. apply (headed_lits "<" (lit "p")). Qed.

Lemma headed_para : headed para_pattern (lit "<p").
Proof. apply headed_cat. apply (headed_lits "<" (lit "p")). Qed.

Lemma headed_body : headed body_pattern (lit "<body").
Proof. apply headed_cat. apply (headed_lits "<" (lit "body")). Qed.

Lemma headed_div_open : headed div_open_pattern (lit "<div").
Proof. apply headed_cat. apply (headed_lits "<" (lit "div")). Qed.

Lemma headed_div_close : headed div_close_pattern (lit "</div>").
Proof. apply (headed_lits "<" (lit "/div>")). Qed.

Lemma headed_br_run : headed br_run_pattern (lit "<br").
Proof.
  apply headed_repeat; [|lia]. apply headed_noncap, headed_cat.
  apply (headed_lits "<" (lit "br")).
Qed.


(** *** Strings in which a tag begins nowhere *)


Lemma search_free (r : regex) (a : ascii) (h S : str) :
  headed r (a :: h) -> begins (a :: h) S [] = false ->
  re_search true r S = None.
Proof.
  intros Hr Hb. apply search_none. intros i p Hi.
  apply (match_at_headed r (a :: h)); [exact Hr|].
  destruct (Nat.eq_dec i (length S)) as [-> | Hne].
  - now rewrite skipn_all.
  - rewrite <- (app_nil_r (skipn i S)). apply begins_at; [exact Hb | lia].
Qed.

Lemma digit_no_lt (k : nat) :
  k < 10 -> negb (lit_eq true "<" (digit k)) = true.
Proof.
  intros H. do 10 (destruct k as [|k]; [reflexivity|]). lia.
Qed.

Lemma digits_go_no_lt (fuel : nat) :
  forall n acc,
    forallb (fun c => negb (lit_eq true "<" c)) acc = true ->
    forallb (fun c => negb (lit_eq true "<" c)) (digits_go fuel n acc) = true.
Proof.
  induction fuel as [|fuel IH]; intros n acc H; [exact H|].
  cbn [digits_go].
  assert (H' : forallb (fun c => negb (lit_eq true "<" c))
                 (digit (n mod 10) :: acc) = true).
  { cbn [forallb]. rewrite digit_no_lt, H; [reflexivity|].
    apply Nat.mod_upper_bound. discriminate. }
  destruct (n <? 10); [exact H' | now apply IH].
Qed.

Lemma str_of_Z_no_lt (z : Z) :
  forallb (fun c => negb (lit_eq true "<" c)) (str_of_Z z) = true.
Proof.
  destruct z as [|p|p]; cbn [str_of_Z]; unfold str_of_nat.
  - now apply digits_go_no_lt.
  - now apply digits_go_no_lt.
  - change (lit "-") with ["-"%char]. cbn [app forallb].
    rewrite digits_go_no_lt; reflexivity.
Qed.

(** No paragraph begins inside a spacer. *)
Lemma spacer_free (px : Z) (v : str) : begins (lit "<p") (spacer px) v = false.
Proof.
  unfold spacer, spacer_row. rewrite <- !app_assoc, !begins_app.
  rewrite (clean_begins _ table_open) by reflexivity.
  rewrite (clean_begins _ (html "<tr><td height=`")) by reflexivity.
  rewrite (clean_begins _ (str_of_Z px))
    by (apply (clean_without "<"), str_of_Z_no_lt).
  rewrite (clean_begins _ (html "` style=`font-size:0; line-height:0;`>&nbsp;</td></tr>"))
    by reflexivity.
  rewrite (clean_begins _ (html "</table>")) by reflexivity.
  reflexivity.
Qed.

Lemma contains_here (n a b : str) : contains n (a ++ n ++ b) = true.
Proof.
  assert (U : forall s, contains n s
                       = startswith n s
                         || match s with [] => false | _ :: s' => contains n s' end)
    by (intros [|y s]; reflexivity).
  induction a as [|x a IH]; cbn [app].
  - now rewrite U, ExpandFacts.startswith_self.
  - rewrite U, IH. apply orb_true_r.
Qed.

Lemma space_no_lt (x : ascii) :
  isspace x = true -> lit_eq true "<" x = false.
Proof.
  destruct x as [[] [] [] [] [] [] [] []]; intros H;
    try reflexivity; discriminate H.
Qed.

Lemma no_lt_occurs (a : ascii) (h c : str) :
  forallb (fun x => negb (lit_eq true a x)) c = true ->
  occurs_ci (a :: h) c = false.
Proof.
  induction c as [|x c IH]; [reflexivity|]. cbn [forallb occurs_ci starts_ci].
  intros H. apply andb_true_iff in H as [Hx H]. apply negb_true_iff in Hx.
  now rewrite Hx, IH.
Qed.

End RenderFacts.

(** * Further properties *)

(** ** A repetition succeeds when one of its runs does *)

Module ReMore.

Import ReFacts MtFacts.

Section RepeatedSetSome.

Context {A : Type}.
Variables (ic negated : bool) (items : list item) (lo : nat).
Variable k : @cont A.

Let body : option ascii -> str -> groups -> @cont A -> option A :=
  fun prev' s' g' k' => mt ic (Set_ negated items) prev' s' g' k'.

Let P := cls ic negated items.

Lemma rep_loop_some (greedy : bool) (a b : str) :
  forall fuel cnt prev g r,
    length a <= fuel ->
    forallb P a = true ->
    lo <= cnt + length a ->
    k (prev_after prev a) b g = Some r ->
    exists r', rep_loop body greedy lo None k fuel cnt prev (a ++ b) g = Some r'.
Proof.
  induction a as [|c a IH]; intros fuel cnt prev g r Hf Ha Hlo Hk.
  - cbn [app length] in *. unfold prev_after in Hk. cbn in Hk.
    assert (L : (lo <=? cnt) = true) by (apply Nat.leb_le; lia).
    destruct fuel; cbn [rep_loop]; destruct greedy; cbn [orelse];
      rewrite ?L, ?Hk; cbn [orelse]; eauto.
    destruct (if below cnt None then _ else None); cbn [orelse];
      rewrite ?L, ?Hk; eauto.
  - destruct fuel as [|fuel]; [cbn in Hf; lia|].
    cbn [forallb] in Ha. apply andb_true_iff in Ha as [Hc Ha].
    rewrite prev_after_cons in Hk.
    destruct (IH fuel (S cnt) (Some c) g r) as [r' E]; auto;
      [cbn in Hf; lia | cbn in Hlo; lia |].
    cbn [rep_loop app below body mt].
    unfold P, cls in Hc. rewrite Hc.
    assert (L : (length (a ++ b) <? length (c :: a ++ b)) = true)
      by (apply Nat.ltb_lt; cbn; lia).
    rewrite L, E. destruct greedy; cbn [orelse]; [eauto|].
    destruct (lo <=? cnt); cbn [orelse]; [|eauto].
    destruct (k prev (c :: a ++ b) g); cbn [orelse]; eauto.
Qed.

End RepeatedSetSome.

Lemma mt_repeat_some {A} ic negated items lo (k : @cont A) greedy prev a b g r :
  forallb (cls ic negated items) a = true ->
  lo <= length a ->
  k (prev_after prev a) b g = Some r ->
  exists r',
    mt ic (Repeat greedy lo None (Set_ negated items)) prev (a ++ b) g k
    = Some r'.
Proof.
  intros Ha Hlo Hk. cbn [mt].
  apply (rep_loop_some ic negated items lo k greedy a b _ 0 prev g r); auto.
  rewrite length_app. lia.
Qed.

End ReMore.

(** ** What [validate_email] accepts *)

Module AddressFacts.

Import PyFacts ReFacts MtFacts ReMore ExpandFacts AddressSpec.

Lemma split_none (c : ascii) (s : str) : count c s = 0 -> split c s = [s].
Proof.
  induction s as [|x s IH]; [reflexivity|].
  unfold count. cbn [filter]. unfold eqc at 1.
  destruct (Ascii.eqb_spec c x) as [->|Hne]; [discriminate|].
  intros H. cbn [split]. unfold eqc.
  destruct (Ascii.eqb_spec x c) as [->|_]; [congruence|].
  now rewrite (IH H).
Qed.

(** [local, domain = email.split('@')] on an address with one @. *)
Lemma split_at (c : ascii) (a d : str) :
  count c a = 0 -> count c d = 0 -> split c (a ++ c :: d) = [a; d].
Proof.
  intros Ha Hd. induction a as [|x a IH].
  - cbn [app split]. unfold eqc. rewrite Ascii.eqb_refl.
    now rewrite (split_none c d Hd).
  - revert Ha. unfold count. cbn [filter]. unfold eqc at 1.
    destruct (Ascii.eqb_spec c x) as [->|Hne]; [discriminate|].
    intros H. cbn [app split]. unfold eqc.
    destruct (Ascii.eqb_spec x c) as [->|_]; [congruence|].
    now rewrite (IH H).
Qed.

(** A trimmed string does not end with a space. *)
Lemma strip_last (s u : str) (c : ascii) :
  strip s = u ++ [c] -> isspace c = false.
Proof.
  unfold strip, rstrip. intros E.
  pose proof (lstrip_head (rev (lstrip s))) as H.
  apply (f_equal (@rev ascii)) in E.
  rewrite rev_involutive, rev_app_distr in E. cbn [rev app] in E.
  rewrite E in H. exact H.
Qed.

Lemma endswith_last (x c : ascii) (u : str) :
  endswith [x] (u ++ [c]) = eqc x c.
Proof.
  unfold endswith. rewrite rev_app_distr. cbn [rev app startswith].
  apply andb_true_r.
Qed.

Lemma startswith_char (x : ascii) (u v : str) :
  u <> [] -> startswith [x] (u ++ v) = startswith [x] u.
Proof.
  destruct u as [|c u]; [congruence|]. intros _. cbn [app startswith].
  reflexivity.
Qed.

(** What the pattern matches: an address of the shape, after which the
    string ends, or ends with a newline. *)
Lemma email_pattern_shape (s : str) (g : groups) :
  re_match false email_pattern s = Some g ->
  exists local name tld rest,
    s = address local name tld ++ rest /\ shaped local name tld
    /\ (rest = [] \/ exists c, rest = [c] /\ code c = 10).
Proof.
  unfold re_match, match_at.
  destruct (mt false email_pattern None s [] _) as [[rest' g']|] eqn:H;
    [intros _ | discriminate].
  unfold email_pattern, cat in H.
  rewrite mt_cat in H. apply mt_bol_inv in H as [_ H].
  rewrite mt_cat in H. apply mt_repeat_inv in H as (a & b & -> & Ha & La & H).
  cbv beta in H. rewrite mt_cat in H.
  apply mt_lit_inv in H as (c & b1 & -> & Hc & H). apply lit_eq_exact in Hc.
  subst c. rewrite mt_cat in H.
  apply mt_repeat_inv in H as (d & b2 & -> & Hd & Ld & H).
  cbv beta in H. rewrite mt_cat in H.
  apply mt_lit_inv in H as (c & b3 & -> & Hc & H). apply lit_eq_exact in Hc.
  subst c. rewrite mt_cat in H.
  apply mt_repeat_inv in H as (t & b4 & -> & Ht & Lt & H).
  cbv beta in H. apply mt_eol_inv in H as [Hend _].
  exists a, d, t, b4. split; [|split; [|exact Hend]].
  - unfold address. rewrite <- !app_assoc. cbn [app].
    rewrite <- !app_assoc. reflexivity.
  - unfold shaped. repeat split; auto.
    + intros ->. cbn in La. lia.
    + intros ->. cbn in Ld. lia.
Qed.

Lemma mt_lit_hit {A} ic p c prev s g (k : @cont A) :
  lit_eq ic p c = true -> mt ic (Lit p) prev (c :: s) g k = k (Some c) s g.
Proof. intros H. cbn [mt]. now rewrite H. Qed.

(** The pattern matches every address of the shape: the greedy runs
    give back what the rest of the pattern needs. *)
Lemma email_pattern_run {A} (k : @cont A) (local name tld : str) :
  shaped local name tld ->
  (forall prev g, exists r, k prev [] g = Some r) ->
  exists r, mt false email_pattern None (address local name tld) [] k = Some r.
Proof.
  intros (Nl & Hl & Nn & Hn & Lt & Ht) Hk.
  unfold email_pattern, cat, address.
  assert (T : forall prev g,
             exists r,
               mt false
                  (Cat (at_least 2 (Set_ false [IRange "a" "z"; IRange "A" "Z"]))
                       Eol) prev tld g k = Some r).
  { intros prev g. rewrite mt_cat.
    destruct (Hk (prev_after prev tld) g) as [r Hr]. exists r.
    rewrite <- (app_nil_r tld) at 1.
    apply mt_repeat_greedy_max; auto. }
  destruct (T (Some "."%char) []) as [r T'].
  assert (D : exists r',
             mt false
                (Cat (plus (Set_ false [IRange "a" "z"; IRange "A" "Z";
                                        IRange "0" "9"; IChar "."; IChar "-"]))
                     (Cat (Lit ".")
                          (Cat (at_least 2
                                  (Set_ false [IRange "a" "z"; IRange "A" "Z"]))
                               Eol)))
                (Some "@"%char) (name ++ "."%char :: tld) [] k = Some r').
  { rewrite mt_cat. unfold plus. eapply mt_repeat_some.
    - exact Hn.
    - destruct name; [congruence | cbn; lia].
    - cbv beta. rewrite mt_cat, mt_lit_hit by reflexivity. exact T'. }
  destruct D as [r' D]. exists r'.
  rewrite mt_cat. change (mt false Bol None ?s ?g ?k0) with (k0 None s g).
  cbv beta. rewrite mt_cat. unfold plus at 1.
  apply mt_repeat_greedy_max; auto.
  destruct local; [congruence | cbn; lia].
Qed.

Lemma email_pattern_accepts (local name tld : str) :
  shaped local name tld ->
  exists g, re_match false email_pattern (address local name tld) = Some g.
Proof.
  intros H. unfold re_match, match_at.
  destruct (email_pattern_run
              (fun _ s' g =>
                 if false && (length (address local name tld) =? length s')
                 then None else Some (s', g)) local name tld H)
    as [[rest g] E].
  - intros prev g. cbn [andb]. eauto.
  - exists g. now rewrite E.
Qed.

Lemma shaped_one_at (local name tld : str) :
  shaped local name tld ->
  count "@" local = 0 /\ count "@" (name ++ "."%char :: tld) = 0.
Proof.
  intros (_ & Hl & _ & Hn & _ & Ht). split.
  - apply (count_none _ _ _ Hl). reflexivity.
  - change (name ++ "."%char :: tld) with (name ++ ["."%char] ++ tld).
    rewrite !count_app, (count_none _ _ _ Hn), (count_none _ _ _ Ht)
      by reflexivity.
    reflexivity.
Qed.

Lemma shaped_domain_end (local name tld : str) :
  shaped local name tld ->
  endswith (lit ".") (name ++ "."%char :: tld) = false.
Proof.
  intros (_ & _ & _ & _ & Lt & Ht).
  destruct (exists_last (l := tld)) as (u & c & ->).
  { intros ->. cbn in Lt. lia. }
  change (name ++ "."%char :: u ++ [c]) with (name ++ ("."%char :: u) ++ [c]).
  rewrite app_assoc. change (lit ".") with ["."%char].
  rewrite endswith_last.
  rewrite forallb_app in Ht. apply andb_true_iff in Ht as [_ Hc].
  cbn [forallb] in Hc. rewrite andb_true_r in Hc.
  unfold eqc. destruct (Ascii.eqb_spec "." c) as [<-|_]; [|reflexivity].
  vm_compute in Hc. discriminate.
Qed.

(** The verdict on an address whose trimmed form has the shape. *)
Lemma validate_email_shaped (email local name tld : str) :
  strip email = address local name tld -> shaped local name tld ->
  validate_email email
  = if startswith (lit ".") name
    then (false, dot_reason (name ++ "."%char :: tld))
    else (true, []).
Proof.
  intros E Hs. unfold validate_email.
  assert (B : is_empty email || is_empty (strip email) = false).
  { destruct Hs as (Nl & _). rewrite E. destruct email as [|x email].
    - cbn in E. destruct local; [congruence | discriminate].
    - destruct local; [congruence | reflexivity]. }
  rewrite B, E.
  destruct (email_pattern_accepts local name tld Hs) as [g ->].
  destruct (shaped_one_at local name tld Hs) as [Cl Cd].
  assert (C : count "@" (address local name tld) = 1).
  { unfold address.
    change (local ++ "@"%char :: name ++ "."%char :: tld)
      with (local ++ ["@"%char] ++ name ++ "."%char :: tld).
    rewrite count_app, Cl, (count_app "@" ["@"%char]), Cd. reflexivity. }
  rewrite C. cbn [Nat.eqb negb]. unfold address at 1.
  rewrite (split_at "@" local _ Cl Cd).
  destruct Hs as (Nl & Hl & Nn & Hn & Lt & Ht).
  assert (L1 : (length local =? 0) = false)
    by (destruct local; [congruence | reflexivity]).
  assert (L2 : (length (name ++ "."%char :: tld) =? 0) = false)
    by (destruct name; [congruence | reflexivity]).
  rewrite L1, L2.
  rewrite (shaped_domain_end local name tld) by (repeat split; assumption).
  rewrite orb_false_r. change (lit ".") with ["."%char].
  rewrite (startswith_char "." name _ Nn). reflexivity.
Qed.

(** What is left of an address that the pattern matches after trimming
    has the shape. *)
Lemma strip_matched (email : str) (g : groups) :
  re_match false email_pattern (strip email) = Some g ->
  exists local name tld,
    strip email = address local name tld /\ shaped local name tld.
Proof.
  intros H.
  apply email_pattern_shape in H as (l & n & t & rest & E & Hs & Hend).
  exists l, n, t. split; [|exact Hs].
  destruct Hend as [-> | (c & -> & Hc)]; [now rewrite app_nil_r in E|].
  apply strip_last in E. unfold isspace, in_range in E. rewrite Hc in E.
  discriminate.
Qed.

(** [validate_email] accepts an address exactly when, once trimmed, it
    is a non-empty local part of characters of a-zA-Z0-9._%+-, an @, a
    non-empty name of characters of a-zA-Z0-9.- that does not start
    with a dot, a dot, and two or more letters. *)
Theorem validate_email_accepts_shape (email : str) :
  validate_email email = (true, []) <->
  exists local name tld,
    strip email = address local name tld /\ shaped local name tld
    /\ startswith (lit ".") name = false.
Proof.
  split.
  - intros H.
    assert (M : exists g, re_match false email_pattern (strip email) = Some g).
    { unfold validate_email in H.
      destruct (is_empty email || is_empty (strip email)); [discriminate|].
      destruct (re_match false email_pattern (strip email)) as [g|];
        [eauto | discriminate]. }
    destruct M as [g M].
    destruct (strip_matched email g M) as (l & n & t & E & Hs).
    exists l, n, t. split; [exact E|]. split; [exact Hs|].
    rewrite (validate_email_shaped email l n t E Hs) in H.
    destruct (startswith (lit ".") n); [discriminate | reflexivity].
  - intros (l & n & t & E & Hs & Hd).
    rewrite (validate_email_shaped email l n t E Hs), Hd. reflexivity.
Qed.

(** [validate_email] has four verdicts only: valid, empty, bad format,
    and a domain that starts with a dot.  The reasons "Email must
    contain exactly one @ symbol", "Local part of email is empty" and
    "Domain part of email is empty" are never given, and no domain is
    turned down for its end. *)
Theorem validate_email_verdicts (email : str) :
  validate_email email = (true, [])
  \/ validate_email email = (false, ValidateFacts.empty_reason)
  \/ validate_email email = (false, ValidateFacts.format_reason email)
  \/ exists local domain,
       strip email = local ++ "@"%char :: domain
       /\ startswith (lit ".") domain = true
       /\ validate_email email = (false, dot_reason domain).
Proof.
  destruct (is_empty email || is_empty (strip email)) eqn:B.
  { right; left. unfold validate_email. now rewrite B. }
  destruct (re_match false email_pattern (strip email)) as [g|] eqn:M.
  2:{ right; right; left. unfold validate_email. now rewrite B, M. }
  destruct (strip_matched email g M) as (l & n & t & E & Hs).
  rewrite (validate_email_shaped email l n t E Hs).
  destruct (startswith (lit ".") n) eqn:Hd; [|now left].
  right; right; right. exists l, (n ++ "."%char :: t).
  split; [exact E|]. split; [|reflexivity].
  destruct Hs as (_ & _ & Nn & _). change (lit ".") with ["."%char] in *.
  now rewrite (startswith_char "." n _ Nn).
Qed.

(** Trimming an address first does not change the verdict, so the
    callers that trim before they call get what the others get. *)
Theorem validate_email_strip (email : str) :
  validate_email (strip email) = validate_email email.
Proof.
  unfold validate_email. rewrite strip_idem.
  destruct email as [|c email]; [reflexivity|].
  cbn [is_empty orb]. now rewrite orb_diag.
Qed.

End AddressFacts.

(** ** The surname *)

Module SurnameFacts.

Import PyFacts ExpandFacts.

Lemma split_hd_count (c : ascii) (s : str) : count c (hd [] (split c s)) = 0.
Proof.
  induction s as [|x s IH]; [reflexivity|].
  cbn [split]. unfold eqc. destruct (Ascii.eqb_spec x c) as [->|Hne];
    [reflexivity|].
  destruct (split c s) as [|w ws]; cbn [hd] in *.
  - unfold count. cbn [filter]. unfold eqc.
    destruct (Ascii.eqb_spec c x) as [->|_]; [congruence | reflexivity].
  - unfold count in *. cbn [filter]. unfold eqc at 1.
    destruct (Ascii.eqb_spec c x) as [->|_]; [congruence | exact IH].
Qed.

(** The surname that [get_surname] returns holds no comma and no space
    around it, and is its own surname. *)
Theorem get_surname_clean (fullname : str) :
  contains (lit ",") (get_surname fullname) = false
  /\ strip (get_surname fullname) = get_surname fullname
  /\ get_surname (get_surname fullname) = get_surname fullname.
Proof.
  assert (H : contains (lit ",") (get_surname fullname) = false
              /\ strip (get_surname fullname) = get_surname fullname).
  { unfold get_surname. change (lit ",") with [","%char].
    destruct (contains [","%char] (strip fullname)) eqn:C.
    - split; [|apply strip_idem].
      rewrite contains_char, count_strip, split_hd_count by reflexivity.
      reflexivity.
    - split; [exact C | apply strip_idem]. }
  destruct H as [H1 H2]. split; [exact H1|]. split; [exact H2|].
  unfold get_surname at 1. rewrite H2, H1. reflexivity.
Qed.

End SurnameFacts.

(** ** The batch as a whole *)

Module BatchMore.

Import PyFacts BatchFacts.

Lemma filter_split_length {T} (f : T -> bool) (l : list T) :
  length (filter f l) + length (filter (fun x => negb (f x)) l) = length l.
Proof.
  induction l as [|x l IH]; [reflexivity|].
  cbn [filter]. destruct (f x); cbn [negb length]; lia.
Qed.

(** On a frame with the index of [read_excel], validation splits the
    rows in two: each row is either in the valid frame, as it was, or in
    the report, never both and never lost; the valid rows are the rows
    whose trimmed address is empty or accepted by [validate_email]; a
    reported row is given by its label plus two, its trimmed address,
    which is not empty, and the reason of [validate_email]. *)
Theorem batch_partition (df : DataFrame) :
  range_indexed df ->
  exists valid_df invalid_emails,
    validate_emails_in_dataframe df (lit "Email")
    = Some (valid_df, invalid_emails)
    /\ length valid_df + length invalid_emails = length df
    /\ (forall x, In x valid_df <->
                  In x df
                  /\ (strip (Email (snd x)) = []
                      \/ fst (validate_email (strip (Email (snd x)))) = true))
    /\ (forall e, In e invalid_emails <->
                  exists i row,
                    In (i, row) df
                    /\ strip (Email row) <> []
                    /\ fst (validate_email (strip (Email row))) = false
                    /\ e = mkInvalid (i + 2) (strip (Email row))
                                     (snd (validate_email (strip (Email row))))).
Proof.
  intros R.
  assert (K : forall x,
             kept x = true <->
             strip (Email (snd x)) = []
             \/ fst (validate_email (strip (Email (snd x)))) = true).
  { intros x. unfold kept, address. rewrite orb_true_iff.
    destruct (strip (Email (snd x))) as [|c u]; cbn [eqs]; split;
      intros [H|H]; auto; discriminate. }
  eexists _, _. split; [now apply validate_emails_in_dataframe_filter|].
  split; [|split].
  - rewrite length_map. apply filter_split_length.
  - intros x. rewrite filter_In, K. reflexivity.
  - intros e. rewrite in_map_iff. split.
    + intros ([i row] & <- & Hx). apply filter_In in Hx as [Hx Hk].
      exists i, row. split; [exact Hx|].
      apply negb_true_iff in Hk.
      assert (N : ~ (strip (Email row) = []
                     \/ fst (validate_email (strip (Email row))) = true)).
      { intros H. apply (K (i, row)) in H. congruence. }
      split; [tauto|]. split; [|reflexivity].
      destruct (fst (validate_email (strip (Email row)))); [tauto | reflexivity].
    + intros (i & row & Hx & Hne & Hv & ->).
      exists (i, row). split; [reflexivity|].
      apply filter_In. split; [exact Hx|].
      apply negb_true_iff. destruct (kept (i, row)) eqn:E; [|reflexivity].
      apply (K (i, row)) in E. cbn [snd] in E. destruct E; congruence.
Qed.

Lemma batch_partition_witness :
  exists valid_df invalid_emails,
    validate_emails_in_dataframe sample_frame (lit "Email")
    = Some (valid_df, invalid_emails)
    /\ length valid_df + length invalid_emails = length sample_frame
    /\ (forall x, In x valid_df <->
                  In x sample_frame
                  /\ (strip (Email (snd x)) = []
                      \/ fst (validate_email (strip (Email (snd x)))) = true))
    /\ (forall e, In e invalid_emails <->
                  exists i row,
                    In (i, row) sample_frame
                    /\ strip (Email row) <> []
                    /\ fst (validate_email (strip (Email row))) = false
                    /\ e = mkInvalid (i + 2) (strip (Email row))
                                     (snd (validate_email (strip (Email row))))).
Proof.
  apply (batch_partition sample_frame). reflexivity.
Defined.

(** The valid frame is fetched by position with the labels of the rows
    that the loop keeps. *)
Lemma validate_emails_in_dataframe_iloc (df : DataFrame) :
  validate_emails_in_dataframe df (lit "Email")
  = match map fst (filter kept df) with
    | [] => Some ([], map reported (filter (fun x => negb (kept x)) df))
    | labels =>
        option_map
          (fun v => (v, map reported (filter (fun x => negb (kept x)) df)))
          (iloc df labels)
    end.
Proof.
  unfold validate_emails_in_dataframe.
  change (negb (existsb (eqs (lit "Email")) columns)) with false.
  cbn iota. rewrite validate_rows_filter.
  destruct (map fst (filter kept df)) as [|i l]; [reflexivity|].
  destruct (iloc df (i :: l)); reflexivity.
Qed.

Lemma iloc_out_of_bounds (df : DataFrame) (positions : list nat) (p : nat) :
  In p positions -> length df <= p -> iloc df positions = None.
Proof.
  intros Hin Hp. induction positions as [|q positions IH]; [destruct Hin|].
  cbn [iloc]. destruct Hin as [->|Hin].
  - apply nth_error_None in Hp. now rewrite Hp.
  - rewrite (IH Hin). destruct (nth_error df q); reflexivity.
Qed.

(** [validate_emails_in_dataframe] takes the labels of the rows for
    their positions: on a frame where a row that it keeps has a label
    that is not below the number of rows, it fails with the IndexError
    of [iloc]. *)
Theorem kept_label_out_of_bounds (df : DataFrame) (i : nat) (row : Row) :
  In (i, row) df ->
  strip (Email row) = [] \/ fst (validate_email (strip (Email row))) = true ->
  length df <= i ->
  validate_emails_in_dataframe df (lit "Email") = None.
Proof.
  intros Hin Hk Hi. rewrite validate_emails_in_dataframe_iloc.
  assert (K : kept (i, row) = true).
  { unfold kept, address. cbn [snd]. destruct Hk as [-> | ->];
      [apply orb_true_r | reflexivity]. }
  assert (L : In i (map fst (filter kept df))).
  { apply in_map_iff. exists (i, row). split; [reflexivity|].
    apply filter_In. now split. }
  pose proof (iloc_out_of_bounds df _ i L Hi) as E.
  destruct (map fst (filter kept df)) as [|j l]; [destruct L|].
  rewrite E. reflexivity.
Qed.

Lemma kept_label_out_of_bounds_witness :
  validate_emails_in_dataframe
    [(5, mkRow (lit "Reyes, Ana") (lit "ana@example.com") [] (lit "b.pdf"))]
    (lit "Email") = None.
Proof.
  apply (kept_label_out_of_bounds _ 5
           (mkRow (lit "Reyes, Ana") (lit "ana@example.com") [] (lit "b.pdf"))).
  - left. reflexivity.
  - right. vm_compute. reflexivity.
  - cbn. lia.
Defined.

End BatchMore.

(** ** The calls of one attempt *)

Module AttemptFacts.

Import Worker Trace SendSpec AttemptSpec SendFacts.

Lemma raised_cons_ok (c : Call) (cs : list (Call * bool)) :
  raised ((c, false) :: cs) = raised cs.
Proof. reflexivity. Qed.

Section Attempt.

Variable World : Type.
Variable respond : World -> Call -> Result * World.
Variable path_exists : World -> str -> bool.
Variable self : EmailWorker.

Let St := St World.
Let M := M World.
Let call := call respond.

Local Abbreviation plays := (AttemptSpec.plays respond).

Lemma cause_cons (c : Call) (b : bool) (r : Result) (w w1 w' : World)
    (cs : list (Call * bool)) (e : str) :
  respond w c = (r, w1) ->
  cause respond w1 cs e w' -> cause respond w ((c, b) :: cs) e w'.
Proof.
  intros E (pre & c' & -> & H). exists ((c, b) :: pre), c'.
  split; [reflexivity|]. cbn [map fst after]. rewrite E. exact H.
Qed.

Lemma cause_one (c : Call) (w w' : World) (e : str) :
  respond w c = (Raised e, w') -> cause respond w [(c, true)] e w'.
Proof. intros E. exists [], c. split; [reflexivity | exact E]. Qed.

Ltac caused :=
  cbn [world] in *;
  first [ assumption
        | apply cause_one; assumption
        | eapply cause_cons; [eassumption | caused] ].

(** A call in front of a script that is played. *)
Lemma plays_call index message (c : Call) script rounds
    (k : Z -> M bool) :
  c <> SetBodyFormat ->
  (forall v, plays index message script rounds (k v)) ->
  plays index message (c :: script) rounds (bind (call c) k).
Proof.
  intros Hne Hk s. unfold call, Worker.bind, Worker.call.
  destruct (respond (world s) c) as [[v|e] w] eqn:Er.
  - match goal with
    | |- context [k v ?s1] =>
        destruct (Hk v s1) as (o & s' & naps & cs & E & R & Ev & C & P & B)
    end.
    exists o, s', naps, ((c, false) :: cs). split; [exact E|].
    cbn [reads events calls] in R, Ev, C.
    split; [exact R|]. split; [exact Ev|].
    split; [rewrite C, <- app_assoc; reflexivity|]. split; [|destruct o; [exact B | caused]].
    destruct P as (N & L & (polls & rest & Hp & Hq & Hl & Hr) & F).
    split; [exact N|]. split; [exact L|]. split.
    + exists polls, rest. cbn [map fst app]. rewrite Hp. auto.
    + destruct (went o); [exact F|].
      destruct F as (pre & c' & -> & Hc' & Hpre).
      exists ((c, false) :: pre), c'. auto.
  - eexists (Raise e), _, [], [(c, true)]. split; [reflexivity|].
    cbn [reads events calls went app]. rewrite app_nil_r.
    split; [reflexivity|]. split; [reflexivity|]. split; [reflexivity|].
    split; [|caused].
    split; [constructor|]. split; [cbn; lia|]. split.
    + exists [], script. cbn [map fst app]. rewrite app_nil_r.
      split; [reflexivity|]. split; [reflexivity|]. split; [cbn; lia | discriminate].
    + exists [], c. split; [reflexivity|]. split; [exact Hne | constructor].
Qed.

(** [try: mail.BodyFormat = 2 except Exception: pass] in front of a
    script that is played. *)
Lemma plays_body_format index message script rounds (k : unit -> M bool) :
  (forall u, plays index message script rounds (k u)) ->
  plays index message (SetBodyFormat :: script) rounds
    (bind (try_except (bind (call SetBodyFormat) (fun _ => ret tt))
                      (fun _ => ret tt)) k).
Proof.
  intros Hk s. unfold call, Worker.bind, Worker.try_except, Worker.call.
  destruct (respond (world s) SetBodyFormat) as [[v|e] w] eqn:Er; cbn [ret].
  - match goal with
    | |- context [k tt ?s1] =>
        destruct (Hk tt s1) as (o & s' & naps & cs & E & R & Ev & C & P & B)
    end.
    exists o, s', naps, ((SetBodyFormat, false) :: cs). split; [exact E|].
    cbn [reads events calls] in R, Ev, C.
    split; [exact R|]. split; [exact Ev|].
    split; [rewrite C, <- app_assoc; reflexivity|]. split; [|destruct o; [exact B | caused]].
    destruct P as (N & L & (polls & rest & Hp & Hq & Hl & Hr) & F).
    split; [exact N|]. split; [exact L|]. split.
    + exists polls, rest. cbn [map fst app]. rewrite Hp. auto.
    + destruct (went o); [exact F|].
      destruct F as (pre & c' & -> & Hc' & Hpre).
      exists ((SetBodyFormat, false) :: pre), c'. auto.
  - match goal with
    | |- context [k tt ?s1] =>
        destruct (Hk tt s1) as (o & s' & naps & cs & E & R & Ev & C & P & B)
    end.
    exists o, s', naps, ((SetBodyFormat, true) :: cs). split; [exact E|].
    cbn [reads events calls] in R, Ev, C.
    split; [exact R|]. split; [exact Ev|].
    split; [rewrite C, <- app_assoc; reflexivity|]. split; [|destruct o; [exact B | caused]].
    destruct P as (N & L & (polls & rest & Hp & Hq & Hl & Hr) & F).
    split; [exact N|]. split; [exact L|]. split.
    + exists polls, rest. cbn [map fst app]. rewrite Hp. auto.
    + destruct (went o).
      * unfold raised. cbn [filter snd map fst]. constructor; [reflexivity|].
        exact F.
      * destruct F as (pre & c' & -> & Hc' & Hpre).
        exists ((SetBodyFormat, true) :: pre), c'.
        split; [reflexivity|]. split; [exact Hc'|].
        unfold raised. cbn [filter snd map fst]. constructor; [reflexivity|].
        exact Hpre.
Qed.

(** The wait and the report that follows it. *)
Lemma plays_wait index message (rounds : nat) (start_sent_count : Z) :
  plays index message [] rounds
    (bind (wait_sent respond rounds start_sent_count)
          (fun _ => bind (emit (status_updated index Sent))
                      (fun _ => bind (emit (log_updated message))
                                  (fun _ => ret true)))).
Proof.
  assert (Done : forall s : St,
             exists o s' naps cs,
               bind (ret tt)
                 (fun _ => bind (emit (status_updated index Sent))
                             (fun _ => bind (emit (log_updated message))
                                         (fun _ => ret true))) s = (o, s')
               /\ reads s' = reads s
               /\ events s' = events s ++ naps
                              ++ (if went o
                                  then [status_updated index Sent;
                                        log_updated message]
                                  else [])
               /\ calls s' = calls s ++ cs
               /\ played [] 0 (went o) naps cs
               /\ match o with
                  | Ret b => b = true
                  | Raise e => cause respond (world s) cs e (world s')
                  end).
  { intros s. eexists (Ret true), _, [], []. split; [reflexivity|].
    cbn [reads events calls went app]. rewrite app_nil_r, <- app_assoc.
    split; [reflexivity|]. split; [reflexivity|]. split; [reflexivity|].
    split; [|reflexivity].
    split; [constructor|]. split; [cbn; lia|]. split; [|constructor].
    exists [], []. cbn. repeat split; auto. }
  induction rounds as [|rounds IH]; intros s; [exact (Done s)|].
  cbn [wait_sent]. unfold Worker.bind at 1 2. unfold Worker.call at 1.
  destruct (respond (world s) OutboxItemsCount) as [[v|e] w] eqn:Er1.
  2:{ eexists (Raise e), _, [], [(OutboxItemsCount, true)].
      split; [reflexivity|].
      cbn [reads events calls went app]. rewrite app_nil_r.
      split; [reflexivity|]. split; [reflexivity|]. split; [reflexivity|].
      split; [|caused].
      split; [constructor|]. split; [cbn; lia|]. split.
      - exists [OutboxItemsCount], []. cbn [map fst app forallb poll andb length].
        repeat split; auto. lia.
      - exists [], OutboxItemsCount. split; [reflexivity|].
        split; [discriminate | constructor]. }
  destruct (v =? 0)%Z.
  { match goal with
    | |- context [Worker.ret tt ?s1] =>
        destruct (Done s1) as (o & s' & naps & cs & E & R & Ev & C & P & B)
    end.
    unfold Worker.bind at 1 in E.
    exists o, s', naps, ((OutboxItemsCount, false) :: cs).
    split; [exact E|]. cbn [reads events calls] in R, Ev, C.
    split; [exact R|]. split; [exact Ev|].
    split; [rewrite C, <- app_assoc; reflexivity|]. split; [|destruct o; [exact B | caused]].
    destruct P as (N & L & (polls & rest & Hp & Hq & Hl & Hr) & F).
    split; [exact N|]. split; [lia|]. split.
    - exists (OutboxItemsCount :: polls), rest. cbn [map fst app] in *.
      rewrite Hp. cbn [forallb poll andb length]. repeat split; auto. lia.
    - destruct (went o); [exact F|].
      destruct F as (pre & c' & -> & Hc' & Hpre).
      exists ((OutboxItemsCount, false) :: pre), c'. auto. }
  unfold Worker.bind at 1. unfold Worker.call at 1. cbn [world].
  destruct (respond w SentItemsCount) as [[v2|e] w2] eqn:Er2.
  2:{ eexists (Raise e), _, [],
        [(OutboxItemsCount, false); (SentItemsCount, true)].
      split; [reflexivity|].
      cbn [reads events calls went app]. rewrite app_nil_r, <- app_assoc.
      split; [reflexivity|]. split; [reflexivity|]. split; [reflexivity|].
      split; [|caused].
      split; [constructor|]. split; [cbn; lia|]. split.
      - exists [OutboxItemsCount; SentItemsCount], [].
        cbn [map fst app forallb poll andb length]. repeat split; auto. lia.
      - exists [(OutboxItemsCount, false)], SentItemsCount.
        split; [reflexivity|]. split; [discriminate | constructor]. }
  cbn [reads events calls].
  destruct (v2 >? start_sent_count)%Z.
  { match goal with
    | |- context [Worker.ret tt ?s1] =>
        destruct (Done s1) as (o & s' & naps & cs & E & R & Ev & C & P & B)
    end.
    unfold Worker.bind at 1 in E.
    exists o, s', naps,
      ((OutboxItemsCount, false) :: (SentItemsCount, false) :: cs).
    split; [exact E|]. cbn [reads events calls] in R, Ev, C.
    split; [exact R|]. split; [exact Ev|].
    split; [rewrite C, <- !app_assoc; reflexivity|]. split; [|destruct o; [exact B | caused]].
    destruct P as (N & L & (polls & rest & Hp & Hq & Hl & Hr) & F).
    split; [exact N|]. split; [lia|]. split.
    - exists (OutboxItemsCount :: SentItemsCount :: polls), rest.
      cbn [map fst app] in *.
      rewrite Hp. cbn [forallb poll andb length]. repeat split; auto. lia.
    - destruct (went o); [exact F|].
      destruct F as (pre & c' & -> & Hc' & Hpre).
      exists ((OutboxItemsCount, false) :: (SentItemsCount, false) :: pre), c'.
      auto. }
  unfold Worker.bind at 1. unfold Worker.emit at 1.
  cbn [world reads events calls].
  match goal with
  | |- context [wait_sent respond rounds start_sent_count ?s1] =>
      destruct (IH s1) as (o & s' & naps & cs & E & R & Ev & C & P & B)
  end.
  unfold Worker.bind at 1 in E.
  exists o, s', (sleep 1 :: naps),
    ((OutboxItemsCount, false) :: (SentItemsCount, false) :: cs).
  split; [exact E|]. cbn [reads events calls] in R, Ev, C.
  split; [exact R|].
  split; [rewrite Ev, <- !app_assoc; reflexivity|].
  split; [rewrite C, <- !app_assoc; reflexivity|]. split; [|destruct o; [exact B | caused]].
  destruct P as (N & L & (polls & rest & Hp & Hq & Hl & Hr) & F).
  split; [constructor; [reflexivity | exact N]|].
  split; [cbn [length]; lia|]. split.
  - exists (OutboxItemsCount :: SentItemsCount :: polls), rest.
    cbn [map fst app] in *.
    rewrite Hp. cbn [forallb poll andb length]. repeat split; auto. lia.
  - destruct (went o); [exact F|].
    destruct F as (pre & c' & -> & Hc' & Hpre).
    exists ((OutboxItemsCount, false) :: (SentItemsCount, false) :: pre), c'.
    auto.
Qed.

Lemma plays_ext index message script rounds (m m' : M bool) :
  (forall s, m s = m' s) ->
  plays index message script rounds m' -> plays index message script rounds m.
Proof. intros E H s. rewrite E. apply H. Qed.

(** [if cc_value: mail.CC = cc_value] in front of a script that is
    played. *)
Lemma plays_cc index message (cc : str) script rounds (k : unit -> M bool) :
  (forall u, plays index message script rounds (k u)) ->
  plays index message ((if is_empty cc then [] else [SetCC cc]) ++ script)
    rounds
    (bind (if negb (is_empty cc)
           then bind (call (SetCC cc)) (fun _ => ret tt)
           else ret tt) k).
Proof.
  intros Hk. destruct (is_empty cc); cbn [negb app].
  - apply (plays_ext _ _ _ _ _ (k tt)); [|apply Hk]. intros s0. reflexivity.
  - apply (plays_ext _ _ _ _ _ (bind (call (SetCC cc)) (fun _ => k tt))).
    + intros s0. unfold call, Worker.bind, Worker.call, Worker.ret.
      destruct (respond (world s0) (SetCC cc)) as [[v|e] w]; reflexivity.
    + apply plays_call; [discriminate | intros _; apply Hk].
Qed.

Let send := _send_single_email respond path_exists self.

(** One attempt in full: the row is turned down for its address, or for
    its attachment, before any call; or the script of its mail is
    played. *)
Lemma send_trace (row : Row) (index : nat) (s : St) :
  exists b s' naps message cs,
    send row index s = (Ret b, s')
    /\ reads s' = reads s
    /\ events s' = events s ++ naps
                   ++ [status_updated index (if b then Sent else Failed);
                       log_updated message]
    /\ calls s' = calls s ++ cs
    /\ ((is_empty (strip (Email row)) = true
         /\ b = false /\ naps = [] /\ cs = [] /\ world s' = world s
         /\ message = no_email index)
        \/ (is_empty (strip (Email row)) = false
            /\ path_exists (world s) (strip (Attachment_Path row)) = false
            /\ b = false /\ naps = [] /\ cs = [] /\ world s' = world s
            /\ message = no_attachment row)
        \/ (is_empty (strip (Email row)) = false
            /\ path_exists (world s) (strip (Attachment_Path row)) = true
            /\ played (mail_script self row) 30 b naps cs
            /\ if b then message = sent_to row
               else exists e,
                      cause respond (world s) cs e (world s')
                      /\ message = error_message row e)).
Proof.
  unfold send, _send_single_email. cbv zeta. unfold Worker.try_except.
  destruct (is_empty (strip (Email row))) eqn:He.
  { eexists false, _, [], _, []. split; [reflexivity|].
    cbn [reads events calls world app]. rewrite app_nil_r, <- app_assoc.
    split; [reflexivity|]. split; [reflexivity|]. split; [reflexivity|].
    left. repeat split; reflexivity. }
  unfold Worker.bind at 1. unfold os_path_exists at 1.
  destruct (path_exists (world s) (strip (Attachment_Path row))) eqn:Hp;
    cbn [negb].
  2:{ eexists false, _, [], _, []. split; [reflexivity|].
      cbn [reads events calls world app]. rewrite app_nil_r, <- app_assoc.
      split; [reflexivity|]. split; [reflexivity|]. split; [reflexivity|].
      right; left. repeat split; reflexivity. }
  match goal with
  | |- context [match ?m s with _ => _ end] =>
      assert (H : plays index (sent_to row) (mail_script self row) 30 m)
  end.
  { unfold mail_script.
    apply plays_call; [discriminate | intros start].
    apply plays_call; [discriminate | intros _].
    apply plays_call; [discriminate | intros _].
    apply plays_cc; intros _.
    apply plays_call; [discriminate | intros _].
    apply plays_body_format; intros _.
    apply plays_call; [discriminate | intros _].
    apply plays_call; [discriminate | intros _].
    apply plays_call; [discriminate | intros _].
    apply plays_call; [discriminate | intros _].
    apply plays_call; [discriminate | intros _].
    apply plays_wait. }
  destruct (H s) as (o & s1 & naps & cs & E & R & Ev & C & P & B). rewrite E.
  destruct o as [b|e]; cbn [went] in *.
  - subst b. eexists true, s1, naps, _, cs. split; [reflexivity|].
    split; [exact R|]. split; [exact Ev|]. split; [exact C|].
    right; right. split; [reflexivity|]. split; [reflexivity|].
    split; [exact P | reflexivity].
  - eexists false, _, naps, _, cs. split; [reflexivity|].
    cbn [reads events calls world].
    split; [exact R|].
    split; [rewrite Ev, <- !app_assoc; reflexivity|].
    split; [exact C|].
    right; right. split; [reflexivity|]. split; [reflexivity|].
    split; [exact P|]. exists e. split; [exact B | reflexivity].
Qed.

Lemma mail_script_calls (row : Row) :
  forallb mail_call (mail_script self row) = true.
Proof. unfold mail_script. destruct (is_empty (strip (CC row))); reflexivity. Qed.

Lemma poll_mail_call (polls : list Call) :
  forallb poll polls = true -> forallb mail_call polls = true.
Proof.
  induction polls as [|c polls IH]; [reflexivity|]. cbn [forallb].
  intros H. apply andb_true_iff in H as [Hc H]. rewrite (IH H).
  destruct c; try discriminate; reflexivity.
Qed.

Lemma played_nonempty script rounds b naps cs :
  script <> [] -> played script rounds b naps cs -> cs <> [].
Proof.
  intros Hs (_ & _ & (polls & rest & Hp & _ & _ & Hr) & F) ->.
  destruct b.
  - rewrite (Hr eq_refl) in Hp. cbn in Hp. symmetry in Hp.
    apply app_eq_nil in Hp as [Hp _]. contradiction.
  - destruct F as (pre & c & E & _). destruct pre; discriminate.
Qed.

Lemma played_mail_calls (row : Row) rounds b naps cs :
  played (mail_script self row) rounds b naps cs ->
  forallb mail_call (map fst cs) = true.
Proof.
  intros (_ & _ & (polls & rest & Hp & Hq & _) & _).
  assert (H : forallb mail_call (map fst cs ++ rest) = true).
  { rewrite Hp, forallb_app, mail_script_calls, (poll_mail_call _ Hq).
    reflexivity. }
  rewrite forallb_app in H. now apply andb_true_iff in H as [H _].
Qed.

Lemma mail_script_nonempty (row : Row) : mail_script self row <> [].
Proof. discriminate. Qed.

(** When [_send_single_email] returns [True], the row had an address
    and its attachment was there; the mail was created, addressed to
    the trimmed address, given the subject and the body built for the
    row, the attachment added and [Send] called, in this order and
    before anything else but polls of the two folders, sixty at most;
    and all these calls returned, but perhaps the setting of the body
    format. *)
Theorem sent_after_send (row : Row) (index : nat) (s s' : St) :
  send row index s = (Ret true, s') ->
  is_empty (strip (Email row)) = false
  /\ path_exists (world s) (strip (Attachment_Path row)) = true
  /\ exists cs polls,
       calls s' = calls s ++ cs
       /\ map fst cs = mail_script self row ++ polls
       /\ forallb poll polls = true /\ length polls <= 60
       /\ In (Send, false) cs
       /\ Forall (eq SetBodyFormat) (raised cs).
Proof.
  intros E.
  destruct (send_trace row index s)
    as (b & s1 & naps & message & cs & E1 & _ & _ & C & H).
  fold send in E1. rewrite E in E1. inversion E1; subst b s1. clear E1.
  destruct H as [(_ & Hb & _) | [(_ & _ & Hb & _) | (He & Hp & P & _)]];
    try discriminate.
  split; [exact He|]. split; [exact Hp|].
  destruct P as (_ & _ & (polls & rest & Hq & Hpoll & Hl & Hr) & F).
  rewrite (Hr eq_refl), app_nil_r in Hq.
  exists cs, polls. split; [exact C|]. split; [exact Hq|].
  split; [exact Hpoll|]. split; [cbn in Hl; lia|]. split; [|exact F].
  assert (Hin : In Send (map fst cs)).
  { rewrite Hq. apply in_or_app. left. unfold mail_script.
    apply in_or_app. right. apply in_or_app. right. cbn. tauto. }
  apply in_map_iff in Hin as ([c [|]] & Hc & Hin); cbn [fst] in Hc; subst c;
    [|exact Hin].
  exfalso. rewrite Forall_forall in F.
  assert (D : SetBodyFormat = Send); [|discriminate].
  apply F. unfold raised. apply in_map_iff. exists (Send, true).
  split; [reflexivity|]. apply filter_In. split; [exact Hin | reflexivity].
Qed.

(** A row fails in one of two ways.  No call is made exactly when the
    trimmed address is empty or the attachment is not there: then
    nothing is touched and the log line says which, the address being
    looked at first.  Otherwise the last call made raised, it was not
    the setting of the body format, and the log line is that of the
    handler with the exception of that call: the one with which Outlook
    answered it, in the state in which the calls before it had left
    it. *)
Theorem failed_attempt_cause (row : Row) (index : nat) (s : St) :
  exists b s' naps message cs,
    send row index s = (Ret b, s')
    /\ events s' = events s ++ naps
                   ++ [status_updated index (if b then Sent else Failed);
                       log_updated message]
    /\ calls s' = calls s ++ cs
    /\ (cs = [] <->
        is_empty (strip (Email row)) = true
        \/ path_exists (world s) (strip (Attachment_Path row)) = false)
    /\ (cs = [] ->
        b = false /\ naps = [] /\ world s' = world s
        /\ message = if is_empty (strip (Email row))
                     then no_email index else no_attachment row)
    /\ (b = false -> cs <> [] ->
        exists pre c e,
          cs = pre ++ [(c, true)] /\ c <> SetBodyFormat
          /\ mail_call c = true
          /\ Forall (eq SetBodyFormat) (raised pre)
          /\ respond (after respond (world s) (map fst pre)) c
             = (Raised e, world s')
          /\ message = error_message row e).
Proof.
  destruct (send_trace row index s)
    as (b & s' & naps & message & cs & E & _ & Ev & C & H).
  exists b, s', naps, message, cs.
  split; [exact E|]. split; [exact Ev|]. split; [exact C|].
  destruct H as [(He & Hb & Hn & Hc & Hw & Hm)
                | [(He & Hp & Hb & Hn & Hc & Hw & Hm)
                  | (He & Hp & P & Hm)]].
  - split; [tauto|]. split; [|congruence]. intros _. rewrite He. auto.
  - split; [tauto|]. split; [|congruence]. intros _. rewrite He. auto.
  - pose proof (played_nonempty _ _ _ _ _ (mail_script_nonempty row) P) as Hne.
    split.
    { split; [contradiction|]. intros [H | H]; congruence. }
    split; [contradiction|]. intros Hb _. subst b.
    pose proof (played_mail_calls _ _ _ _ _ P) as Hall.
    destruct P as (_ & _ & _ & pre & c & Hcs & Hc & Hpre).
    destruct Hm as (e & (pre' & c' & Hcs' & Hr) & Hm). exists pre, c, e.
    rewrite Hcs in Hcs'. apply app_inj_tail in Hcs' as [<- Hcc].
    inversion Hcc; subst c'.
    split; [exact Hcs|]. split; [exact Hc|]. split; [|auto].
    rewrite Hcs, map_app, forallb_app in Hall.
    apply andb_true_iff in Hall as [_ Hall]. cbn in Hall.
    now rewrite andb_true_r in Hall.
Qed.

(** The report that ends a successful attempt, and the handler of
    [_send_single_email]. *)
Let report (row : Row) (index : nat) : M bool :=
  bind (emit (status_updated index Sent))
    (fun _ => bind (emit (log_updated (sent_to row))) (fun _ => ret true)).

Let handler (row : Row) (index : nat) (e : str) : M bool :=
  bind (emit (status_updated index Failed))
    (fun _ => bind (emit (log_updated (error_message row e)))
                (fun _ => ret false)).

Lemma bind_body_format_ok {B} (k : unit -> M B) w r evs cs v w' :
  respond w SetBodyFormat = (Returned v, w') ->
  bind (try_except (bind (Worker.call respond SetBodyFormat) (fun _ => ret tt))
                   (fun _ => ret tt)) k (mkSt w r evs cs)
  = k tt (mkSt w' r evs (cs ++ [(SetBodyFormat, false)])).
Proof.
  intros H. unfold Worker.bind, Worker.try_except, Worker.call.
  cbn [world]. rewrite H. reflexivity.
Qed.

Lemma bind_cc_ok {B} (cc : str) (k : unit -> M B) w r evs cs :
  (forall w, exists v w', respond w (SetCC cc) = (Returned v, w')) ->
  exists w',
    bind (if negb (is_empty cc)
          then bind (Worker.call respond (SetCC cc)) (fun _ => ret tt)
          else ret tt) k (mkSt w r evs cs)
    = k tt (mkSt w' r evs
              (cs ++ map (fun c => (c, false))
                         (if is_empty cc then [] else [SetCC cc]))).
Proof.
  intros H. destruct (is_empty cc); cbn [negb map].
  - exists w. rewrite app_nil_r. reflexivity.
  - destruct (H w) as (v & w' & E). exists w'.
    unfold Worker.bind, Worker.call. cbn [world]. rewrite E.
    reflexivity.
Qed.

(** Where every call of the script returns, an attempt on a row with an
    address and its attachment comes to its wait with the script
    played. *)
Lemma script_returns (row : Row) (index : nat) w r evs cs
    (Q : Outcome bool * St -> Prop) :
  (forall w c, c <> OutboxItemsCount ->
               exists v w', respond w c = (Returned v, w')) ->
  is_empty (strip (Email row)) = false ->
  path_exists w (strip (Attachment_Path row)) = true ->
  (forall start w0 w1,
      respond w SentItemsCount = (Returned start, w0) ->
      Q (try_except (bind (wait_sent respond 30 start)
                          (fun _ => report row index))
                    (handler row index)
           (mkSt w1 r evs
              (cs ++ map (fun c => (c, false)) (mail_script self row))))) ->
  Q (send row index (mkSt w r evs cs)).
Proof.
  intros H He Hp HQ.
  unfold send, _send_single_email. cbv zeta. rewrite He.
  unfold Worker.try_except at 1.
  unfold Worker.bind at 1. unfold os_path_exists at 1. cbn [world].
  rewrite Hp. cbn [negb].
  destruct (H w SentItemsCount) as (start & w0 & E0); [discriminate|].
  rewrite (PassFacts.bind_call_ok _ _ _ _ _ _ _ _ _ E0).
  destruct (H w0 CreateItem) as (v1 & w1 & E1); [discriminate|].
  rewrite (PassFacts.bind_call_ok _ _ _ _ _ _ _ _ _ E1).
  destruct (H w1 (SetTo (strip (Email row)))) as (v2 & w2 & E2);
    [discriminate|].
  rewrite (PassFacts.bind_call_ok _ _ _ _ _ _ _ _ _ E2).
  match goal with
  | |- context [bind (if negb (is_empty ?cc) then _ else _) ?k
                  (mkSt ?w ?r ?e ?c)] =>
      destruct (bind_cc_ok cc k w r e c) as (w3 & E3);
        [intros w'; apply H; discriminate|]
  end.
  rewrite E3. clear E3.
  destruct (H w3 (SetSubject (expand_subject self row))) as (v4 & w4 & E4);
    [discriminate|].
  rewrite (PassFacts.bind_call_ok _ _ _ _ _ _ _ _ _ E4).
  destruct (H w4 SetBodyFormat) as (v5 & w5 & E5); [discriminate|].
  rewrite (bind_body_format_ok _ _ _ _ _ _ _ E5).
  destruct (H w5 (SetHTMLBody (build_outlook_safe_html (expand_body self row)
                                 (para_spacing_px self))))
    as (v6 & w6 & E6); [discriminate|].
  rewrite (PassFacts.bind_call_ok _ _ _ _ _ _ _ _ _ E6).
  destruct (H w6 SetImportance) as (v7 & w7 & E7); [discriminate|].
  rewrite (PassFacts.bind_call_ok _ _ _ _ _ _ _ _ _ E7).
  destruct (H w7 SetReadReceiptRequested) as (v8 & w8 & E8); [discriminate|].
  rewrite (PassFacts.bind_call_ok _ _ _ _ _ _ _ _ _ E8).
  destruct (H w8 (AttachmentsAdd (strip (Attachment_Path row))))
    as (v9 & w9 & E9); [discriminate|].
  rewrite (PassFacts.bind_call_ok _ _ _ _ _ _ _ _ _ E9).
  destruct (H w9 Send) as (v10 & w10 & E10); [discriminate|].
  rewrite (PassFacts.bind_call_ok _ _ _ _ _ _ _ _ _ E10).
  specialize (HQ start w0 w10 E0).
  unfold Worker.try_except, report, handler, sent_to, error_message in HQ.
  unfold mail_script in HQ. rewrite !map_app in HQ. cbn [map] in HQ.
  rewrite <- !app_assoc. cbn [app]. rewrite <- ?app_assoc in HQ.
  cbn [app] in HQ. exact HQ.
Qed.

Lemma wait_stuck (rounds : nat) (start : Z) :
  (forall w, exists v w',
      respond w OutboxItemsCount = (Returned v, w') /\ v <> 0%Z) ->
  (forall w, exists v w',
      respond w SentItemsCount = (Returned v, w') /\ (v <= start)%Z) ->
  forall w r evs cs,
  exists w' cs',
    wait_sent respond rounds start (mkSt w r evs cs)
    = (Ret tt, mkSt w' r (evs ++ repeat (sleep 1) rounds) (cs ++ cs'))
    /\ map fst cs'
       = concat (repeat [OutboxItemsCount; SentItemsCount] rounds)
    /\ raised cs' = [].
Proof.
  intros Ho Hs. induction rounds as [|rounds IH]; intros w r evs cs.
  - exists w, []. cbn. rewrite !app_nil_r. auto.
  - cbn [wait_sent].
    destruct (Ho w) as (v & w1 & E1 & Hv).
    rewrite (PassFacts.bind_call_ok _ _ _ _ _ _ _ _ _ E1).
    apply Z.eqb_neq in Hv. rewrite Hv.
    destruct (Hs w1) as (v2 & w2 & E2 & Hv2).
    rewrite (PassFacts.bind_call_ok _ _ _ _ _ _ _ _ _ E2).
    assert (G : (v2 >? start)%Z = false)
      by (rewrite Z.gtb_ltb; apply Z.ltb_ge; exact Hv2).
    rewrite G, PassFacts.bind_emit. cbn [world reads events calls].
    destruct (IH w2 r (evs ++ [sleep 1])
                ((cs ++ [(OutboxItemsCount, false)])
                 ++ [(SentItemsCount, false)]))
      as (w' & cs' & E & Hc & Hr).
    exists w', ((OutboxItemsCount, false) :: (SentItemsCount, false) :: cs').
    rewrite E. split; [|split].
    + rewrite <- !app_assoc. reflexivity.
    + cbn [map fst repeat concat app]. now rewrite Hc.
    + exact Hr.
Qed.

(** A mail that does not leave the outbox is reported as sent all the
    same: where every call returns, the outbox is never empty and the
    count of the sent folder never grows, a row with an address and its
    attachment is reported as [Sent] after thirty naps of one second,
    its script played and the two folders polled thirty times. *)
Theorem stuck_mail_reported_sent (row : Row) (index : nat) (s : St) (n : Z) :
  (forall w c, exists v w', respond w c = (Returned v, w')) ->
  (forall w v w', respond w OutboxItemsCount = (Returned v, w') -> v <> 0%Z) ->
  (forall w v w', respond w SentItemsCount = (Returned v, w') -> v = n) ->
  is_empty (strip (Email row)) = false ->
  path_exists (world s) (strip (Attachment_Path row)) = true ->
  exists s',
    send row index s = (Ret true, s')
    /\ events s' = events s ++ repeat (sleep 1) 30
                   ++ [status_updated index Sent; log_updated (sent_to row)]
    /\ map fst (skipn (length (calls s)) (calls s'))
       = mail_script self row
         ++ concat (repeat [OutboxItemsCount; SentItemsCount] 30).
Proof.
  intros Hall Ho Hs He Hp. destruct s as [w r evs cs]. cbn [world] in Hp.
  apply script_returns; [intros w0 c _; apply Hall | exact He | exact Hp |].
  intros start w0 w1 E0. pose proof (Hs _ _ _ E0) as Hn. subst start.
  destruct (wait_stuck 30 n) with (w := w1) (r := r) (evs := evs)
    (cs := cs ++ map (fun c => (c, false)) (mail_script self row))
    as (w' & cs' & E & Hc & _).
  { intros w2. destruct (Hall w2 OutboxItemsCount) as (v & w3 & Ev).
    exists v, w3. split; [exact Ev | exact (Ho _ _ _ Ev)]. }
  { intros w2. destruct (Hall w2 SentItemsCount) as (v & w3 & Ev).
    exists v, w3. split; [exact Ev|]. rewrite (Hs _ _ _ Ev). lia. }
  unfold Worker.try_except. rewrite (PassFacts.bind_ret _ _ _ _ _ E).
  unfold report. rewrite !PassFacts.bind_emit. cbn [ret world reads events calls].
  eexists. split; [reflexivity|]. cbn [events calls].
  split; [rewrite <- !app_assoc; reflexivity|].
  rewrite <- app_assoc, skipn_app, Nat.sub_diag, skipn_all. cbn [skipn app].
  rewrite map_app, map_map, Hc. cbn [fst]. now rewrite map_id.
Qed.

Lemma error_message_inj (row : Row) (e e' : str) :
  error_message row e = error_message row e' -> e = e'.
Proof.
  unfold error_message. intros H.
  apply app_inv_head in H. apply app_inv_head in H.
  now apply app_inv_head in H.
Qed.

(** A mail that Outlook has taken can be reported as failed: where the
    calls of the script return and the look at the outbox raises, [Send]
    has returned when the handler reports the row as [Failed], and the
    log line carries the exception of the poll: the one with which
    Outlook answered the look at the outbox, in the state in which the
    script had left it. *)
Theorem failed_after_send (row : Row) (index : nat) (s : St) :
  (forall w c, c <> OutboxItemsCount ->
               exists v w', respond w c = (Returned v, w')) ->
  (forall w, exists e w', respond w OutboxItemsCount = (Raised e, w')) ->
  is_empty (strip (Email row)) = false ->
  path_exists (world s) (strip (Attachment_Path row)) = true ->
  exists e s',
    send row index s = (Ret false, s')
    /\ events s' = events s ++ [status_updated index Failed;
                                log_updated (error_message row e)]
    /\ calls s' = calls s
                  ++ map (fun c => (c, false)) (mail_script self row)
                  ++ [(OutboxItemsCount, true)]
    /\ In (Send, false) (calls s')
    /\ respond (after respond (world s) (mail_script self row))
         OutboxItemsCount
       = (Raised e, world s').
Proof.
  intros Hall Ho He Hp.
  assert (Main : exists e s',
             send row index s = (Ret false, s')
             /\ events s' = events s ++ [status_updated index Failed;
                                         log_updated (error_message row e)]
             /\ calls s' = calls s
                           ++ map (fun c => (c, false)) (mail_script self row)
                           ++ [(OutboxItemsCount, true)]
             /\ In (Send, false) (calls s')).
  { destruct s as [w r evs cs]. cbn [world] in Hp.
    apply script_returns; [exact Hall | exact He | exact Hp |].
    intros start w0 w1 E0.
    destruct (Ho w1) as (e & w2 & E).
    exists e. unfold Worker.try_except. cbn [wait_sent].
    unfold Worker.bind at 1 2. unfold Worker.call at 1. cbn [world].
    rewrite E. unfold handler. rewrite !PassFacts.bind_emit.
    cbn [ret world reads events calls].
    eexists. split; [reflexivity|]. cbn [events calls].
    split; [rewrite <- !app_assoc; reflexivity|].
    split; [rewrite <- !app_assoc; reflexivity|].
    apply in_or_app. left. apply in_or_app. right.
    apply (in_map (fun c => (c, false)) _ Send).
    unfold mail_script. apply in_or_app. right. apply in_or_app. right.
    cbn. tauto. }
  destruct Main as (e & s' & E & Ev & C & Hin).
  exists e, s'. split; [exact E|]. split; [exact Ev|]. split; [exact C|].
  split; [exact Hin|].
  destruct (send_trace row index s)
    as (b & s2 & naps & message & cs & E2 & _ & Ev2 & C2 & H).
  rewrite E in E2. inversion E2; subst b s2. clear E2.
  rewrite Ev in Ev2. apply app_inv_head in Ev2.
  rewrite C in C2. apply app_inv_head in C2.
  destruct H as [(_ & _ & _ & Hcs & _) | [(_ & _ & _ & _ & Hcs & _)
                                        | (_ & _ & _ & e' & Hc & Hm)]].
  - rewrite Hcs in C2. symmetry in C2. now apply app_cons_not_nil in C2.
  - rewrite Hcs in C2. symmetry in C2. now apply app_cons_not_nil in C2.
  - assert (Hmsg : message = error_message row e).
    { assert (Hn : naps = []).
      { apply (f_equal (@length _)) in Ev2. rewrite length_app in Ev2.
        cbn [length] in Ev2. destruct naps; [reflexivity|].
        cbn [length] in Ev2. lia. }
      subst naps. cbn [app] in Ev2. now inversion Ev2. }
    rewrite Hmsg in Hm. apply error_message_inj in Hm. subst e'.
    destruct Hc as (pre & c & Hcs & Hr).
    rewrite Hcs in C2. apply app_inj_tail in C2 as [Hpre Hc].
    inversion Hc; subst c. rewrite <- Hpre, map_map in Hr. cbn [fst] in Hr.
    now rewrite map_id in Hr.
Qed.

End Attempt.


Lemma sent_after_send_witness :
  exists s',
    _send_single_email (Sample.respond Sample.never) Sample.path_exists
      sample_job sample_row 0 (start tt) = (Ret true, s')
    /\ is_empty (strip (Email sample_row)) = false
    /\ Sample.path_exists (world (start tt))
         (strip (Attachment_Path sample_row)) = true
    /\ exists cs polls,
         calls s' = calls (start tt) ++ cs
         /\ map fst cs = mail_script sample_job sample_row ++ polls
         /\ forallb poll polls = true /\ length polls <= 60
         /\ In (Send, false) cs
         /\ Forall (eq SetBodyFormat) (raised cs).
Proof.
  set (r := _send_single_email (Sample.respond Sample.never)
              Sample.path_exists sample_job sample_row 0 (start tt)).
  assert (E : r = (Ret true, snd r)) by (vm_compute; reflexivity).
  exists (snd r). split; [exact E|].
  exact (sent_after_send unit (Sample.respond Sample.never)
           Sample.path_exists sample_job sample_row 0 (start tt) (snd r) E).
Defined.

Lemma stuck_mail_reported_sent_witness :
  exists s',
    _send_single_email stuck_outbox Sample.path_exists
      sample_job sample_row 0 (start tt) = (Ret true, s')
    /\ events s' = events (start tt) ++ repeat (sleep 1) 30
                   ++ [status_updated 0 Sent;
                       log_updated (sent_to sample_row)]
    /\ map fst (skipn (length (calls (start tt))) (calls s'))
       = mail_script sample_job sample_row
         ++ concat (repeat [OutboxItemsCount; SentItemsCount] 30).
Proof.
  apply (stuck_mail_reported_sent unit stuck_outbox Sample.path_exists
           sample_job sample_row 0 (start tt) 1%Z).
  - intros w c. exists 1%Z, w. reflexivity.
  - intros w v w' E. inversion E. discriminate.
  - intros w v w' E. inversion E. reflexivity.
  - reflexivity.
  - reflexivity.
Defined.

Lemma failed_after_send_witness :
  exists e s',
    _send_single_email (Sample.respond is_outbox) Sample.path_exists
      sample_job sample_row 0 (start tt) = (Ret false, s')
    /\ events s' = events (start tt)
                   ++ [status_updated 0 Failed;
                       log_updated (error_message sample_row e)]
    /\ calls s' = calls (start tt)
                  ++ map (fun c => (c, false))
                         (mail_script sample_job sample_row)
                  ++ [(OutboxItemsCount, true)]
    /\ In (Send, false) (calls s')
    /\ Sample.respond is_outbox
         (after (Sample.respond is_outbox) (world (start tt))
            (mail_script sample_job sample_row))
         OutboxItemsCount
       = (Raised e, world s').
Proof.
  apply (failed_after_send unit (Sample.respond is_outbox) Sample.path_exists
           sample_job sample_row 0 (start tt)).
  - intros w c Hc. exists 0%Z, w. unfold Sample.respond.
    destruct c; try reflexivity. contradiction.
  - intros w. exists (lit "busy"), w. reflexivity.
  - reflexivity.
  - reflexivity.
Defined.

End AttemptFacts.

(** ** A job from its start to its end *)

Module RunFacts.

Import Worker Trace SendSpec ConnectSpec AttemptSpec RunSpec TraceFacts.

Lemma reports_labels (rows : DataFrame) (results : list bool) :
  map fst (reports rows results) = map fst (firstn (length results) rows).
Proof.
  unfold reports. revert results.
  induction rows as [|[i r] rows IH]; intros [|b results]; cbn;
    try reflexivity.
  now rewrite IH.
Qed.

Lemma reports_attempted (rows : DataFrame) (results : list bool) :
  Forall PassSpec.attempted (reports rows results).
Proof.
  unfold reports. revert results.
  induction rows as [|[i r] rows IH]; intros [|b results]; cbn;
    try constructor; [|apply IH].
  destruct b; [left | right]; reflexivity.
Qed.

Lemma failures_within (rows : DataFrame) (results : list bool) :
  incl (failures rows results) (firstn (length results) rows).
Proof.
  unfold failures. revert results.
  induction rows as [|[i r] rows IH]; intros [|b results]; cbn;
    try (intros x []).
  destruct b; cbn [negb map fst].
  - intros x Hx. right. now apply IH.
  - intros x [<- | Hx]; [now left | right; now apply IH].
Qed.

Lemma firstn_incl {T} (n : nat) (l : list T) : incl (firstn n l) l.
Proof.
  revert l. induction n as [|n IH]; intros [|x l]; cbn [firstn];
    try (intros y Hy; now destruct Hy).
  intros y [<- | Hy]; [now left | right; now apply IH].
Qed.

Lemma firstn_labels_NoDup (n : nat) (rows : DataFrame) :
  NoDup (map fst rows) -> NoDup (map fst (firstn n rows)).
Proof.
  revert rows. induction n as [|n IH]; intros [|[i r] rows] H; cbn;
    try constructor.
  - inversion H as [|? ? Hi Hnd]; subst. intros Hin. apply Hi.
    apply in_map_iff in Hin as (x & <- & Hx). apply in_map.
    now apply (firstn_incl n rows).
  - inversion H; subst. now apply IH.
Qed.

Lemma failures_labels_NoDup (rows : DataFrame) (results : list bool) :
  NoDup (map fst rows) -> NoDup (map fst (failures rows results)).
Proof.
  unfold failures. revert results.
  induction rows as [|[i r] rows IH]; intros [|b results] H; cbn;
    try constructor.
  inversion H as [|? ? Hi Hnd]; subst.
  destruct b; cbn [negb map fst]; [now apply IH|].
  constructor; [|now apply IH].
  intros Hin. apply Hi. apply in_map_iff in Hin as (x & <- & Hx).
  apply in_map. apply (firstn_incl (length results) rows).
  now apply failures_within.
Qed.

Lemma NoDup_count_le (l : list nat) (i : nat) :
  NoDup l -> count_occ Nat.eq_dec l i <= 1.
Proof. intros H. now apply NoDup_count_occ. Qed.

Lemma attempts_of_app (a b : list Event) (i : nat) :
  attempts_of (a ++ b) i = attempts_of a i + attempts_of b i.
Proof. unfold attempts_of. now rewrite touched_app, count_occ_app. Qed.

Lemma sleeps_of_app (a b : list Event) (n : nat) :
  sleeps_of (a ++ b) n = sleeps_of a n + sleeps_of b n.
Proof. unfold sleeps_of. now rewrite sleeps_app, count_occ_app. Qed.

Lemma attempts_of_quiet (evs : list Event) (i : nat) :
  statuses evs = [] -> attempts_of evs i = 0.
Proof. unfold attempts_of, touched. now intros ->. Qed.

Lemma naps_short (naps : list Event) :
  Forall nap naps -> sleeps_of naps 2 = 0 /\ sleeps_of naps 3 = 0.
Proof.
  induction 1 as [|e naps He _ IH]; [auto|]. rewrite He. exact IH.
Qed.

Lemma failed_attempts_short (attempts : list nat) (errors : list str) :
  sleeps_of (failed_attempts attempts errors) 2 = 0.
Proof.
  unfold failed_attempts. revert errors.
  induction attempts as [|a attempts IH]; intros [|e errors]; cbn; auto.
  apply IH.
Qed.

Lemma failed_attempts_sleeps (attempts : list nat) (errors : list str) :
  length errors <= length attempts ->
  sleeps (failed_attempts attempts errors) = repeat 3 (length errors).
Proof.
  unfold failed_attempts. revert errors.
  induction attempts as [|a attempts IH]; intros [|e errors]; cbn; auto;
    intros H; try lia.
  f_equal. apply IH. lia.
Qed.

Lemma in_repeat {T} (x y : T) (n : nat) : In x (repeat y n) -> x = y.
Proof. intros H. symmetry. now apply repeat_spec in H. Qed.

Lemma touched_quiet (evs : list Event) : statuses evs = [] -> touched evs = [].
Proof. unfold touched. now intros ->. Qed.

Ltac tidy := repeat (progress cbn [app] || rewrite <- app_assoc).

Lemma after_app {World} (respond : World -> Call -> Result * World)
    (a b : list Call) :
  forall w, after respond w (a ++ b) = after respond (after respond w a) b.
Proof.
  induction a as [|c a IH]; intros w; [reflexivity|].
  cbn [app after]. apply IH.
Qed.

Section Run.

Variable World : Type.
Variable respond : World -> Call -> Result * World.
Variable path_exists : World -> str -> bool.
Variable running_at : nat -> bool.
Variable percent_of : nat -> nat -> Z.
Variable self : EmailWorker.

Let send := _send_single_email respond path_exists self.

(** What one attempt adds, as the passes see it. *)
Lemma send_summary (row : Row) (index : nat) (s : St World) :
  exists b s' evs cs,
    send row index s = (Ret b, s')
    /\ reads s' = reads s
    /\ events s' = events s ++ evs
    /\ calls s' = calls s ++ cs
    /\ statuses evs = [(index, if b then Sent else Failed)]
    /\ progresses evs = []
    /\ finished_count evs = 0
    /\ sleeps_of evs 2 = 0
    /\ forallb mail_call (map fst cs) = true
    /\ (hopeless path_exists row -> b = false).
Proof.
  destruct (AttemptFacts.send_trace World respond path_exists self row index s)
    as (b & s' & naps & message & cs & E & R & Ev & C & H).
  assert (N : Forall nap naps /\ forallb mail_call (map fst cs) = true
              /\ (hopeless path_exists row -> b = false)).
  { destruct H as [(_ & -> & -> & -> & _) | [(_ & _ & -> & -> & -> & _)
                                            | (He & Hp & P & _)]].
    - split; [constructor|]. split; reflexivity.
    - split; [constructor|]. split; reflexivity.
    - split; [exact (proj1 P)|].
      split; [exact (AttemptFacts.played_mail_calls self row _ _ _ _ P)|].
      intros [Hh | Hh]; [congruence | rewrite Hh in Hp; discriminate]. }
  destruct N as (N & Hc & Hh).
  exists b, s', (naps ++ [status_updated index (if b then Sent else Failed);
                          log_updated message]), cs.
  destruct (PassFacts.naps_quiet naps N) as (Hs & Hp & Hf).
  destruct (naps_short naps N) as (H2 & _).
  rewrite statuses_app, progresses_app, finished_count_app, sleeps_of_app,
    Hs, Hp, Hf, H2.
  repeat split; auto.
Qed.

Lemma first_pass_trace (total : nat) (rows : DataFrame) :
  forall processed_count failed_emails (s : St World),
  exists results s' evs cs,
    first_pass respond path_exists running_at percent_of self total rows
      processed_count failed_emails s
    = (Ret (failed_emails ++ failures rows results), s')
    /\ events s' = events s ++ evs
    /\ calls s' = calls s ++ cs
    /\ length results <= length rows
    /\ (forall j, j < length results -> running_at (reads s + j) = true)
    /\ (length results < length rows ->
        running_at (reads s + length results) = false)
    /\ statuses evs = reports rows results
    /\ progresses evs
       = map (fun i => percent_of i total)
             (seq (processed_count + 1) (length results))
    /\ finished_count evs = 0
    /\ sleeps_of evs 2 = 0
    /\ forallb mail_call (map fst cs) = true
    /\ results_of path_exists rows results.
Proof.
  induction rows as [|[index row] rows IH]; intros processed failed s.
  - exists [], s, [], []. cbn. rewrite !app_nil_r.
    repeat split; auto; try (intros; lia). constructor.
  - cbn [first_pass]. rewrite PassFacts.bind_running.
    destruct (running_at (reads s)) eqn:Hgo; cbn [negb].
    + destruct (send_summary row index
                  (mkSt (world s) (S (reads s)) (events s) (calls s)))
        as (b & s1 & e1 & c1 & E & R1 & Ev1 & C1 & Hs & Hp & Hf & Hz & Hm & Hh).
      fold send. rewrite (PassFacts.bind_ret _ _ _ _ _ E), PassFacts.bind_emit.
      match goal with
      | |- context [first_pass _ _ _ _ _ _ rows ?p ?f ?s2] =>
          destruct (IH p f s2)
            as (results & s' & e2 & c2 & E2 & Ev2 & C2 & L & G1 & G2 & Hs2
                & Hp2 & Hf2 & Hz2 & Hm2 & Ho2)
      end.
      cbn [reads events calls] in R1, Ev1, C1, Ev2, C2, G1, G2.
      rewrite R1 in G1, G2.
      exists (b :: results), s',
             ((e1 ++ [progress_updated (percent_of (processed + 1) total)])
              ++ e2), (c1 ++ c2).
      split.
      { rewrite E2. unfold failures. cbn [combine filter snd].
        destruct b; cbn [negb map fst]; [reflexivity|].
        now rewrite <- app_assoc. }
      split; [rewrite Ev2, Ev1, <- !app_assoc; reflexivity|].
      split; [rewrite C2, C1, <- !app_assoc; reflexivity|].
      split; [cbn [length]; lia|].
      split.
      { intros [|j] Hj; [now rewrite Nat.add_0_r|].
        cbn [length] in Hj. rewrite Nat.add_succ_r. apply G1. lia. }
      split.
      { cbn [length]. intros Hl. rewrite Nat.add_succ_r. apply G2. lia. }
      rewrite !statuses_app, !progresses_app, !finished_count_app,
        !sleeps_of_app, Hs, Hp, Hf, Hz, Hs2, Hp2, Hf2, Hz2.
      rewrite map_app, forallb_app, Hm, Hm2.
      cbn [statuses progresses finished_count app length seq map].
      replace (S (processed + 1)) with (processed + 1 + 1) by lia.
      repeat split; try reflexivity.
      unfold results_of. cbn [combine]. constructor; [exact Hh | exact Ho2].
    + eexists [], _, [log_updated (log "⛔ Sending stopped by user.")], [].
      rewrite PassFacts.bind_emit.
      cbn [ret events calls]. unfold failures, reports.
      cbn [combine filter map length seq].
      rewrite !app_nil_r. split; [reflexivity|]. split; [reflexivity|].
      split; [reflexivity|]. split; [lia|].
      split; [intros j Hj; lia|].
      split; [intros _; now rewrite Nat.add_0_r|].
      repeat split; auto. constructor.
Qed.

Lemma retry_pass_trace (rows : DataFrame) :
  forall still_failed (s : St World),
  exists results s' evs cs,
    retry_pass respond path_exists running_at self rows still_failed s
    = (Ret (still_failed ++ failures rows results), s')
    /\ events s' = events s ++ evs
    /\ calls s' = calls s ++ cs
    /\ length results <= length rows
    /\ (length results < length rows ->
        running_at (reads s + length results) = false)
    /\ statuses evs = reports rows results
    /\ progresses evs = []
    /\ finished_count evs = 0
    /\ sleeps_of evs 2 = 0
    /\ forallb mail_call (map fst cs) = true
    /\ results_of path_exists rows results.
Proof.
  induction rows as [|[index row] rows IH]; intros still s.
  - exists [], s, [], []. cbn. rewrite !app_nil_r.
    repeat split; auto; try (intros; lia). constructor.
  - cbn [retry_pass]. rewrite PassFacts.bind_running.
    destruct (running_at (reads s)) eqn:Hgo; cbn [negb].
    + destruct (send_summary row index
                  (mkSt (world s) (S (reads s)) (events s) (calls s)))
        as (b & s1 & e1 & c1 & E & R1 & Ev1 & C1 & Hs & Hp & Hf & Hz & Hm
            & Hh).
      fold send. rewrite (PassFacts.bind_ret _ _ _ _ _ E).
      match goal with
      | |- context [retry_pass _ _ _ _ rows ?f ?s2] =>
          destruct (IH f s2)
            as (results & s' & e2 & c2 & E2 & Ev2 & C2 & L & G2 & Hs2 & Hp2
                & Hf2 & Hz2 & Hm2 & Ho2)
      end.
      cbn [reads events calls] in R1, Ev1, C1. rewrite R1 in G2.
      exists (b :: results), s', (e1 ++ e2), (c1 ++ c2).
      split.
      { rewrite E2. unfold failures. cbn [combine filter snd].
        destruct b; cbn [negb map fst]; [reflexivity|].
        now rewrite <- app_assoc. }
      split; [rewrite Ev2, Ev1, <- !app_assoc; reflexivity|].
      split; [rewrite C2, C1, <- !app_assoc; reflexivity|].
      split; [cbn [length]; lia|].
      split.
      { cbn [length]. intros Hl. rewrite Nat.add_succ_r. apply G2. lia. }
      rewrite !statuses_app, !progresses_app, !finished_count_app,
        !sleeps_of_app, Hs, Hp, Hf, Hz, Hs2, Hp2, Hf2, Hz2.
      rewrite map_app, forallb_app, Hm, Hm2.
      repeat split; try reflexivity.
      unfold results_of. cbn [combine]. constructor; [exact Hh | exact Ho2].
    + eexists [], _, [], []. cbn [ret events calls].
      unfold failures, reports. cbn [combine filter map length].
      rewrite !app_nil_r. split; [reflexivity|]. split; [reflexivity|].
      split; [reflexivity|]. split; [cbn; lia|].
      split; [intros _; now rewrite Nat.add_0_r|].
      repeat split; auto. constructor.
Qed.

Lemma retry_loop_trace (attempts : list nat) :
  forall failed_emails (s : St World),
  exists still s' evs cs,
    retry_loop respond path_exists running_at self attempts failed_emails s
    = (Ret still, s')
    /\ events s' = events s ++ evs
    /\ calls s' = calls s ++ cs
    /\ progresses evs = []
    /\ finished_count evs = 0
    /\ sleeps_of evs 2 <= length attempts
    /\ incl (touched evs) (map fst failed_emails)
    /\ (NoDup (map fst failed_emails) ->
        forall i, attempts_of evs i <= length attempts)
    /\ Forall PassSpec.attempted (statuses evs)
    /\ forallb mail_call (map fst cs) = true.
Proof.
  induction attempts as [|attempt attempts IH]; intros failed s.
  - exists failed, s, [], []. cbn. rewrite !app_nil_r.
    repeat split; auto; try constructor. intros x [].
  - cbn [retry_loop]. rewrite PassFacts.bind_running.
    destruct (negb (running_at (reads s)) || negb (nonempty failed)).
    + eexists failed, _, [], []. cbn [ret events calls].
      rewrite !app_nil_r. split; [reflexivity|].
      repeat split; auto; try (cbn; lia); try constructor. intros x [].
    + rewrite PassFacts.bind_emit.
      match goal with
      | |- context [bind (retry_pass _ _ _ _ failed []) _ ?s1] =>
          destruct (retry_pass_trace failed [] s1)
            as (results & s2 & e1 & c1 & E1 & Ev1 & C1 & L1 & _ & Hs1 & Hp1
                & Hf1 & Hz1 & Hm1 & _)
      end.
      cbn [app events calls] in E1, Ev1, C1.
      rewrite (PassFacts.bind_ret _ _ _ _ _ E1).
      match goal with
      | |- context [bind ?m _ s2] =>
          assert (Hnap : exists s3 nap,
                     m s2 = (Ret tt, s3)
                     /\ events s3 = events s2 ++ nap
                     /\ calls s3 = calls s2
                     /\ statuses nap = [] /\ progresses nap = []
                     /\ finished_count nap = 0 /\ sleeps_of nap 2 <= 1)
      end.
      { destruct (nonempty (failures failed results)).
        - eexists _, [sleep 2]. repeat split; try reflexivity;
            try (cbn; lia).
        - exists s2, []. rewrite app_nil_r. repeat split; try reflexivity;
            try (cbn; lia). }
      destruct Hnap as (s3 & nap & E3 & Ev3 & C3 & Hs3 & Hp3 & Hf3 & Hz3).
      rewrite (PassFacts.bind_ret _ _ _ _ _ E3).
      destruct (IH (failures failed results) s3)
        as (still & s' & e2 & c2 & E2 & Ev2 & C2 & Hp2 & Hf2 & Hz2 & T2 & A2
            & At2 & Hm2).
      exists still, s',
        ([log_updated
            (log "🔄 Retry attempt " ++ str_of_nat (attempt + 1)
             ++ log "/" ++ str_of_Z (max_retries self))]
         ++ e1 ++ nap ++ e2), (c1 ++ c2).
      split; [exact E2|].
      split; [rewrite Ev2, Ev3, Ev1, <- !app_assoc; reflexivity|].
      split; [rewrite C2, C3, C1, <- !app_assoc; reflexivity|].
      assert (T1 : touched e1 = map fst (firstn (length results) failed)).
      { unfold touched. rewrite Hs1. apply reports_labels. }
      assert (I1 : incl (map fst (failures failed results)) (map fst failed)).
      { intros i Hi. apply in_map_iff in Hi as (x & <- & Hx). apply in_map.
        apply (firstn_incl (length results) failed).
        now apply failures_within. }
      rewrite !progresses_app, !finished_count_app, !sleeps_of_app,
        Hp1, Hf1, Hz1, Hp3, Hf3, Hp2, Hf2.
      split; [reflexivity|]. split; [reflexivity|].
      split; [cbn [length sleeps_of sleeps count_occ]; lia|].
      split.
      { rewrite !touched_app. unfold touched at 1 3. rewrite Hs3.
        cbn [statuses map app]. intros i Hi.
        apply in_app_or in Hi as [Hi | Hi].
        - rewrite T1 in Hi. apply in_map_iff in Hi as (x & <- & Hx).
          apply in_map. now apply (firstn_incl (length results) failed).
        - apply I1. now apply T2. }
      split.
      { intros Hnd i. rewrite !attempts_of_app.
        rewrite (attempts_of_quiet [_]) by reflexivity.
        rewrite (attempts_of_quiet nap) by exact Hs3.
        assert (B1 : attempts_of e1 i <= 1).
        { unfold attempts_of. rewrite T1. apply NoDup_count_le.
          now apply firstn_labels_NoDup. }
        pose proof (A2 (failures_labels_NoDup failed results Hnd) i) as B2.
        cbn [length]. lia. }
      split.
      { rewrite !statuses_app, Hs1, Hs3. cbn [statuses app].
        apply Forall_app. split; [apply reports_attempted | exact At2]. }
      rewrite map_app, forallb_app, Hm1, Hm2. reflexivity.
Qed.

Lemma send_all_trace (s : St World) :
  exists results s' evs1 evs2 cs,
    send_all respond path_exists running_at percent_of self s = (Ret tt, s')
    /\ events s' = events s ++ evs1 ++ evs2 ++ [finished_sending]
    /\ calls s' = calls s ++ cs
    /\ forallb mail_call (map fst cs) = true
    /\ first_part running_at (reads s) percent_of (df self) results evs1
    /\ retry_part (Z.to_nat (max_retries self))
         (failures (df self) results) evs2.
Proof.
  unfold send_all. cbv zeta.
  destruct (first_pass_trace (length (df self)) (df self) 0 [] s)
    as (results & s1 & e1 & c1 & E1 & Ev1 & C1 & L1 & G1 & G2 & Hs1 & Hp1
        & Hf1 & Hz1 & Hm1 & _).
  cbn [app] in E1. rewrite (PassFacts.bind_ret _ _ _ _ _ E1).
  set (failed := failures (df self) results) in *.
  match goal with
  | |- context [bind ?m _ s1] =>
      assert (H2 : exists still s2 e2 c2,
                 m s1 = (Ret still, s2)
                 /\ events s2 = events s1 ++ e2
                 /\ calls s2 = calls s1 ++ c2
                 /\ forallb mail_call (map fst c2) = true
                 /\ retry_part (Z.to_nat (max_retries self)) failed e2)
  end.
  { destruct (nonempty failed && (0 <? max_retries self)%Z) eqn:B.
    - rewrite PassFacts.bind_emit.
      match goal with
      | |- context [retry_loop _ _ _ _ ?a failed ?s0] =>
          destruct (retry_loop_trace a failed s0)
            as (still & s2 & e2 & c2 & E2 & Ev2 & C2 & Hp2 & Hf2 & Hz2 & T2
                & A2 & At2 & Hm2)
      end.
      rewrite length_seq in Hz2, A2. cbn [events calls] in Ev2, C2.
      exists still, s2,
        ([log_updated
            (log "🔄 Retrying " ++ str_of_nat (length failed)
             ++ log " failed emails...")] ++ e2), c2.
      split; [exact E2|].
      split; [rewrite Ev2, <- app_assoc; reflexivity|].
      split; [exact C2|]. split; [exact Hm2|].
      unfold retry_part.
      rewrite progresses_app, finished_count_app, sleeps_of_app, touched_app.
      split; [exact Hp2|]. split; [exact Hf2|]. split; [exact Hz2|].
      split; [exact T2|].
      split.
      { intros Hnd i. rewrite attempts_of_app.
        rewrite (attempts_of_quiet [_]) by reflexivity. now apply A2. }
      split; [|exact At2].
      intros Hr. apply andb_true_iff in B as [_ B].
      apply Z.ltb_lt in B. lia.
    - exists failed, s1, [], []. rewrite !app_nil_r.
      split; [reflexivity|]. split; [reflexivity|]. split; [reflexivity|].
      split; [reflexivity|]. unfold retry_part.
      repeat split; auto; try (cbn; lia); try constructor. intros x []. }
  destruct H2 as (still & s2 & e2 & c2 & E2 & Ev2 & C2 & Hm2 & R2).
  rewrite (PassFacts.bind_ret _ _ _ _ _ E2).
  assert (F1 : first_part running_at (reads s) percent_of (df self) results e1).
  { unfold first_part. repeat split; auto. }
  destruct R2 as (Hp2 & Hf2 & Hz2 & T2 & A2 & Q2 & At2).
  destruct (nonempty still).
  - exists results. eexists _, e1, (e2 ++ [_]), (c1 ++ c2).
    split; [reflexivity|]. cbn [bind emit ret events calls].
    split; [rewrite Ev2, Ev1, <- !app_assoc; reflexivity|].
    split; [rewrite C2, C1, <- !app_assoc; reflexivity|].
    split; [rewrite map_app, forallb_app, Hm1, Hm2; reflexivity|].
    split; [exact F1|]. unfold retry_part.
    rewrite progresses_app, finished_count_app, sleeps_of_app, touched_app,
      Hp2, Hf2.
    split; [reflexivity|]. split; [reflexivity|].
    split; [cbn [sleeps_of sleeps count_occ]; lia|].
    split; [cbn [touched statuses map]; rewrite app_nil_r; exact T2|].
    split.
    { intros Hnd i. rewrite attempts_of_app.
      rewrite (attempts_of_quiet [_]) by reflexivity.
      pose proof (A2 Hnd i). lia. }
    split.
    { intros Hr. rewrite statuses_app, (Q2 Hr). reflexivity. }
    rewrite statuses_app. cbn [statuses]. now rewrite app_nil_r.
  - exists results. eexists _, e1, e2, (c1 ++ c2).
    split; [reflexivity|]. cbn [bind emit ret events calls].
    split; [rewrite Ev2, Ev1, <- !app_assoc; reflexivity|].
    split; [rewrite C2, C1, <- !app_assoc; reflexivity|].
    split; [rewrite map_app, forallb_app, Hm1, Hm2; reflexivity|].
    split; [exact F1|]. unfold retry_part. repeat split; auto.
Qed.

(** The connection loop: the attempts that fail, each with its log line
    and its sleep, up to the first that does not. *)
Lemma connect_shape (attempts : list nat) :
  forall s : St World,
  exists errors b s',
    connect respond attempts s = (Ret b, s')
    /\ reads s' = reads s
    /\ events s' = events s ++ failed_attempts attempts errors
                   ++ (if b then [log_updated connected] else [])
    /\ calls s' = calls s ++ repeat (Dispatch, true) (length errors)
                  ++ (if b then [(Dispatch, false)] else [])
    /\ (if b then length errors < length attempts
        else length errors = length attempts)
    /\ world s' = after respond (world s)
                    (repeat Dispatch (length errors)
                     ++ (if b then [Dispatch] else [])).
Proof.
  induction attempts as [|attempt rest IH]; intros s.
  - exists [], false, s. cbn. rewrite !app_nil_r. repeat split; auto.
  - cbn [connect]. unfold bind at 1, try_except, bind at 1, call.
    destruct (respond (world s) Dispatch) as [[v|e] w'] eqn:Er.
    + eexists [], true, _. cbn [bind emit ret reads events calls].
      split; [reflexivity|]. cbn [reads events calls world].
      repeat split; auto; [cbn; lia|].
      cbn [length repeat app after]. now rewrite Er.
    + cbn [emit bind ret].
      match goal with
      | |- context [connect respond rest ?s1] =>
          destruct (IH s1) as (errors & b & s' & E & R & Ev & C & L & W)
      end.
      exists (e :: errors), b, s'. split; [exact E|].
      cbn [reads events calls world] in R, Ev, C, W.
      split; [exact R|].
      split; [rewrite Ev, <- !app_assoc; reflexivity|].
      split; [rewrite C, <- !app_assoc; reflexivity|].
      split; [destruct b; cbn [length]; lia|].
      cbn [length repeat app after]. now rewrite Er.
Qed.

(** [run] in full: it gives up at [CoInitialize], or after five failed
    attempts to connect, or at [GetNamespace], or at one of the two
    folders; or it goes through its passes. *)
Lemma run_cases (w : World) :
  exists s',
    run respond path_exists running_at percent_of self (start w) = (Ret tt, s')
    /\ ((exists e,
           events s' = [log_updated (fatal_error e); finished_sending]
           /\ calls s' = [(CoInitialize, true)]
           /\ reads s' = 0
           /\ cause respond w (calls s') e (world s'))
        \/ exists errors,
             length errors <= 5
             /\ ((length errors = 5
                  /\ events s' = failed_attempts (seq 0 5) errors
                                 ++ [log_updated could_not_connect;
                                     finished_sending]
                  /\ calls s' = (CoInitialize, false)
                                :: repeat (Dispatch, true) 5
                  /\ reads s' = 0)
                 \/ (length errors < 5
                     /\ ((exists e,
                            events s' = failed_attempts (seq 0 5) errors
                                        ++ [log_updated connected;
                                            log_updated (fatal_error e);
                                            finished_sending]
                            /\ calls s' = (CoInitialize, false)
                                          :: repeat (Dispatch, true)
                                               (length errors)
                                          ++ [(Dispatch, false);
                                              (GetNamespace, true)]
                            /\ reads s' = 0
                            /\ cause respond w (calls s') e (world s'))
                         \/ (exists e fcalls,
                               events s' = failed_attempts (seq 0 5) errors
                                           ++ [log_updated connected;
                                               log_updated (not_ready e);
                                               finished_sending]
                               /\ calls s' = (CoInitialize, false)
                                             :: repeat (Dispatch, true)
                                                  (length errors)
                                             ++ [(Dispatch, false);
                                                 (GetNamespace, false)]
                                             ++ fcalls
                               /\ (fcalls = [(GetDefaultFolder 4, true)]
                                   \/ fcalls = [(GetDefaultFolder 4, false);
                                                (GetDefaultFolder 5, true)])
                               /\ reads s' = 0
                               /\ cause respond w (calls s') e (world s'))
                         \/ (exists results evs1 evs2 cs,
                               events s' = failed_attempts (seq 0 5) errors
                                           ++ [log_updated connected]
                                           ++ evs1 ++ evs2
                                           ++ [finished_sending]
                               /\ calls s' = (CoInitialize, false)
                                             :: repeat (Dispatch, true)
                                                  (length errors)
                                             ++ [(Dispatch, false);
                                                 (GetNamespace, false);
                                                 (GetDefaultFolder 4, false);
                                                 (GetDefaultFolder 5, false)]
                                             ++ cs
                               /\ forallb mail_call (map fst cs) = true
                               /\ first_part running_at 0 percent_of (df self)
                                    results evs1
                               /\ retry_part (Z.to_nat (max_retries self))
                                    (failures (df self) results) evs2))))).
Proof.
  unfold run, try_except, bind at 1, call, start. cbn [world].
  destruct (respond w CoInitialize) as [[v|e] w1] eqn:E0.
  2:{ eexists. split; [reflexivity|]. left. exists e.
      cbn [emit bind ret events calls reads world app].
      repeat split; try reflexivity.
      exists [], CoInitialize. split; [reflexivity | exact E0]. }
  match goal with
  | |- context [bind (connect respond (seq 0 5)) _ ?s0] =>
      destruct (connect_shape (seq 0 5) s0)
        as (errors & b & s1 & E1 & R1 & Ev1 & C1 & L1 & W1)
  end.
  rewrite (PassFacts.bind_ret _ _ _ _ _ E1).
  cbn [reads events calls world app] in R1, Ev1, C1, W1.
  rewrite length_seq in L1.
  destruct s1 as [w2 r1 ev1 cs1]. cbn [reads events calls world] in R1, Ev1, C1, W1.
  subst r1 ev1 cs1.
  destruct b; cbn [negb].
  2:{ rewrite PassFacts.bind_emit. eexists. split; [reflexivity|].
      right. exists errors. split; [lia|]. left.
      cbn [emit events calls reads]. rewrite !app_nil_r, <- app_assoc, L1.
      repeat split; reflexivity. }
  pose (opened := (CoInitialize, false)
                 :: repeat (Dispatch, true) (length errors)
                 ++ [(Dispatch, false)]).
  assert (W2 : after respond w (map fst opened) = w2).
  { unfold opened. cbn [map fst after]. rewrite E0. cbn [snd].
    rewrite map_app, map_repeat. cbn [map fst]. now rewrite W1. }
  unfold bind at 1, call. cbn [world].
  destruct (respond w2 GetNamespace) as [[v2|e2] w3] eqn:E2.
  2:{ eexists. split; [reflexivity|]. right. exists errors. split; [lia|].
      right. split; [exact L1|]. left. exists e2.
      cbn [emit bind ret events calls reads world].
      split; [tidy; reflexivity|]. split; [tidy; reflexivity|].
      split; [reflexivity|].
      exists opened, GetNamespace.
      split; [unfold opened; tidy; reflexivity|]. rewrite W2. exact E2. }
  unfold bind at 1, try_except, bind at 1, call. cbn [world].
  destruct (respond w3 (GetDefaultFolder 4)) as [[v3|e3] w4] eqn:E3.
  2:{ eexists. split; [reflexivity|]. right. exists errors. split; [lia|].
      right. split; [exact L1|]. right; left.
      exists e3, [(GetDefaultFolder 4, true)].
      cbn [emit bind ret events calls reads world negb].
      split; [tidy; reflexivity|]. split; [tidy; reflexivity|].
      split; [auto|]. split; [reflexivity|].
      exists (opened ++ [(GetNamespace, false)]), (GetDefaultFolder 4).
      split; [unfold opened; tidy; reflexivity|].
      rewrite map_app, after_app, W2. cbn [map fst after].
      rewrite E2. exact E3. }
  unfold bind at 1, call. cbn [world].
  destruct (respond w4 (GetDefaultFolder 5)) as [[v4|e4] w5] eqn:E4.
  2:{ eexists. split; [reflexivity|]. right. exists errors. split; [lia|].
      right. split; [exact L1|]. right; left.
      exists e4, [(GetDefaultFolder 4, false); (GetDefaultFolder 5, true)].
      cbn [emit bind ret events calls reads world negb].
      split; [tidy; reflexivity|]. split; [tidy; reflexivity|].
      split; [auto|]. split; [reflexivity|].
      exists (opened ++ [(GetNamespace, false); (GetDefaultFolder 4, false)]),
        (GetDefaultFolder 5).
      split; [unfold opened; tidy; reflexivity|].
      rewrite map_app, after_app, W2. cbn [map fst after].
      rewrite E2. cbn [snd]. rewrite E3. exact E4. }
  cbn [ret negb].
  match goal with
  | |- context [send_all _ _ _ _ _ ?s0] =>
      destruct (send_all_trace s0)
        as (results & s' & evs1 & evs2 & cs & E & Ev & C & Hm & F1 & R2)
  end.
  rewrite E. exists s'. split; [reflexivity|].
  right. exists errors. split; [lia|]. right. split; [exact L1|].
  right; right. exists results, evs1, evs2, cs.
  cbn [events calls] in Ev, C.
  split; [rewrite Ev; tidy; reflexivity|].
  split; [rewrite C; tidy; reflexivity|].
  split; [exact Hm|]. split; [exact F1 | exact R2].
Qed.

(** However Outlook answers and whenever the user stops the job, [run]
    returns without an exception, and [finished_sending] is the last
    thing that it emits, once. *)
Theorem run_finishes_once (w : World) :
  exists s' evs,
    run respond path_exists running_at percent_of self (start w) = (Ret tt, s')
    /\ events s' = evs ++ [finished_sending]
    /\ finished_count evs = 0.
Proof.
  destruct (run_cases w) as (s' & E & H). exists s'.
  destruct H as [(e & Ev & _) | (errors & _ & H)].
  { exists [log_updated (fatal_error e)]. rewrite Ev.
    split; [exact E|]. split; reflexivity. }
  destruct (ConnectFacts.failed_attempts_quiet (seq 0 5) errors)
    as (_ & _ & Hq).
  destruct H as [(_ & Ev & _) | (_ & [(e & Ev & _) | [(e & fc & Ev & _)
                | (results & evs1 & evs2 & cs & Ev & _ & _ & F1 & R2)]])].
  - exists (failed_attempts (seq 0 5) errors
            ++ [log_updated could_not_connect]).
    split; [exact E|]. rewrite Ev. split; [tidy; reflexivity|].
    rewrite finished_count_app, Hq. reflexivity.
  - exists (failed_attempts (seq 0 5) errors
            ++ [log_updated connected; log_updated (fatal_error e)]).
    split; [exact E|]. rewrite Ev. split; [tidy; reflexivity|].
    rewrite finished_count_app, Hq. reflexivity.
  - exists (failed_attempts (seq 0 5) errors
            ++ [log_updated connected; log_updated (not_ready e)]).
    split; [exact E|]. rewrite Ev. split; [tidy; reflexivity|].
    rewrite finished_count_app, Hq. reflexivity.
  - exists (failed_attempts (seq 0 5) errors
            ++ [log_updated connected] ++ evs1 ++ evs2).
    split; [exact E|]. rewrite Ev. split; [tidy; reflexivity|].
    destruct F1 as (_ & _ & _ & _ & _ & Hf1 & _). destruct R2 as (_ & Hf2 & _).
    rewrite !finished_count_app, Hq, Hf1, Hf2. reflexivity.
Qed.


(** Over rows with distinct labels no row is attempted more often than
    once and once more for each retry that is allowed, no event names a
    row that is not in the frame, and the job sleeps for two seconds at
    most once for each retry that is allowed. *)
Theorem retry_bound (w : World) :
  NoDup (map fst (df self)) ->
  exists s',
    run respond path_exists running_at percent_of self (start w) = (Ret tt, s')
    /\ (forall i, attempts_of (events s') i
                  <= 1 + Z.to_nat (max_retries self))
    /\ (forall i, In i (touched (events s')) -> In i (map fst (df self)))
    /\ sleeps_of (events s') 2 <= Z.to_nat (max_retries self).
Proof.
  intros Hnd. destruct (run_cases w) as (s' & E & H). exists s'.
  split; [exact E|].
  assert (Quiet : statuses (events s') = [] -> sleeps_of (events s') 2 = 0 ->
                  (forall i, attempts_of (events s') i
                             <= 1 + Z.to_nat (max_retries self))
                  /\ (forall i, In i (touched (events s')) ->
                                In i (map fst (df self)))
                  /\ sleeps_of (events s') 2 <= Z.to_nat (max_retries self)).
  { intros Hs Hz. rewrite Hz, (touched_quiet _ Hs).
    split; [intros i; rewrite (attempts_of_quiet _ i Hs); lia|].
    split; [intros i [] | lia]. }
  destruct H as [(e & Ev & _) | (errors & _ & H)].
  { apply Quiet; rewrite Ev; reflexivity. }
  destruct (ConnectFacts.failed_attempts_quiet (seq 0 5) errors)
    as (Qs & Qp & _).
  pose proof (failed_attempts_short (seq 0 5) errors) as Qz.
  destruct H as [(_ & Ev & _) | (_ & [(e & Ev & _) | [(e & fc & Ev & _)
                | (results & evs1 & evs2 & cs & Ev & _ & _ & F1 & R2)]])];
    try (apply Quiet; rewrite Ev;
         rewrite ?statuses_app, ?sleeps_of_app, ?Qs, ?Qz; reflexivity).
  destruct F1 as (L1 & _ & _ & Hs1 & _ & _ & Hz1).
  destruct R2 as (_ & _ & Hz2 & T2 & A2 & _).
  assert (T1 : touched evs1 = map fst (firstn (length results) (df self))).
  { unfold touched. rewrite Hs1. apply reports_labels. }
  rewrite Ev. split; [|split].
  - intros i. rewrite !attempts_of_app.
    rewrite (attempts_of_quiet _ i Qs),
      (attempts_of_quiet [log_updated connected] i eq_refl),
      (attempts_of_quiet [finished_sending] i eq_refl).
    assert (B1 : attempts_of evs1 i <= 1).
    { unfold attempts_of. rewrite T1. apply NoDup_count_le.
      now apply firstn_labels_NoDup. }
    pose proof (A2 (failures_labels_NoDup _ results Hnd) i). lia.
  - intros i. rewrite !touched_app, (touched_quiet _ Qs).
    cbn [touched statuses map app]. rewrite app_nil_r. intros Hi.
    apply in_app_or in Hi as [Hi | Hi].
    + fold (touched evs1) in Hi. rewrite T1 in Hi.
      apply in_map_iff in Hi as (x & <- & Hx). apply in_map.
      now apply (firstn_incl (length results)).
    + apply T2 in Hi. apply in_map_iff in Hi as (x & <- & Hx). apply in_map.
      apply (firstn_incl (length results)). now apply failures_within.
  - rewrite !sleeps_of_app, Qz, Hz1. cbn [sleeps_of sleeps count_occ]. lia.
Qed.

(** When [CoInitialize], [GetNamespace] or the look-up of one of the
    two folders raises, the job ends there: that call is its last, it
    has called nothing that touches a mail, read no flag, and emitted no
    status and no progress; it logs the exception of that call, the one
    with which Outlook answered it in the state in which the calls
    before it had left it, as a fatal error, or as Outlook not being
    ready when it was a folder, and then [finished_sending]. *)
Theorem startup_failure_stops (w : World) :
  exists s',
    run respond path_exists running_at percent_of self (start w) = (Ret tt, s')
    /\ forall c,
         In (c, true) (calls s') ->
         In c [CoInitialize; GetNamespace;
               GetDefaultFolder 4; GetDefaultFolder 5] ->
         forallb startup_call (map fst (calls s')) = true
         /\ reads s' = 0
         /\ statuses (events s') = []
         /\ progresses (events s') = []
         /\ exists before evs e,
              calls s' = before ++ [(c, true)]
              /\ respond (after respond w (map fst before)) c
                 = (Raised e, world s')
              /\ events s'
                 = evs ++ [log_updated (match c with
                                        | GetDefaultFolder _ => not_ready e
                                        | _ => fatal_error e
                                        end);
                           finished_sending].
Proof.
  destruct (run_cases w) as (s' & E & H). exists s'. split; [exact E|].
  intros c Hin Hc.
  assert (Hd : c <> Dispatch)
    by (intros ->; cbn in Hc; intuition discriminate).
  assert (Hmail : mail_call c = false)
    by (cbn in Hc; destruct Hc as [<- | [<- | [<- | [<- | []]]]]; reflexivity).
  assert (Startup : forall n tail,
             forallb startup_call (map fst tail) = true ->
             forallb startup_call
               (map fst ((CoInitialize, false)
                         :: repeat (Dispatch, true) n ++ tail)) = true).
  { intros n tail Ht. cbn [map fst forallb startup_call andb].
    rewrite map_app, forallb_app, Ht, andb_true_r.
    induction n as [|n IH]; [reflexivity | exact IH]. }
  assert (Last : forall before e evs,
             calls s' = before ++ [(c, true)] ->
             cause respond w (calls s') e (world s') ->
             events s' = evs ++ [log_updated (match c with
                                              | GetDefaultFolder _ => not_ready e
                                              | _ => fatal_error e
                                              end);
                                 finished_sending] ->
             exists before evs e,
               calls s' = before ++ [(c, true)]
               /\ respond (after respond w (map fst before)) c
                  = (Raised e, world s')
               /\ events s'
                  = evs ++ [log_updated (match c with
                                         | GetDefaultFolder _ => not_ready e
                                         | _ => fatal_error e
                                         end);
                            finished_sending]).
  { intros before e evs Hb (pre & c' & Hpre & Hr) Hev.
    exists before, evs, e. split; [exact Hb|]. split; [|exact Hev].
    rewrite Hb in Hpre. apply app_inj_tail in Hpre as [<- Hcc].
    inversion Hcc; subst c'. exact Hr. }
  destruct H as [(e & Ev & C & R & W) | (errors & _ & H)].
  { pose proof Hin as Hin'. rewrite C in Hin'.
    destruct Hin' as [Hin' | []]. inversion Hin'; subst c.
    split; [rewrite C; reflexivity|]. split; [exact R|].
    split; [rewrite Ev; reflexivity|]. split; [rewrite Ev; reflexivity|].
    apply (Last [] e []); [exact C | exact W | exact Ev]. }
  destruct (ConnectFacts.failed_attempts_quiet (seq 0 5) errors)
    as (Qs & Qp & _).
  destruct H as [(_ & Ev & C & R)
                | (_ & [(e & Ev & C & R & W) | [(e & fc & Ev & C & Hfc & R & W)
                | (results & evs1 & evs2 & cs & Ev & C & Hm & _)]])].
  - exfalso. rewrite C in Hin. destruct Hin as [Hin | Hin]; [discriminate|].
    apply in_repeat in Hin. inversion Hin. contradiction.
  - pose proof Hin as Hin'. rewrite C in Hin'.
    destruct Hin' as [Hin' | Hin']; [discriminate|].
    apply in_app_or in Hin' as [Hin' | Hin'].
    { apply in_repeat in Hin'. inversion Hin'. contradiction. }
    destruct Hin' as [Hin' | [Hin' | []]]; [discriminate|].
    inversion Hin'; subst c.
    split; [rewrite C; apply Startup; reflexivity|]. split; [exact R|].
    split; [rewrite Ev, statuses_app, Qs; reflexivity|].
    split; [rewrite Ev, progresses_app, Qp; reflexivity|].
    apply (Last ((CoInitialize, false)
                 :: repeat (Dispatch, true) (length errors)
                 ++ [(Dispatch, false)]) e
             (failed_attempts (seq 0 5) errors ++ [log_updated connected]));
      [rewrite C; tidy; reflexivity | exact W | rewrite Ev; tidy; reflexivity].
  - pose proof Hin as Hin'. rewrite C in Hin'.
    destruct Hin' as [Hin' | Hin']; [discriminate|].
    apply in_app_or in Hin' as [Hin' | Hin'].
    { apply in_repeat in Hin'. inversion Hin'. contradiction. }
    destruct Hin' as [Hin' | [Hin' | Hin']]; try discriminate.
    assert (Hlast : exists before, fc = before ++ [(c, true)]
                                   /\ exists n, c = GetDefaultFolder n).
    { destruct Hfc as [-> | ->].
      - destruct Hin' as [Hin' | []]. inversion Hin'; subst c.
        exists []. split; [reflexivity | now exists 4].
      - destruct Hin' as [Hin' | [Hin' | []]]; [discriminate|].
        inversion Hin'; subst c.
        exists [(GetDefaultFolder 4, false)].
        split; [reflexivity | now exists 5]. }
    destruct Hlast as (before & Hfc' & n & ->).
    split.
    { rewrite C. apply Startup. destruct Hfc as [Hfc | Hfc];
        rewrite Hfc; reflexivity. }
    split; [exact R|].
    split; [rewrite Ev, statuses_app, Qs; reflexivity|].
    split; [rewrite Ev, progresses_app, Qp; reflexivity|].
    apply (Last ((CoInitialize, false)
                 :: repeat (Dispatch, true) (length errors)
                 ++ [(Dispatch, false); (GetNamespace, false)] ++ before) e
             (failed_attempts (seq 0 5) errors ++ [log_updated connected]));
      [rewrite C, Hfc'; tidy; reflexivity | exact W
       | rewrite Ev; tidy; reflexivity].
  - exfalso. rewrite C in Hin. destruct Hin as [Hin | Hin]; [discriminate|].
    apply in_app_or in Hin as [Hin | Hin].
    { apply in_repeat in Hin. inversion Hin. contradiction. }
    apply in_app_or in Hin as [Hin | Hin].
    { destruct Hin as [Hin | [Hin | [Hin | [Hin | []]]]]; discriminate. }
    rewrite forallb_forall in Hm.
    specialize (Hm c (in_map fst _ _ Hin)). cbn [fst] in Hm. congruence.
Qed.

(** The connection loop stops at the first attempt that succeeds: it
    calls [Dispatch] once for each failure and once more if it
    connects, never more often than it has attempts; each failure is
    followed by its log line, numbered from one, and a sleep of three
    seconds, and nothing else is slept; it reports a connection exactly
    when its last [Dispatch] returned. *)
Theorem connect_attempts (n : nat) (s : St World) :
  exists errors b s',
    connect respond (seq 0 n) s = (Ret b, s')
    /\ events s' = events s ++ failed_attempts (seq 0 n) errors
                   ++ (if b then [log_updated connected] else [])
    /\ calls s' = calls s ++ repeat (Dispatch, true) (length errors)
                  ++ (if b then [(Dispatch, false)] else [])
    /\ length errors + (if b then 1 else 0) <= n
    /\ (b = false -> length errors = n)
    /\ sleeps (failed_attempts (seq 0 n) errors) = repeat 3 (length errors)
    /\ reads s' = reads s.
Proof.
  destruct (connect_shape (seq 0 n) s)
    as (errors & b & s' & E & R & Ev & C & L & _).
  rewrite length_seq in L.
  exists errors, b, s'. split; [exact E|]. split; [exact Ev|].
  split; [exact C|].
  split; [destruct b; lia|]. split; [intros ->; exact L|].
  split; [|exact R].
  apply failed_attempts_sleeps. rewrite length_seq. destruct b; lia.
Qed.


End Run.

Lemma retry_bound_witness :
  exists s',
    run (Sample.respond Sample.is_send) Sample.path_exists
        Sample.always_running (fun p t => 0%Z) sample_job (start tt)
    = (Ret tt, s')
    /\ (forall i, attempts_of (events s') i
                  <= 1 + Z.to_nat (max_retries sample_job))
    /\ (forall i, In i (touched (events s')) ->
                  In i (map fst (df sample_job)))
    /\ sleeps_of (events s') 2 <= Z.to_nat (max_retries sample_job).
Proof.
  apply (retry_bound unit (Sample.respond Sample.is_send) Sample.path_exists
           Sample.always_running (fun p t => 0%Z) sample_job tt).
  cbn. repeat constructor; cbn; intuition discriminate.
Defined.


End RunFacts.

(** ** The body of a document *)

Module DocumentFacts.

Import RenderSpec DocumentSpec ReFacts MtFacts ScanFacts SetFacts ParaFacts
  RenderFacts.

(** The search goes over a stretch in which no match begins. *)
Lemma search_skip (r : regex) (u v : str) :
  forall prev,
    (forall i p, i < length u ->
                 match_at true r false p (skipn i u ++ v) = None) ->
    search_from true r prev (u ++ v)
    = search_from true r (prev_after prev u) v.
Proof.
  induction u as [|x u IH]; intros prev H; [reflexivity|].
  cbn [app search_from].
  assert (H0 : match_at true r false prev (x :: u ++ v) = None)
    by (apply (H 0 prev); cbn; lia).
  rewrite H0, IH, prev_after_cons; [reflexivity|].
  intros i p Hi. apply (H (S i) p). cbn. lia.
Qed.

Lemma search_hit (r : regex) (s v : str) (g : groups) prev :
  match_at true r false prev s = Some (v, g) ->
  search_from true r prev s = Some g.
Proof. intros H. destruct s; cbn [search_from]; now rewrite H. Qed.

Lemma body_hit (a c v : str) prev :
  forallb (cls true true [IChar ">"]) a = true ->
  begins (lit "</body>") c (lit "</body>" ++ v) = false ->
  match_at true body_pattern false prev
    (("<"%char :: lit "body") ++ a ++ ">"%char :: c
     ++ ("<"%char :: lit "/body>") ++ v)
  = Some (v, [(1, c)]).
Proof.
  intros Ha Hc. unfold match_at. change body_pattern with body_expanded.
  unfold body_expanded.
  rewrite mt_cat, mt_lits_self, mt_cat.
  apply mt_repeat_greedy_max; [exact Ha | reflexivity | lia |].
  rewrite mt_cat. cbn [mt]. rewrite lit_eq_refl.
  apply mt_repeat_lazy_first; [apply all_any | lia | |].
  - intros a1 a2 -> Ha2. apply mt_lits_miss.
    assert (Hlen : length a1 < length (a1 ++ a2)).
    { rewrite length_app. destruct a2; [congruence | cbn; lia]. }
    pose proof (begins_at _ _ _ (length a1) Hc Hlen) as S.
    now rewrite skipn_self in S.
  - rewrite mt_lits_self. cbn [andb].
    change (("<"%char :: lit "/body>") ++ v) with (lit "</body>" ++ v).
    now rewrite firstn_front.
Qed.

(** Of a document the builder takes the content of the body element,
    and builds it as it builds that content alone: what stands in front
    of the element and behind it is dropped, and so is the tag with its
    attributes. *)
Theorem body_extracted (pre a c post : str) (px : Z) :
  occurs_ci (lit "<body") pre = false ->
  forallb (fun x => negb (eqc x ">")) a = true ->
  occurs_ci (lit "<body") c = false ->
  occurs_ci (lit "</body>") c = false ->
  build_outlook_safe_html (document pre a c post) px
  = build_outlook_safe_html c px.
Proof.
  intros Hpre Ha Hc1 Hc2.
  assert (S1 : re_search true body_pattern (document pre a c post)
               = Some [(1, c)]).
  { unfold re_search, document.
    rewrite search_skip.
    - change (lit "<body" ++ a ++ lit ">" ++ c ++ lit "</body>" ++ post)
        with (("<"%char :: lit "body") ++ a ++ ">"%char :: c
              ++ ("<"%char :: lit "/body>") ++ post).
      apply (search_hit _ _ post). apply body_hit.
      + clear -Ha. induction a as [|x a IH]; [reflexivity|].
        cbn [forallb] in *. apply andb_true_iff in Ha as [Hx Ha].
        now rewrite not_gt_cls, Hx, IH.
      + apply (occurs_begins "<" (lit "/body>"));
          [reflexivity | right; eexists; reflexivity | exact Hc2].
    - intros i p Hi.
      apply (match_at_headed _ (lit "<body") _ _ _ headed_body).
      apply begins_at; [|exact Hi].
      apply (occurs_begins "<" (lit "body"));
        [reflexivity | right; eexists; reflexivity | exact Hpre]. }
  assert (S2 : re_search true body_pattern c = None).
  { apply (search_free _ "<" (lit "body") _ headed_body).
    apply (occurs_begins "<" (lit "body"));
      [reflexivity | now left | exact Hc1]. }
  unfold build_outlook_safe_html, build_inner. cbv zeta.
  rewrite S1, S2. reflexivity.
Qed.

Lemma body_extracted_witness :
  build_outlook_safe_html sample_document 12
  = build_outlook_safe_html (lit "<p>Dear Ana,</p>") 12.
Proof.
  apply (body_extracted (lit "<html><head><title>t</title></head>")
           (lit " style=x") (lit "<p>Dear Ana,</p>") (lit "</html>") 12);
    reflexivity.
Defined.

End DocumentFacts.

(** ** Line breaks *)

Module BreakFacts.

Import RenderSpec BreakSpec ReFacts MtFacts ScanFacts SetFacts ParaFacts
  RenderFacts.

(** *** The optional slash and the spaces *)

Lemma orelse_none {A} (x : option A) : orelse x (fun _ => None) = x.
Proof. now destruct x. Qed.

(** [/?] in front of a continuation. *)
Lemma mt_opt_lit {A} (p : ascii) prev (s : str) g (k : @cont A) :
  mt true (Repeat true 0 (Some 1) (Lit p)) prev s g k
  = match s with
    | c :: s' =>
        if lit_eq true p c
        then orelse (k (Some c) s' g) (fun _ => k prev s g)
        else k prev s g
    | [] => k prev s g
    end.
Proof.
  cbn [mt]. destruct s as [|c s']; [reflexivity|].
  cbn [length rep_loop below Nat.ltb Nat.leb mt orelse].
  destruct (lit_eq true p c); [|reflexivity].
  rewrite Nat.leb_refl. destruct (length s'); reflexivity.
Qed.

(** The optional slash and the [>] of a line break. *)
Lemma mt_slash_gt {A} (sl : bool) prev (rest : str) g (k : @cont A) :
  mt true (Cat (Repeat true 0 (Some 1) (Lit "/")) (Lit ">")) prev
     ((if sl then lit "/" else []) ++ lit ">" ++ rest) g k
  = k (Some ">"%char) rest g.
Proof.
  rewrite mt_cat, mt_opt_lit. destruct sl; cbn [app lit]; cbn.
  - now destruct (k (Some ">"%char) rest g).
  - reflexivity.
Qed.

(** Spaces read from the front of a blank stretch that a text without
    a space in front follows. *)
Lemma spaces_prefix (gap rest w b : str) :
  blank gap = true -> flush rest = true ->
  w ++ b = gap ++ rest -> forallb isspace w = true ->
  exists i, i <= length gap /\ w = firstn i gap /\ b = skipn i gap ++ rest.
Proof.
  revert w. induction gap as [|x gap IH]; intros w Hg Hr E Hw.
  - destruct w as [|y w]; [exists 0; cbn; auto|].
    cbn [app] in E. subst rest. cbn [forallb flush] in *.
    apply andb_true_iff in Hw as [Hy _]. rewrite Hy in Hr. discriminate.
  - destruct w as [|y w]; [exists 0; cbn; split; [lia | auto]|].
    cbn [app] in E. inversion E; subst. unfold blank in Hg.
    cbn [forallb] in Hg, Hw.
    apply andb_true_iff in Hg as [_ Hg]. apply andb_true_iff in Hw as [_ Hw].
    destruct (IH w Hg Hr H1 Hw) as (i & Hi & -> & ->).
    exists (S i). cbn [length firstn skipn]. split; [lia | auto].
Qed.

Lemma cls_spaces (w : str) :
  forallb (cls true false [ISpace]) w = true -> forallb isspace w = true.
Proof.
  induction w as [|x w IH]; [reflexivity|]. cbn [forallb]. intros H.
  apply andb_true_iff in H as [Hx H]. rewrite ws_cls in Hx.
  now rewrite Hx, IH.
Qed.

(** [\s*] over a blank stretch, where the continuation takes no
    space: it reads the whole stretch. *)
Lemma star_ws_exact {A} (K : @cont A) (gap rest : str) prev g :
  blank gap = true -> flush rest = true ->
  (forall i p, i < length gap -> K p (skipn i gap ++ rest) g = None) ->
  mt true (Repeat true 0 None (Set_ false [ISpace])) prev (gap ++ rest) g K
  = K (prev_after prev gap) rest g.
Proof.
  intros Hg Hr Hk.
  destruct (K (prev_after prev gap) rest g) as [r|] eqn:E.
  - apply mt_repeat_greedy_max; [now apply blank_spaces | | lia | exact E].
    destruct rest as [|c rest]; [exact I|]. cbn [flush] in Hr.
    rewrite ws_cls. now apply negb_true_iff.
  - apply mt_repeat_none. intros a b Eab Ha _.
    destruct (spaces_prefix gap rest a b Hg Hr (eq_sym Eab) (cls_spaces a Ha))
      as (i & Hi & -> & ->).
    destruct (Nat.eq_dec i (length gap)) as [-> | Hne].
    + now rewrite firstn_all, skipn_all.
    + apply Hk. lia.
Qed.

Lemma blank_skipn (gap : str) (i : nat) :
  blank gap = true -> i < length gap ->
  exists c u, skipn i gap = c :: u /\ isspace c = true.
Proof.
  revert i. induction gap as [|x gap IH]; intros i Hg Hi; [cbn in Hi; lia|].
  unfold blank in Hg. cbn [forallb] in Hg.
  apply andb_true_iff in Hg as [Hx Hg].
  destruct i as [|i]; [now exists x, gap|].
  cbn [skipn]. apply IH; [exact Hg | cbn in Hi; lia].
Qed.

Lemma space_not_slash (c : ascii) :
  isspace c = true -> lit_eq true "/" c = false /\ lit_eq true ">" c = false.
Proof.
  destruct c as [[] [] [] [] [] [] [] []]; intros H;
    try (split; reflexivity); discriminate H.
Qed.

(** One line break, read by its pattern. *)
Lemma br_tag_eq {A} (b : Br) (rest : str) prev g (k : @cont A) :
  blank (gap b) = true ->
  mt true br_expanded prev (br_source b ++ rest) g k
  = k (Some ">"%char) rest g.
Proof.
  intros Hg. unfold br_expanded, br_source.
  assert (E : (lit "<br" ++ gap b ++ (if slash b then lit "/" else [])
               ++ lit ">") ++ rest
              = ("<"%char :: lit "br") ++ gap b
                ++ ((if slash b then lit "/" else []) ++ lit ">" ++ rest))
    by (now rewrite <- !app_assoc).
  rewrite E, mt_cat, mt_lits_self, mt_cat.
  rewrite star_ws_exact.
  - apply mt_slash_gt.
  - exact Hg.
  - destruct (slash b); reflexivity.
  - intros i p Hi.
    destruct (blank_skipn (gap b) i Hg Hi) as (c & u & -> & Hc).
    destruct (space_not_slash c Hc) as [H1 H2].
    cbn [app]. rewrite mt_cat, mt_opt_lit, H1. cbn [mt]. now rewrite H2.
Qed.


(** What the pattern of a run repeats, on one line break. *)
Lemma br_body_eq {A} (b : Br) (rest : str) prev g (k : @cont A) :
  blank (gap b) = true ->
  mt true (NonCap br_body) prev (br_source b ++ rest) g k
  = mt true (Repeat true 0 None (Set_ false [ISpace])) (Some ">"%char) rest g k.
Proof.
  intros Hg.
  change (mt true (NonCap br_body) prev (br_source b ++ rest) g k)
    with (mt true br_expanded prev (br_source b ++ rest) g
            (fun p s' g' =>
               mt true (Repeat true 0 None (Set_ false [ISpace])) p s' g' k)).
  now rewrite br_tag_eq.
Qed.

Lemma headed_br_body : headed (NonCap br_body) (lit "<br").
Proof. apply headed_noncap, headed_cat. apply (headed_lits "<" (lit "br")). Qed.

(** *** The rounds of a run *)

Section Rounds.

Context {A : Type}.
Variable body : option ascii -> str -> groups -> @cont A -> option A.
Variables (lo : nat) (k : @cont A).

Lemma rep_loop_more fuel cnt prev s g :
  cnt < lo ->
  rep_loop body true lo None k (S fuel) cnt prev s g
  = body prev s g
      (fun prev' s' g' =>
         if length s' <? length s
         then rep_loop body true lo None k fuel (S cnt) prev' s' g'
         else None).
Proof.
  intros H. cbn [rep_loop below].
  assert (L : (lo <=? cnt) = false) by (apply Nat.leb_gt; exact H).
  rewrite L. apply orelse_none.
Qed.

Lemma rep_loop_short fuel cnt prev s g :
  cnt < lo -> (forall K, body prev s g K = None) ->
  rep_loop body true lo None k fuel cnt prev s g = None.
Proof.
  intros H Hb. destruct fuel as [|fuel].
  - cbn [rep_loop orelse].
    assert (L : (lo <=? cnt) = false) by (apply Nat.leb_gt; exact H).
    now rewrite L.
  - rewrite rep_loop_more by exact H. apply Hb.
Qed.

Lemma rep_loop_stop fuel cnt prev s g :
  lo <= cnt -> (forall K, body prev s g K = None) ->
  rep_loop body true lo None k fuel cnt prev s g = k prev s g.
Proof.
  intros H Hb.
  assert (L : (lo <=? cnt) = true) by (apply Nat.leb_le; exact H).
  destruct fuel as [|fuel]; cbn [rep_loop below orelse];
    rewrite ?Hb; cbn [orelse]; now rewrite L.
Qed.

Lemma rep_loop_round fuel cnt prev s g r :
  body prev s g
    (fun prev' s' g' =>
       if length s' <? length s
       then rep_loop body true lo None k fuel (S cnt) prev' s' g'
       else None) = Some r ->
  rep_loop body true lo None k (S fuel) cnt prev s g = Some r.
Proof. intros H. cbn [rep_loop below]. now rewrite H. Qed.

End Rounds.


Lemma starts_nil (c : ascii) (h : str) : starts_ci (c :: h) [] = false.
Proof. reflexivity. Qed.

Lemma mt_run_unfold {A} prev (s : str) g (k : @cont A) :
  mt true br_run_expanded prev s g k
  = rep_loop (fun p s' g' k' => mt true (NonCap br_body) p s' g' k')
      true 2 None k (length s) 0 prev s g.
Proof. reflexivity. Qed.

(** A single line break is no run: no line break begins behind the
    spaces that follow it. *)
Lemma br_run_miss (b : Br) (rest : str) prev :
  blank (gap b) = true ->
  (forall a b', rest = a ++ b' -> forallb isspace a = true ->
                starts_ci (lit "<br") b' = false) ->
  match_at true br_run_pattern false prev (br_source b ++ rest) = None.
Proof.
  intros Hg Hr. unfold match_at. change br_run_pattern with br_run_expanded.
  rewrite mt_run_unfold.
  destruct (length (br_source b ++ rest)) as [|fuel] eqn:L;
    [reflexivity|].
  rewrite rep_loop_more by lia. cbv beta. rewrite br_body_eq by exact Hg.
  apply mt_repeat_none. intros a b' E Ha _.
  destruct (length b' <? length (br_source b ++ rest)); [|reflexivity].
  apply rep_loop_short; [lia|]. intros K. cbv beta.
  apply headed_br_body. exact (Hr a b' E (cls_spaces a Ha)).
Qed.

Lemma run_source_cons (b : Br) (trail : str) brs :
  run_source ((b, trail) :: brs) = br_source b ++ trail ++ run_source brs.
Proof. unfold run_source. cbn [map concat fst snd]. now rewrite <- app_assoc. Qed.

Lemma flush_run (brs : list (Br * str)) (t2 : str) :
  flush t2 = true -> flush (run_source brs ++ t2) = true.
Proof. intros H. destruct brs as [|[b trail] brs]; [exact H | reflexivity]. Qed.

(** The rounds over a run of line breaks. *)
Lemma br_run_rounds {A} (k : @cont A) (t2 : str) (r : A) g :
  flush t2 = true -> starts_ci (lit "<br") t2 = false ->
  (forall p, k p t2 g = Some r) ->
  forall brs fuel cnt prev,
    breaks_ok brs = true -> length brs <= fuel -> 2 <= cnt + length brs ->
    rep_loop (fun p s' g' k' => mt true (NonCap br_body) p s' g' k')
      true 2 None k fuel cnt prev (run_source brs ++ t2) g
    = Some r.
Proof.
  intros Hf Hs Hk. induction brs as [|[b trail] brs IH];
    intros fuel cnt prev Hok Hfuel Hcnt.
  - cbn [run_source map concat app length] in *.
    rewrite rep_loop_stop; [apply Hk | lia |].
    intros K. cbv beta. now apply headed_br_body.
  - destruct fuel as [|fuel]; [cbn in Hfuel; lia|].
    cbn [breaks_ok forallb fst snd] in Hok.
    apply andb_true_iff in Hok as [Hb Hok].
    apply andb_true_iff in Hb as [Hg Ht].
    apply rep_loop_round. cbv beta.
    rewrite run_source_cons, <- !app_assoc.
    rewrite br_body_eq by exact Hg.
    apply mt_repeat_greedy_max; [now apply blank_spaces | | lia |].
    + pose proof (flush_run brs t2 Hf) as F.
      destruct (run_source brs ++ t2) as [|c u]; [exact I|].
      cbn [flush] in F. rewrite ws_cls. now apply negb_true_iff.
    + assert (L : (length (run_source brs ++ t2)
                   <? length (br_source b ++ trail ++ run_source brs ++ t2))
                  = true).
      { apply Nat.ltb_lt. rewrite !length_app. unfold br_source.
        rewrite !length_app. cbn [length lit]. cbn. lia. }
      rewrite L. apply IH; [exact Hok | cbn in Hfuel; lia | cbn in Hcnt; lia].
Qed.

Lemma run_length (brs : list (Br * str)) (t2 : str) :
  length brs <= length (run_source brs ++ t2).
Proof.
  induction brs as [|[b trail] brs IH]; [cbn; lia|].
  rewrite run_source_cons, <- !app_assoc. unfold br_source.
  rewrite !length_app in *. cbn [length lit]. cbn. lia.
Qed.

(** Two line breaks or more are a run, up to the text that follows. *)
Lemma br_run_hit (brs : list (Br * str)) (t2 : str) prev :
  breaks_ok brs = true -> 2 <= length brs ->
  flush t2 = true -> starts_ci (lit "<br") t2 = false ->
  match_at true br_run_pattern false prev (run_source brs ++ t2)
  = Some (t2, []).
Proof.
  intros Hok Hn Hf Hs. unfold match_at.
  change br_run_pattern with br_run_expanded. rewrite mt_run_unfold.
  apply br_run_rounds; auto using run_length.
Qed.

(** *** Where no tag begins *)

Lemma blank_no_lt (w : str) :
  blank w = true -> forallb (fun c => negb (lit_eq true "<" c)) w = true.
Proof.
  unfold blank. induction w as [|x w IH]; [reflexivity|]. cbn [forallb].
  intros H. apply andb_true_iff in H as [Hx H].
  now rewrite (space_no_lt x Hx), IH.
Qed.


(** No line break begins in a line break behind its first character. *)
Lemma br_inner_free (b : Br) (v : str) :
  blank (gap b) = true -> begins (lit "<br") (tl (br_source b)) v = false.
Proof.
  intros Hg.
  assert (E : tl (br_source b)
              = lit "br" ++ gap b ++ (if slash b then lit "/" else [])
                ++ lit ">") by reflexivity.
  rewrite E, !begins_app.
  rewrite (clean_begins _ (lit "br")) by reflexivity.
  rewrite (clean_begins _ (gap b))
    by (apply (clean_without "<"), blank_no_lt, Hg).
  rewrite (clean_begins _ (if slash b then lit "/" else []))
    by (destruct (slash b); reflexivity).
  rewrite (clean_begins _ (lit ">")) by reflexivity.
  reflexivity.
Qed.



(** *** Text with single line breaks *)






Lemma headed_p_open : headed p_open_pattern (lit "<p").
Proof. apply headed_cat. apply (headed_lits "<" (lit "p")). Qed.





(** *** A run of line breaks *)









End BreakFacts.

(** ** Tags in any case, and where no tag begins *)

Module TagFacts.

Import RenderSpec BreakSpec BlockSpec ReFacts MtFacts ScanFacts SetFacts
  ParaFacts RenderFacts DocumentFacts.

(** *** A tag and its spellings *)

Lemma spelled_length (h o : str) : spelled h o = true -> length o = length h.
Proof.
  revert o. induction h as [|x h IH]; intros [|y o] H; try discriminate;
    [reflexivity|].
  cbn [spelled] in H. apply andb_true_iff in H as [_ H].
  cbn [length]. now rewrite (IH o H).
Qed.

Lemma spelled_starts (h o s : str) :
  spelled h o = true -> starts_ci h (o ++ s) = true.
Proof.
  revert o. induction h as [|x h IH]; intros [|y o] H; try discriminate;
    [reflexivity|].
  cbn [spelled] in H. apply andb_true_iff in H as [Hx H].
  cbn [app starts_ci]. now rewrite Hx, IH.
Qed.

Lemma spelled_firstn (h o s : str) :
  spelled h o = true -> firstn (length h) (o ++ s) = o.
Proof. intros H. rewrite <- (spelled_length h o H). apply firstn_self. Qed.

Lemma spelled_skipn (h o s : str) :
  spelled h o = true -> skipn (length h) (o ++ s) = s.
Proof. intros H. rewrite <- (spelled_length h o H). apply skipn_self. Qed.

Lemma spelled_self (h : str) : spelled h h = true.
Proof.
  induction h as [|x h IH]; [reflexivity|].
  cbn [spelled]. now rewrite lit_eq_refl, IH.
Qed.

Lemma lit_eq_same (a x y : ascii) :
  lit_eq true x y = true -> lit_eq true a y = lit_eq true a x.
Proof.
  unfold lit_eq, eqc. intros H. apply Ascii.eqb_eq in H. now rewrite H.
Qed.

Lemma spelled_mismatch (h' : str) :
  forall h o, spelled h o = true -> mismatch h' o = mismatch h' h.
Proof.
  induction h' as [|a h' IH]; intros [|x h] [|y o] H; try discriminate;
    try reflexivity.
  cbn [spelled] in H. apply andb_true_iff in H as [Hx H].
  cbn [mismatch]. now rewrite (lit_eq_same a x y Hx), (IH h o H).
Qed.

Lemma spelled_tail (h o : str) (i : nat) :
  spelled h o = true -> spelled (skipn i h) (skipn i o) = true.
Proof.
  revert h o. induction i as [|i IH]; intros h o H; [exact H|].
  destruct h as [|x h], o as [|y o]; try discriminate; [reflexivity|].
  cbn [spelled] in H. apply andb_true_iff in H as [_ H].
  cbn [skipn]. now apply IH.
Qed.

Lemma spelled_clean (h' h o : str) :
  spelled h o = true -> clean h' o = clean h' h.
Proof.
  intros H. unfold clean. rewrite (spelled_length h o H).
  induction (seq 0 (length h)) as [|i l IH]; [reflexivity|].
  cbn [forallb]. rewrite IH. f_equal.
  apply spelled_mismatch. now apply spelled_tail.
Qed.

Lemma spelled_lt (h o : str) :
  spelled ("<"%char :: h) o = true -> exists o', o = "<"%char :: o'.
Proof.
  destruct o as [|y o]; [discriminate|]. cbn [spelled]. intros H.
  apply andb_true_iff in H as [Hy _]. rewrite lit_eq_lt in Hy.
  unfold eqc in Hy. apply Ascii.eqb_eq in Hy. subst y. now exists o.
Qed.

Lemma is_word_lower (c : ascii) : is_word (lower c) = is_word c.
Proof. each_char c. Qed.

Lemma lit_eq_word (x y : ascii) :
  lit_eq true x y = true -> is_word y = is_word x.
Proof.
  unfold lit_eq, eqc. intros H. apply Ascii.eqb_eq in H.
  now rewrite <- (is_word_lower y), <- H, is_word_lower.
Qed.

(** The character with which a spelling ends is a word character when
    that of the tag is. *)
Lemma spelled_prev (h : str) :
  forall o p q,
    spelled h o = true -> h <> [] ->
    word_opt (prev_after p o) = word_opt (prev_after q h).
Proof.
  induction h as [|x h IH]; intros [|y o] p q H Hne; try discriminate;
    [congruence|].
  cbn [spelled] in H. apply andb_true_iff in H as [Hx H].
  rewrite !prev_after_cons.
  destruct h as [|x2 h].
  - destruct o; [|discriminate]. cbn. now apply lit_eq_word.
  - apply IH; [exact H | discriminate].
Qed.

(** A chain of literals reads any spelling of itself. *)
Lemma mt_lits_spelled {A} (c : ascii) (h o s : str) prev g (k : @cont A) :
  spelled (c :: h) o = true ->
  mt true (cat (map Lit (c :: h))) prev (o ++ s) g k
  = k (prev_after prev o) s g.
Proof.
  intros H.
  now rewrite mt_lits, (spelled_starts _ _ _ H), (spelled_firstn _ _ _ H),
    (spelled_skipn _ _ _ H).
Qed.

(** A spelling of a tag does not start with another tag. *)
Lemma spelled_other (h' h o v : str) :
  spelled h o = true -> mismatch h' h = true -> starts_ci h' (o ++ v) = false.
Proof.
  intros H M. apply mismatch_starts.
  now rewrite (spelled_mismatch h' h o H).
Qed.

(** *** Stretches in which no tag begins *)

Lemma sealed_nil (h : str) : sealed h [].
Proof. intros v. reflexivity. Qed.

Lemma sealed_app (h x y : str) : sealed h x -> sealed h y -> sealed h (x ++ y).
Proof. intros Hx Hy v. now rewrite begins_app, Hx, Hy. Qed.

Lemma sealed_clean (h x : str) : clean h x = true -> sealed h x.
Proof. intros H v. now apply clean_begins. Qed.

Lemma sealed_tag (h' h o : str) :
  spelled h o = true -> clean h' h = true -> sealed h' o.
Proof.
  intros H C. apply sealed_clean. now rewrite (spelled_clean h' h o H).
Qed.

Lemma sealed_no_lt (h x : str) :
  forallb (fun c => negb (lit_eq true "<" c)) x = true ->
  sealed ("<"%char :: h) x.
Proof. intros H. apply sealed_clean. now apply clean_without. Qed.

Lemma sealed_attrs (h a : str) :
  attrs_ok a = true -> sealed ("<"%char :: h) a.
Proof. intros H. apply sealed_no_lt. now apply attrs_no_lt. Qed.

Lemma sealed_blank (h w : str) :
  blank w = true -> sealed ("<"%char :: h) w.
Proof.
  intros H. apply sealed_no_lt. unfold blank in H.
  induction w as [|x w IH]; [reflexivity|]. cbn [forallb] in *.
  apply andb_true_iff in H as [Hx H]. now rewrite (space_no_lt x Hx), IH.
Qed.

Lemma sealed_digits (h : str) (z : Z) : sealed ("<"%char :: h) (str_of_Z z).
Proof. apply sealed_no_lt, str_of_Z_no_lt. Qed.

Lemma free_sealed (h x : str) : sealed h x -> free h x.
Proof. intros H v _. apply H. Qed.

Lemma free_nil (h : str) : free h [].
Proof. intros v _. reflexivity. Qed.

Lemma free_inert (h t : str) : In h heads -> inert t = true -> free h t.
Proof. intros Hh Ht v Hv. now apply inert_begins. Qed.

(** Text in which a tag begins nowhere, in front of a tag. *)
Lemma follows_tag (y' v : str) : follows (("<"%char :: y') ++ v).
Proof. right. eexists. reflexivity. Qed.

Lemma sealed_after (h x y' : str) :
  free h x -> sealed h ("<"%char :: y') -> sealed h (x ++ "<"%char :: y').
Proof.
  intros Hx Hy v. rewrite begins_app, Hy, orb_false_r.
  apply Hx. apply follows_tag.
Qed.

Lemma free_after (h x y' : str) :
  free h x -> free h ("<"%char :: y') -> free h (x ++ "<"%char :: y').
Proof.
  intros Hx Hy v Hv. rewrite begins_app, (Hy v Hv), orb_false_r.
  apply Hx. apply follows_tag.
Qed.

Lemma free_behind (h x y : str) : sealed h x -> free h y -> free h (x ++ y).
Proof. intros Hx Hy v Hv. now rewrite begins_app, Hx, (Hy v Hv). Qed.

(** *** Scanning over such stretches *)

Section Over.

Variables (r : regex) (repl : groups -> str) (h : str).
Hypothesis Hr : headed r h.

Lemma sub_sealed (u v : str) prev :
  sealed h u ->
  sub_from true r repl prev 0 (u ++ v)
  = u ++ sub_from true r repl (prev_after prev u) 0 v.
Proof.
  intros H. apply sub_skip. intros i p Hi.
  apply (match_at_headed r h); [exact Hr|]. now apply begins_at.
Qed.

Lemma sub_free_over (u v : str) prev :
  free h u -> follows v ->
  sub_from true r repl prev 0 (u ++ v)
  = u ++ sub_from true r repl (prev_after prev u) 0 v.
Proof.
  intros H Hv. apply sub_skip. intros i p Hi.
  apply (match_at_headed r h); [exact Hr|]. apply begins_at; [|exact Hi].
  now apply H.
Qed.

(** A stretch at whose start the pattern fails, and in the rest of
    which its tag begins nowhere. *)
Lemma sub_missed (c : ascii) (u v : str) prev :
  (forall p, match_at true r false p ((c :: u) ++ v) = None) ->
  sealed h u ->
  sub_from true r repl prev 0 ((c :: u) ++ v)
  = (c :: u) ++ sub_from true r repl (prev_after prev (c :: u)) 0 v.
Proof.
  intros H0 H. apply sub_skip. intros [|i] p Hi; [apply H0|].
  cbn [skipn]. apply (match_at_headed r h); [exact Hr|].
  apply begins_at; [apply H | cbn [length] in Hi; lia].
Qed.

Lemma search_sealed (u v : str) prev :
  sealed h u ->
  search_from true r prev (u ++ v) = search_from true r (prev_after prev u) v.
Proof.
  intros H. apply search_skip. intros i p Hi.
  apply (match_at_headed r h); [exact Hr|]. now apply begins_at.
Qed.

Lemma search_free_over (u v : str) prev :
  free h u -> follows v ->
  search_from true r prev (u ++ v) = search_from true r (prev_after prev u) v.
Proof.
  intros H Hv. apply search_skip. intros i p Hi.
  apply (match_at_headed r h); [exact Hr|]. apply begins_at; [|exact Hi].
  now apply H.
Qed.

End Over.

Lemma sub_nil (r : regex) (repl : groups -> str) (c : ascii) (h : str) prev :
  headed r (c :: h) -> sub_from true r repl prev 0 [] = [].
Proof.
  intros Hr. apply sub_end. now apply (match_at_headed r (c :: h)).
Qed.

Lemma edge_nil : edge [].
Proof. split; [now left | reflexivity]. Qed.

(** *** A substitution along a document *)

Lemma weave_cons (ff : Flow -> str) (bf : Block -> str) (f : Flow)
    (b : Block) items (tail : Flow) :
  weave ff bf ((f, b) :: items, tail)
  = ff f ++ bf b ++ weave ff bf (items, tail).
Proof. unfold weave. cbn [fst snd map concat]. now rewrite <- !app_assoc. Qed.

Lemma weave_map (ff : Flow -> str) (bf : Block -> str)
    (fn : Block -> Block) items (tail : Flow) :
  weave ff (fun b => bf (fn b)) (items, tail)
  = weave ff bf (map (fun x => (fst x, fn (snd x))) items, tail).
Proof.
  unfold weave. cbn [fst snd]. f_equal. f_equal.
  induction items as [|[f b] items IH]; [reflexivity|].
  cbn [map fst snd]. now rewrite IH.
Qed.

Section Pass.

Variables (r : regex) (repl : groups -> str) (c : ascii) (h : str).
Hypothesis Hr : headed r (c :: h).

Variables (ff ff' : Flow -> str) (bf bf' : Block -> str).
Variable okb : Block -> bool.

Hypothesis flow_step :
  forall f v prev,
    flow_ok f = true -> edge v ->
    exists prev',
      sub_from true r repl prev 0 (ff f ++ v)
      = ff' f ++ sub_from true r repl prev' 0 v.

Hypothesis block_step :
  forall b v prev,
    okb b = true ->
    exists prev',
      sub_from true r repl prev 0 (bf b ++ v)
      = bf' b ++ sub_from true r repl prev' 0 v.

Hypothesis block_edge : forall b v, okb b = true -> edge (bf b ++ v).

(** What the substitution does to the text and to the blocks, it does
    to the document. *)
Lemma weave_pass (items : list (Flow * Block)) (tail : Flow) :
  forallb (fun x => flow_ok (fst x) && okb (snd x)) items = true ->
  flow_ok tail = true ->
  forall prev,
    sub_from true r repl prev 0 (weave ff bf (items, tail))
    = weave ff' bf' (items, tail).
Proof.
  intros Hi Ht. induction items as [|[f b] items IH]; intros prev.
  - unfold weave. cbn [fst snd map concat app].
    rewrite <- (app_nil_r (ff tail)).
    destruct (flow_step tail [] prev Ht edge_nil) as (prev' & ->).
    now rewrite (sub_nil r repl c h prev' Hr), app_nil_r.
  - cbn [forallb fst snd] in Hi. apply andb_true_iff in Hi as [Hfb Hi].
    apply andb_true_iff in Hfb as [Hf Hb].
    rewrite !weave_cons.
    destruct (flow_step f (bf b ++ weave ff bf (items, tail)) prev Hf
                (block_edge b _ Hb)) as (p1 & ->).
    destruct (block_step b (weave ff bf (items, tail)) p1 Hb) as (p2 & ->).
    now rewrite (IH Hi p2).
Qed.

End Pass.

End TagFacts.

(** ** Text with line breaks *)

Module FlowFacts.

Import RenderSpec BreakSpec BlockSpec ReFacts MtFacts ScanFacts SetFacts
  ParaFacts RenderFacts DocumentFacts BreakFacts TagFacts.

Lemma flow_source_cons (t : str) (r : Run) rest (tail : str) :
  flow_source ((t, r) :: rest, tail)
  = t ++ run_source r ++ flow_source (rest, tail).
Proof.
  unfold flow_source. cbn [fst snd map concat]. now rewrite <- !app_assoc.
Qed.

Lemma flow_render_cons px (t : str) (r : Run) rest (tail : str) :
  flow_render px ((t, r) :: rest, tail)
  = t ++ run_render px r ++ flow_render px (rest, tail).
Proof.
  unfold flow_render. cbn [fst snd map concat]. now rewrite <- !app_assoc.
Qed.

Lemma flow_chain_cons (t : str) (r : Run) rest (tail : str) :
  flow_chain ((t, r) :: rest) tail = true ->
  inert t = true /\ breaks_ok r = true /\ has_items r = true
  /\ match rest with
     | [] => flush tail = true
     | (t', _) :: _ => flush t' = true /\ has_items t' = true
     end
  /\ flow_chain rest tail = true.
Proof.
  cbn [flow_chain]. intros H.
  apply andb_true_iff in H as [H Hc]. apply andb_true_iff in H as [H Hn].
  apply andb_true_iff in H as [H Hi]. apply andb_true_iff in H as [Ht Hr].
  repeat split; auto.
  destruct rest as [|[t' r'] rest]; [exact Hn|].
  now apply andb_true_iff in Hn.
Qed.

Lemma flow_chain_inert items (tail : str) :
  flow_chain items tail = true -> inert tail = true.
Proof.
  induction items as [|[t r] rest IH]; [auto|]. intros H.
  apply flow_chain_cons in H as (_ & _ & _ & _ & H). auto.
Qed.

(** The spacer of a run, as the builder writes it. *)
Lemma break_spacer_eq (px : Z) : break_spacer px = br_spacer px.
Proof. reflexivity. Qed.

Lemma run_head (r : Run) :
  has_items r = true -> exists y, run_source r = "<"%char :: y.
Proof.
  destruct r as [|[b sp] r]; [discriminate|]. intros _.
  rewrite run_source_cons. eexists. reflexivity.
Qed.

Lemma run_render_head px (r : Run) :
  has_items r = true -> exists y, run_render px r = "<"%char :: y.
Proof.
  intros H. unfold run_render. destruct (2 <=? length r).
  - eexists. unfold break_spacer. reflexivity.
  - now apply run_head.
Qed.

Lemma blocky_heads (h : str) : In h blocky -> In h heads.
Proof. unfold blocky, heads. cbn [In]. tauto. Qed.

(** *** Where no tag of a block begins *)

Lemma br_sealed (h : str) (b : Br) :
  In h blocky -> blank (gap b) = true -> sealed h (br_source b).
Proof.
  intros Hh Hg. unfold br_source. unfold blocky in Hh. cbn [In] in Hh.
  repeat (destruct Hh as [<- | Hh];
          [apply sealed_app; [apply sealed_clean; reflexivity|];
           apply sealed_app; [now apply sealed_blank|];
           apply sealed_app;
             [destruct (slash b); apply sealed_clean; reflexivity
             | apply sealed_clean; reflexivity]|]).
  destruct Hh.
Qed.

Lemma blocky_lt (h : str) : In h blocky -> exists h', h = "<"%char :: h'.
Proof.
  unfold blocky. cbn [In]. intros Hh.
  repeat (destruct Hh as [<- | Hh]; [eexists; reflexivity|]). destruct Hh.
Qed.

Lemma run_sealed (h : str) (r : Run) :
  In h blocky -> breaks_ok r = true -> sealed h (run_source r).
Proof.
  intros Hh. induction r as [|[b sp] r IH]; intros W; [apply sealed_nil|].
  cbn [breaks_ok forallb fst snd] in W.
  apply andb_true_iff in W as [Hb W]. apply andb_true_iff in Hb as [Hg Hs].
  rewrite run_source_cons.
  apply sealed_app; [now apply br_sealed|].
  apply sealed_app; [|now apply IH].
  destruct (blocky_lt h Hh) as [h' ->]. now apply sealed_blank.
Qed.

Lemma break_spacer_sealed (h : str) (px : Z) :
  In h [lit "<p"; lit "</p>"] -> sealed h (break_spacer px).
Proof.
  intros Hh. unfold break_spacer. cbn [In] in Hh.
  repeat (destruct Hh as [<- | Hh];
          [apply sealed_app; [apply sealed_clean; reflexivity|];
           apply sealed_app; [apply sealed_digits|];
           apply sealed_clean; reflexivity|]).
  destruct Hh.
Qed.

Lemma run_render_sealed (h : str) (px : Z) (r : Run) :
  In h [lit "<p"; lit "</p>"] -> breaks_ok r = true ->
  sealed h (run_render px r).
Proof.
  intros Hh W. unfold run_render. destruct (2 <=? length r).
  - now apply break_spacer_sealed.
  - apply run_sealed; [|exact W]. unfold blocky. cbn [In] in *. tauto.
Qed.

(** No tag of a block begins in text with line breaks. *)
Lemma free_flow (h : str) items (tail : str) :
  In h blocky -> flow_chain items tail = true ->
  free h (flow_source (items, tail)).
Proof.
  intros Hh. induction items as [|[t r] rest IH]; intros W.
  - apply free_inert; [now apply blocky_heads | exact W].
  - apply flow_chain_cons in W as (Ht & Hr & Hn & _ & W).
    rewrite flow_source_cons. intros v Hv.
    destruct (run_head r Hn) as [y E].
    rewrite begins_app.
    rewrite (inert_begins h t);
      [| now apply blocky_heads | exact Ht
       | rewrite <- app_assoc, E; apply follows_tag].
    rewrite begins_app, (run_sealed h r Hh Hr). now apply IH.
Qed.

Lemma free_flow_render (h : str) px items (tail : str) :
  In h [lit "<p"; lit "</p>"] -> flow_chain items tail = true ->
  free h (flow_render px (items, tail)).
Proof.
  intros Hh.
  assert (Hb : In h heads) by (unfold heads; cbn [In] in *; tauto).
  induction items as [|[t r] rest IH]; intros W.
  - apply free_inert; [exact Hb | exact W].
  - apply flow_chain_cons in W as (Ht & Hr & Hn & _ & W).
    rewrite flow_render_cons. intros v Hv.
    destruct (run_render_head px r Hn) as [y E].
    rewrite begins_app.
    rewrite (inert_begins h t);
      [| exact Hb | exact Ht | rewrite <- app_assoc, E; apply follows_tag].
    rewrite begins_app, (run_render_sealed h px r Hh Hr). now apply IH.
Qed.

(** *** Emptiness *)

Lemma blank_tagged (t y z : str) : blank (t ++ ("<"%char :: y) ++ z) = false.
Proof.
  unfold blank. rewrite forallb_app. cbn [app forallb].
  change (isspace "<") with false. cbn [andb]. apply andb_false_r.
Qed.

(** Text is nothing but spaces after the runs are collapsed exactly
    when it was so before. *)
Lemma blank_render px items (tail : str) :
  flow_chain items tail = true ->
  blank (flow_render px (items, tail)) = blank (flow_source (items, tail)).
Proof.
  destruct items as [|[t r] rest]; [reflexivity|]. intros W.
  apply flow_chain_cons in W as (_ & _ & Hn & _ & _).
  rewrite flow_render_cons, flow_source_cons.
  destruct (run_head r Hn) as [y ->].
  destruct (run_render_head px r Hn) as [y' ->].
  now rewrite !blank_tagged.
Qed.

(** Text that is nothing but spaces holds no line break. *)
Lemma blank_flow items (tail : str) :
  flow_chain items tail = true ->
  blank (flow_source (items, tail)) = true -> items = [].
Proof.
  destruct items as [|[t r] rest]; [reflexivity|]. intros W.
  apply flow_chain_cons in W as (_ & _ & Hn & _ & _).
  rewrite flow_source_cons. destruct (run_head r Hn) as [y ->].
  rewrite blank_tagged. discriminate.
Qed.

(** *** The substitution of the runs *)

Lemma follows_flush (v : str) : follows v -> flush v = true.
Proof. intros [-> | [v' ->]]; reflexivity. Qed.

(** What stands behind a run does not start with a space, nor with a
    line break. *)
Lemma next_edge (t : str) (r : Run) rest (tail v : str) :
  flow_chain ((t, r) :: rest) tail = true -> edge v ->
  flush (flow_source (rest, tail) ++ v) = true
  /\ starts_ci (lit "<br") (flow_source (rest, tail) ++ v) = false.
Proof.
  intros W [Hv Hs]. apply flow_chain_cons in W as (_ & _ & _ & Hn & W).
  assert (Hbr : In (lit "<br") heads) by (cbn; tauto).
  destruct rest as [|[t' r'] rest].
  - pose proof (flow_chain_inert [] tail W) as Hi.
    unfold flow_source. cbn [fst snd map concat app].
    destruct tail as [|c tail]; [split; [now apply follows_flush | exact Hs]|].
    split; [exact Hn|].
    exact (begins_at _ _ _ 0 (inert_begins _ _ v Hbr Hi Hv)
             ltac:(cbn [length]; lia)).
  - destruct Hn as [Hf Hne].
    apply flow_chain_cons in W as (Hi & _ & Hn' & _ & _).
    rewrite flow_source_cons, <- !app_assoc.
    destruct t' as [|c t']; [discriminate|]. split; [exact Hf|].
    destruct (run_head r' Hn') as [y E].
    refine (begins_at _ _ _ 0 (inert_begins _ _ _ Hbr Hi _)
              ltac:(cbn [length]; lia)).
    rewrite E. apply follows_tag.
Qed.

Lemma single_run (r : Run) :
  has_items r = true -> (2 <=? length r) = false ->
  exists b sp, r = [(b, sp)].
Proof.
  destruct r as [|[b sp] [|x r]]; try discriminate.
  intros _ _. now exists b, sp.
Qed.

Lemma br_head (b : Br) : br_source b = "<"%char :: tl (br_source b).
Proof. reflexivity. Qed.

(** A single line break, with the spaces behind it, is left alone. *)
Lemma single_kept (repl : groups -> str) (b : Br) (sp next : str) prev :
  blank (gap b) = true -> blank sp = true ->
  flush next = true -> starts_ci (lit "<br") next = false ->
  sub_from true br_run_pattern repl prev 0 ((br_source b ++ sp) ++ next)
  = (br_source b ++ sp)
    ++ sub_from true br_run_pattern repl
         (prev_after prev (br_source b ++ sp)) 0 next.
Proof.
  intros Hg Hs Hf Hn. rewrite br_head. cbn [app].
  change ("<"%char :: (tl (br_source b) ++ sp) ++ next)
    with (("<"%char :: tl (br_source b) ++ sp) ++ next).
  apply (sub_missed _ _ (lit "<br") headed_br_run).
  - intros p. cbn [app]. rewrite <- app_assoc.
    change ("<"%char :: tl (br_source b) ++ sp ++ next)
      with (br_source b ++ sp ++ next).
    apply br_run_miss; [exact Hg|].
    intros a b' E Ha.
    destruct (spaces_prefix sp next a b' Hs Hf (eq_sym E) Ha)
      as (i & Hi & _ & ->).
    destruct (Nat.eq_dec i (length sp)) as [-> | Hne].
    + now rewrite skipn_all.
    + destruct (blank_skipn sp i Hs ltac:(lia)) as (c & u & -> & Hc).
      change (lit "<br") with ("<"%char :: lit "br").
      cbn [app starts_ci]. now rewrite (space_no_lt c Hc).
  - apply sealed_app; [|now apply (sealed_blank (lit "br"))].
    intros v. now apply br_inner_free.
Qed.

Lemma flow_collapse (px : Z) items (tail : str) :
  flow_chain items tail = true ->
  forall v prev,
    edge v ->
    exists prev',
      sub_from true br_run_pattern (fun _ => br_spacer px) prev 0
        (flow_source (items, tail) ++ v)
      = flow_render px (items, tail)
        ++ sub_from true br_run_pattern (fun _ => br_spacer px) prev' 0 v.
Proof.
  assert (Hbr : In (lit "<br") heads) by (cbn; tauto).
  induction items as [|[t r] rest IH]; intros W v prev Hv.
  - eexists. unfold flow_source, flow_render. cbn [fst snd map concat app].
    apply (sub_free_over _ _ (lit "<br") headed_br_run);
      [now apply free_inert | exact (proj1 Hv)].
  - destruct (next_edge t r rest tail v W Hv) as [Hf Hs].
    apply flow_chain_cons in W as (Ht & Hr & Hn & _ & W).
    rewrite flow_source_cons, flow_render_cons, <- !app_assoc.
    destruct (run_head r Hn) as [y E].
    rewrite (sub_free_over _ _ (lit "<br") headed_br_run);
      [| now apply free_inert | rewrite E; apply follows_tag].
    unfold run_render. destruct (2 <=? length r) eqn:L.
    + apply Nat.leb_le in L.
      rewrite (sub_hit _ _ (run_source r) _ []);
        [| rewrite E; discriminate | now apply br_run_hit].
      destruct (IH W v (prev_after (prev_after prev t) (run_source r)) Hv)
        as (p' & ->).
      exists p'. change (break_spacer px) with (br_spacer px).
      now rewrite <- !app_assoc.
    + destruct (single_run r Hn L) as (b & sp & ->).
      cbn [breaks_ok forallb fst snd] in Hr. rewrite andb_true_r in Hr.
      apply andb_true_iff in Hr as [Hg Hsp].
      rewrite run_source_cons. cbn [run_source map concat].
      rewrite app_nil_r.
      rewrite single_kept by assumption.
      destruct (IH W v (prev_after (prev_after prev t) (br_source b ++ sp))
                  Hv) as (p' & ->).
      exists p'. now rewrite <- !app_assoc.
Qed.

End FlowFacts.

(** ** The patterns on a block *)

Module TagMatch.

Import RenderSpec DocumentSpec BreakSpec BlockSpec ReFacts MtFacts ScanFacts
  SetFacts ParaFacts RenderFacts DocumentFacts BreakFacts TagFacts FlowFacts.

Lemma element_eq (o a c cl v : str) :
  (o ++ a ++ lit ">" ++ c ++ cl) ++ v = element o a c cl v.
Proof. unfold element. now rewrite <- !app_assoc. Qed.

Lemma opening_word (h o : str) prev :
  spelled h o = true -> h <> [] ->
  word_opt (prev_after prev o) = word_opt (prev_after None h).
Proof. intros H Hne. now apply spelled_prev. Qed.

Lemma closing_no_space (h cl v : str) :
  spelled ("<"%char :: h) cl = true ->
  match cl ++ v with
  | [] => True
  | c :: _ => cls true false [ISpace] c = false
  end.
Proof. intros H. destruct (spelled_lt h cl H) as [cl' ->]. reflexivity. Qed.

Lemma closing_follows (h cl v : str) :
  spelled ("<"%char :: h) cl = true -> follows (cl ++ v).
Proof. intros H. destruct (spelled_lt h cl H) as [cl' ->]. apply follows_tag. Qed.

Lemma not_gt_attrs (a : str) :
  forallb (fun x => negb (eqc x ">")) a = true ->
  forallb (cls true true [IChar ">"]) a = true.
Proof.
  induction a as [|x a IH]; [reflexivity|]. cbn [forallb]. intros H.
  apply andb_true_iff in H as [Hx H]. now rewrite not_gt_cls, Hx, IH.
Qed.

(** [<p] at a word boundary. *)
Lemma p_open_hit (o a rest : str) prev :
  spelled (lit "<p") o = true -> attrs_ok a = true ->
  match_at true p_open_pattern false prev (o ++ a ++ ">"%char :: rest)
  = Some (a ++ ">"%char :: rest, []).
Proof.
  intros Ho Ha. unfold match_at.
  change p_open_pattern with (Cat (cat (map Lit ("<"%char :: lit "p"))) Bound).
  rewrite mt_cat, (mt_lits_spelled _ _ _ _ _ _ _ Ho), mt_bound.
  rewrite (opening_word (lit "<p") o prev Ho) by discriminate.
  change (word_opt (prev_after None (lit "<p"))) with true.
  now rewrite (attrs_next a _ Ha).
Qed.

(** A blank paragraph. *)
Lemma blank_hit (o a c cl v : str) prev :
  spelled (lit "<p") o = true -> attrs_ok a = true -> blank c = true ->
  spelled (lit "</p>") cl = true ->
  match_at true blank_p_pattern false prev (element o a c cl v)
  = Some (v, []).
Proof.
  intros Ho Ha Hc Hcl. unfold match_at, element.
  change blank_p_pattern with blank_p_expanded. unfold blank_p_expanded.
  rewrite mt_cat, (mt_lits_spelled _ _ _ _ _ _ _ Ho), mt_cat, mt_bound.
  rewrite (opening_word (lit "<p") o prev Ho) by discriminate.
  change (word_opt (prev_after None (lit "<p"))) with true.
  rewrite (attrs_next a _ Ha). cbn [xorb]. rewrite mt_cat.
  apply mt_repeat_greedy_max;
    [now apply attrs_not_gt | reflexivity | lia |].
  rewrite mt_cat. cbn [mt]. rewrite lit_eq_refl.
  apply mt_repeat_greedy_max;
    [now apply blank_spaces | exact (closing_no_space _ cl v Hcl) | lia |].
  now rewrite (mt_lits_spelled _ _ _ _ _ _ _ Hcl).
Qed.

(** A paragraph that is not blank is none for the first pattern. *)
Lemma blank_miss (o a c cl v : str) prev :
  spelled (lit "<p") o = true -> attrs_ok a = true -> blank c = false ->
  free (lit "</p>") c -> spelled (lit "</p>") cl = true ->
  match_at true blank_p_pattern false prev (element o a c cl v) = None.
Proof.
  intros Ho Ha Hc Hf Hcl. unfold match_at, element.
  change blank_p_pattern with blank_p_expanded. unfold blank_p_expanded.
  rewrite mt_cat, (mt_lits_spelled _ _ _ _ _ _ _ Ho), mt_cat, mt_bound.
  rewrite (opening_word (lit "<p") o prev Ho) by discriminate.
  change (word_opt (prev_after None (lit "<p"))) with true.
  rewrite (attrs_next a _ Ha). cbn [xorb]. rewrite mt_cat.
  apply mt_repeat_none. intros a' b' E Ha' _.
  rewrite mt_cat. destruct b' as [|y b']; [reflexivity|].
  cbn [mt]. rewrite lit_eq_gt. unfold eqc.
  destruct (Ascii.eqb_spec y ">") as [->|_]; [|reflexivity].
  symmetry in E.
  apply (first_gt_unique a a' _ b' (attrs_not_gt a Ha) Ha') in E as [-> ->].
  apply mt_repeat_none. intros w b3 E Hw _.
  apply mt_lits_miss. symmetry in E.
  destruct (spaces_within c _ w b3 Hc E (cls_spaces w Hw)) as (i & Hlt & ->).
  apply begins_at; [|exact Hlt].
  apply Hf. exact (closing_follows _ cl v Hcl).
Qed.

(** A paragraph, with its content as group 1. *)
Lemma paragraph_hit (o a c cl v : str) prev :
  spelled (lit "<p") o = true -> attrs_ok a = true ->
  free (lit "</p>") c -> spelled (lit "</p>") cl = true ->
  match_at true para_pattern false prev (element o a c cl v)
  = Some (v, [(1, c)]).
Proof.
  intros Ho Ha Hf Hcl. unfold match_at, element.
  change para_pattern with para_expanded. unfold para_expanded.
  rewrite mt_cat, (mt_lits_spelled _ _ _ _ _ _ _ Ho), mt_cat, mt_bound.
  rewrite (opening_word (lit "<p") o prev Ho) by discriminate.
  change (word_opt (prev_after None (lit "<p"))) with true.
  rewrite (attrs_next a _ Ha). cbn [xorb]. rewrite mt_cat.
  apply mt_repeat_greedy_max;
    [now apply attrs_not_gt | reflexivity | lia |].
  rewrite mt_cat. cbn [mt]. rewrite lit_eq_refl.
  apply mt_repeat_lazy_first; [apply all_any | lia | |].
  - intros a1 a2 -> Ha2. apply mt_lits_miss.
    assert (Hlen : length a1 < length (a1 ++ a2)).
    { rewrite length_app. destruct a2; [congruence | cbn; lia]. }
    pose proof (begins_at _ _ _ (length a1)
                  (Hf _ (closing_follows _ cl v Hcl)) Hlen) as S.
    now rewrite skipn_self in S.
  - rewrite (mt_lits_spelled _ _ _ _ _ _ _ Hcl). cbn [andb].
    now rewrite firstn_front.
Qed.

(** The opening tag of a div, with its attributes as group 1. *)
Lemma div_opening_hit (o a v : str) prev :
  spelled (lit "<div") o = true -> attrs_ok a = true ->
  match_at true div_open_pattern false prev ((o ++ a ++ lit ">") ++ v)
  = Some (v, [(1, a)]).
Proof.
  intros Ho Ha. unfold match_at. rewrite <- !app_assoc.
  change (lit ">" ++ v) with (">"%char :: v).
  change div_open_pattern with div_open_expanded. unfold div_open_expanded.
  rewrite mt_cat, (mt_lits_spelled _ _ _ _ _ _ _ Ho), mt_cat, mt_bound.
  rewrite (opening_word (lit "<div") o prev Ho) by discriminate.
  change (word_opt (prev_after None (lit "<div"))) with true.
  rewrite (attrs_next a _ Ha). cbn [xorb]. rewrite mt_cat. cbn [mt].
  apply mt_repeat_greedy_max;
    [now apply attrs_not_gt | reflexivity | lia |].
  rewrite lit_eq_refl. cbn [andb].
  now rewrite (firstn_front a (">"%char :: v)).
Qed.

Lemma div_closing_hit (cl v : str) prev :
  spelled (lit "</div>") cl = true ->
  match_at true div_close_pattern false prev (cl ++ v) = Some (v, []).
Proof.
  intros Hcl. unfold match_at.
  change div_close_pattern with (cat (map Lit ("<"%char :: lit "/div>"))).
  now rewrite (mt_lits_spelled _ _ _ _ _ _ _ Hcl).
Qed.

(** The body element, with its content as group 1. *)
Lemma body_element_hit (o a c cl v : str) prev :
  spelled (lit "<body") o = true ->
  forallb (fun x => negb (eqc x ">")) a = true ->
  free (lit "</body>") c -> spelled (lit "</body>") cl = true ->
  match_at true body_pattern false prev (element o a c cl v)
  = Some (v, [(1, c)]).
Proof.
  intros Ho Ha Hf Hcl. unfold match_at, element.
  change body_pattern with body_expanded. unfold body_expanded.
  rewrite mt_cat, (mt_lits_spelled _ _ _ _ _ _ _ Ho), mt_cat.
  apply mt_repeat_greedy_max;
    [now apply not_gt_attrs | reflexivity | lia |].
  rewrite mt_cat. cbn [mt]. rewrite lit_eq_refl.
  apply mt_repeat_lazy_first; [apply all_any | lia | |].
  - intros a1 a2 -> Ha2. apply mt_lits_miss.
    assert (Hlen : length a1 < length (a1 ++ a2)).
    { rewrite length_app. destruct a2; [congruence | cbn; lia]. }
    pose proof (begins_at _ _ _ (length a1)
                  (Hf _ (closing_follows _ cl v Hcl)) Hlen) as S.
    now rewrite skipn_self in S.
  - rewrite (mt_lits_spelled _ _ _ _ _ _ _ Hcl). cbn [andb].
    now rewrite firstn_front.
Qed.

End TagMatch.

(** ** The builder on a document of blocks *)

Module BlockFacts.

Import RenderSpec DocumentSpec BreakSpec BlockSpec ReFacts MtFacts ScanFacts
  SetFacts ParaFacts RenderFacts DocumentFacts BreakFacts TagFacts FlowFacts
  TagMatch.

(** *** The parts of a block *)

Lemma block_ok_parts (b : Block) :
  block_ok b = true ->
  (spelled (lit "<p") (opening b) = true
   \/ spelled (lit "<div") (opening b) = true)
  /\ attrs_ok (attributes b) = true
  /\ flow_ok (inner b) = true
  /\ (spelled (lit "</p>") (closing b) = true
      \/ spelled (lit "</div>") (closing b) = true).
Proof.
  unfold block_ok. intros H.
  apply andb_true_iff in H as [H Hcl]. apply andb_true_iff in H as [H Hf].
  apply andb_true_iff in H as [Ho Ha].
  apply orb_true_iff in Ho. apply orb_true_iff in Hcl. auto.
Qed.

Lemma plain_parts (b : Block) :
  plain b = true ->
  spelled (lit "<p") (opening b) = true
  /\ attrs_ok (attributes b) = true
  /\ flow_ok (inner b) = true
  /\ spelled (lit "</p>") (closing b) = true.
Proof.
  unfold plain. intros H.
  apply andb_true_iff in H as [H Hcl]. apply andb_true_iff in H as [H Hf].
  apply andb_true_iff in H as [Ho Ha]. auto.
Qed.

Lemma opened_p (b : Block) :
  block_ok b = true -> spelled (lit "<p") (opening (opened b)) = true.
Proof.
  intros H. apply block_ok_parts in H as ([Ho | Ho] & _).
  - cbn [opened opening]. destruct (spelled (lit "<div") (opening b)) eqn:D;
      [reflexivity | exact Ho].
  - cbn [opened opening]. now rewrite Ho.
Qed.

Lemma plain_normal (b : Block) :
  block_ok b = true -> plain (closed (opened b)) = true.
Proof.
  intros H. pose proof (opened_p b H) as Ho.
  apply block_ok_parts in H as (_ & Ha & Hf & Hcl).
  unfold plain. cbn [closed opened opening attributes inner closing] in *.
  rewrite Ho, Ha, Hf. cbn [andb].
  destruct (spelled (lit "</div>") (closing b)) eqn:D; [reflexivity|].
  now destruct Hcl.
Qed.

Lemma tag_head (h o : str) :
  spelled ("<"%char :: h) o = true -> o <> [].
Proof. intros H. destruct (spelled_lt h o H) as [o' ->]. discriminate. Qed.

Lemma gt_sealed (h : str) : sealed ("<"%char :: h) (lit ">").
Proof. apply sealed_no_lt. reflexivity. Qed.

Lemma flow_free (h : str) (f : Flow) :
  In h blocky -> flow_ok f = true -> free h (flow_source f).
Proof. destruct f as [items tail]. apply free_flow. Qed.

Lemma flow_render_free (h : str) (px : Z) (f : Flow) :
  In h [lit "<p"; lit "</p>"] -> flow_ok f = true ->
  free h (flow_render px f).
Proof. destruct f as [items tail]. apply free_flow_render. Qed.

Lemma flow_blank (px : Z) (f : Flow) :
  flow_ok f = true -> blank (flow_render px f) = blank (flow_source f).
Proof. destruct f as [items tail]. apply blank_render. Qed.

(** The head of a block, and its content in front of its closing tag. *)
Lemma head_sealed (h o a : str) :
  sealed ("<"%char :: h) o -> attrs_ok a = true ->
  sealed ("<"%char :: h) (o ++ a ++ lit ">").
Proof.
  intros Ho Ha. apply sealed_app; [exact Ho|].
  apply sealed_app; [now apply sealed_attrs | apply gt_sealed].
Qed.

Lemma content_sealed (h c cl : str) (t : str) :
  free h c -> spelled ("<"%char :: t) cl = true -> sealed h cl ->
  sealed h (c ++ cl).
Proof.
  intros Hc Hs Hcl. destruct (spelled_lt t cl Hs) as [cl' ->].
  now apply sealed_after.
Qed.

Lemma edge_tag (t o v : str) :
  spelled ("<"%char :: t) o = true ->
  mismatch (lit "<br") ("<"%char :: t) = true -> edge (o ++ v).
Proof.
  intros H M. split.
  - destruct (spelled_lt t o H) as [o' ->]. apply follows_tag.
  - exact (spelled_other _ _ _ v H M).
Qed.

Ltac tag := eapply sealed_tag; [eassumption | reflexivity].

(** *** The text between the blocks *)

Section Kept.

Variables (r : regex) (repl : groups -> str) (h : str).
Hypothesis Hr : headed r h.

Lemma kept_flow :
  In h blocky ->
  forall f v prev,
    flow_ok f = true -> edge v ->
    exists prev',
      sub_from true r repl prev 0 (flow_source f ++ v)
      = flow_source f ++ sub_from true r repl prev' 0 v.
Proof.
  intros Hh f v prev Hf Hv. eexists.
  apply (sub_free_over r repl h Hr); [now apply flow_free | exact (proj1 Hv)].
Qed.

Lemma kept_render (px : Z) :
  In h [lit "<p"; lit "</p>"] ->
  forall f v prev,
    flow_ok f = true -> edge v ->
    exists prev',
      sub_from true r repl prev 0 (flow_render px f ++ v)
      = flow_render px f ++ sub_from true r repl prev' 0 v.
Proof.
  intros Hh f v prev Hf Hv. eexists.
  apply (sub_free_over r repl h Hr);
    [now apply flow_render_free | exact (proj1 Hv)].
Qed.

End Kept.

Lemma collapsed_flow (px : Z) :
  forall f v prev,
    flow_ok f = true -> edge v ->
    exists prev',
      sub_from true br_run_pattern (fun _ => br_spacer px) prev 0
        (flow_source f ++ v)
      = flow_render px f
        ++ sub_from true br_run_pattern (fun _ => br_spacer px) prev' 0 v.
Proof. intros [items tail] v prev Hf Hv. now apply flow_collapse. Qed.

(** *** The two div substitutions *)

Lemma open_step (repl := fun g => lit "<p" ++ group g 1 ++ lit ">")
    (b : Block) (v : str) prev :
  block_ok b = true ->
  exists prev',
    sub_from true div_open_pattern repl prev 0 (block_source b ++ v)
    = block_source (opened b)
      ++ sub_from true div_open_pattern repl prev' 0 v.
Proof.
  intros H. apply block_ok_parts in H as (Ho & Ha & Hf & Hcl).
  assert (Hc : sealed (lit "<div")
                 (flow_source (inner b) ++ closing b)).
  { destruct Hcl as [Hcl | Hcl];
      (eapply content_sealed;
       [apply flow_free; [cbn; tauto | exact Hf] | exact Hcl | tag]). }
  unfold block_source. cbn [opened opening attributes inner closing].
  destruct (spelled (lit "<div") (opening b)) eqn:D.
  - assert (E : (opening b ++ attributes b ++ lit ">"
                 ++ flow_source (inner b) ++ closing b) ++ v
                = (opening b ++ attributes b ++ lit ">")
                  ++ (flow_source (inner b) ++ closing b) ++ v)
      by (now rewrite <- !app_assoc).
    rewrite E.
    rewrite (sub_hit _ _ (opening b ++ attributes b ++ lit ">") _
               [(1, attributes b)]).
    + unfold repl at 1. cbn [group Nat.eqb].
      rewrite (sub_sealed _ _ (lit "<div") headed_div_open) by exact Hc.
      eexists. now rewrite <- !app_assoc.
    + intros N. apply app_eq_nil in N as [N _].
      exact (tag_head _ _ D N).
    + now apply div_opening_hit.
  - destruct Ho as [Ho | Ho]; [|congruence].
    eexists. apply (sub_sealed _ _ (lit "<div") headed_div_open).
    rewrite !app_assoc, <- (app_assoc _ (flow_source (inner b))).
    apply sealed_app; [|exact Hc].
    rewrite <- !app_assoc. apply head_sealed; [tag | exact Ha].
Qed.

Lemma close_step (repl := fun _ : groups => lit "</p>")
    (b : Block) (v : str) prev :
  block_ok b = true ->
  exists prev',
    sub_from true div_close_pattern repl prev 0
      (block_source (opened b) ++ v)
    = block_source (closed (opened b))
      ++ sub_from true div_close_pattern repl prev' 0 v.
Proof.
  intros H. pose proof (opened_p b H) as Ho.
  apply block_ok_parts in H as (_ & Ha & Hf & Hcl).
  unfold block_source. cbn [closed opening attributes inner closing].
  set (o := opening (opened b)) in *.
  cbn [opened attributes inner closing].
  assert (E : forall cl,
             (o ++ attributes b ++ lit ">" ++ flow_source (inner b) ++ cl)
             ++ v
             = ((o ++ attributes b ++ lit ">") ++ flow_source (inner b))
               ++ cl ++ v)
    by (intros cl; now rewrite <- !app_assoc).
  rewrite E.
  assert (Hfr : free (lit "</div>")
                  ((o ++ attributes b ++ lit ">")
                   ++ flow_source (inner b))).
  { apply free_behind; [apply head_sealed; [tag | exact Ha]|].
    apply flow_free; [cbn; tauto | exact Hf]. }
  assert (Hfo : follows (closing b ++ v))
    by (destruct Hcl as [Hcl | Hcl]; exact (closing_follows _ _ v Hcl)).
  rewrite (sub_free_over _ _ (lit "</div>") headed_div_close)
    by assumption.
  destruct (spelled (lit "</div>") (closing b)) eqn:D.
  - rewrite (sub_hit _ _ (closing b) _ []);
      [| exact (tag_head _ _ D) | now apply div_closing_hit].
    eexists. unfold repl at 1. now rewrite <- !app_assoc.
  - destruct Hcl as [Hcl | Hcl]; [|congruence].
    rewrite (sub_sealed _ _ (lit "</div>") headed_div_close) by tag.
    eexists. now rewrite <- !app_assoc.
Qed.

(** *** The three substitutions on paragraphs *)

Section Plain.

Variable px : Z.
Variable b : Block.
Hypothesis Hb : plain b = true.

Let Ho := proj1 (plain_parts b Hb).
Let Ha := proj1 (proj2 (plain_parts b Hb)).
Let Hf := proj1 (proj2 (proj2 (plain_parts b Hb))).
Let Hcl := proj2 (proj2 (proj2 (plain_parts b Hb))).

Lemma source_edge (v : str) : edge (block_source b ++ v).
Proof.
  unfold block_source. rewrite <- app_assoc.
  exact (edge_tag _ _ _ Ho eq_refl).
Qed.

Lemma collapsed_edge (v : str) : edge (block_collapsed px b ++ v).
Proof.
  unfold block_collapsed. rewrite <- app_assoc.
  exact (edge_tag _ _ _ Ho eq_refl).
Qed.

Lemma unblanked_edge (v : str) : edge (block_unblanked px b ++ v).
Proof.
  unfold block_unblanked. destruct (empty b); [|apply collapsed_edge].
  split; [right; eexists; reflexivity | reflexivity].
Qed.

Lemma collapse_step (v : str) prev :
  exists prev',
    sub_from true br_run_pattern (fun _ => br_spacer px) prev 0
      (block_source b ++ v)
    = block_collapsed px b
      ++ sub_from true br_run_pattern (fun _ => br_spacer px) prev' 0 v.
Proof.
  unfold block_source, block_collapsed.
  assert (E : (opening b ++ attributes b ++ lit ">"
               ++ flow_source (inner b) ++ closing b) ++ v
              = (opening b ++ attributes b ++ lit ">")
                ++ flow_source (inner b) ++ closing b ++ v)
    by (now rewrite <- !app_assoc).
  rewrite E.
  rewrite (sub_sealed _ _ (lit "<br") headed_br_run)
    by (apply head_sealed; [tag | exact Ha]).
  destruct (collapsed_flow px (inner b) (closing b ++ v)
              (prev_after prev (opening b ++ attributes b ++ lit ">")) Hf
              (edge_tag _ _ _ Hcl eq_refl)) as (p1 & ->).
  rewrite (sub_sealed _ _ (lit "<br") headed_br_run) by tag.
  eexists. now rewrite <- !app_assoc.
Qed.

Let content := flow_render px (inner b).

Lemma content_free : free (lit "</p>") content.
Proof. apply flow_render_free; [cbn; tauto | exact Hf]. Qed.

Lemma content_blank : blank content = empty b.
Proof. unfold content, empty. now apply flow_blank. Qed.

Lemma collapsed_element (v : str) :
  block_collapsed px b ++ v
  = element (opening b) (attributes b) content (closing b) v.
Proof. apply element_eq. Qed.

Lemma inside_sealed : sealed (lit "<p") (tl (block_collapsed px b)).
Proof.
  unfold block_collapsed. destruct (spelled_lt _ _ Ho) as [o' E].
  rewrite E. cbn [app tl].
  assert (Ho' : spelled (lit "p") o' = true).
  { pose proof Ho as H. rewrite E in H. cbn [spelled] in H.
    now apply andb_true_iff in H as [_ H]. }
  rewrite !app_assoc, <- (app_assoc _ (flow_render px (inner b))).
  apply sealed_app.
  - rewrite <- !app_assoc. apply (head_sealed (lit "p")); [tag | exact Ha].
  - eapply content_sealed;
      [apply flow_render_free; [cbn; tauto | exact Hf] | exact Hcl | tag].
Qed.

Lemma collapsed_head :
  block_collapsed px b = "<"%char :: tl (block_collapsed px b).
Proof.
  unfold block_collapsed. destruct (spelled_lt _ _ Ho) as [o' ->].
  reflexivity.
Qed.

Lemma unblank_step (v : str) prev :
  exists prev',
    sub_from true blank_p_pattern (fun _ => spacer px) prev 0
      (block_collapsed px b ++ v)
    = block_unblanked px b
      ++ sub_from true blank_p_pattern (fun _ => spacer px) prev' 0 v.
Proof.
  unfold block_unblanked. pose proof content_blank as B.
  destruct (empty b).
  - rewrite (sub_hit _ _ (block_collapsed px b) _ []).
    + eexists. reflexivity.
    + rewrite collapsed_head. discriminate.
    + rewrite collapsed_element. now apply blank_hit.
  - eexists. rewrite collapsed_head.
    apply (sub_missed _ _ (lit "<p") headed_blank_p);
      [|apply inside_sealed].
    intros p. rewrite <- collapsed_head, collapsed_element.
    apply blank_miss; auto using content_free.
Qed.

(** The table that the builder writes for a paragraph is the layout
    that the specification asks for. *)
Lemma wrap_para_layout (c : str) :
  wrap_para px [(1, c)] = layout [content_cell c; spacer_cell px].
Proof.
  unfold wrap_para, layout, content_cell, spacer_cell, content_row,
    spacer_row, table_open.
  cbn [group Nat.eqb concat]. now rewrite app_nil_r, <- !app_assoc.
Qed.

Lemma spacer_layout : spacer px = layout [spacer_cell px].
Proof.
  unfold spacer, layout, spacer_cell, spacer_row, table_open.
  cbn [concat]. now rewrite app_nil_r, <- !app_assoc.
Qed.

Lemma wrap_step (v : str) prev :
  exists prev',
    sub_from true para_pattern (wrap_para px) prev 0
      (block_unblanked px b ++ v)
    = block_render px b
      ++ sub_from true para_pattern (wrap_para px) prev' 0 v.
Proof.
  unfold block_unblanked, block_render. destruct (empty b).
  - eexists. rewrite <- spacer_layout.
    apply (sub_sealed _ _ (lit "<p") headed_para).
    intros w. apply spacer_free.
  - rewrite (sub_hit _ _ (block_collapsed px b) _ [(1, content)]).
    + eexists. now rewrite wrap_para_layout.
    + rewrite collapsed_head. discriminate.
    + rewrite collapsed_element. apply paragraph_hit; auto using content_free.
Qed.

End Plain.

(** *** The document *)

Lemma body_ok_parts (d : Body) :
  body_ok d = true ->
  has_items (fst d) = true
  /\ forallb (fun x => flow_ok (fst x) && block_ok (snd x)) (fst d) = true
  /\ flow_ok (snd d) = true.
Proof.
  unfold body_ok. intros H.
  apply andb_true_iff in H as [H Ht]. apply andb_true_iff in H as [Hn Hi].
  auto.
Qed.

Lemma plain_items (items : list (Flow * Block)) :
  forallb (fun x => flow_ok (fst x) && block_ok (snd x)) items = true ->
  forallb (fun x => flow_ok (fst x) && plain (snd x))
    (map (fun x => (fst x, normal (snd x))) items) = true.
Proof.
  induction items as [|[f b] items IH]; [reflexivity|].
  cbn [forallb map fst snd]. intros H.
  apply andb_true_iff in H as [Hfb H]. apply andb_true_iff in Hfb as [Hf Hb].
  unfold normal at 1. now rewrite Hf, (plain_normal b Hb), IH.
Qed.

Lemma ok_edge (b : Block) (v : str) :
  block_ok b = true -> edge (block_source b ++ v).
Proof.
  intros H. apply block_ok_parts in H as ([Ho | Ho] & _).
  - unfold block_source. rewrite <- app_assoc.
    exact (edge_tag _ _ _ Ho eq_refl).
  - unfold block_source. rewrite <- app_assoc.
    exact (edge_tag _ _ _ Ho eq_refl).
Qed.

Lemma opened_edge (b : Block) (v : str) :
  block_ok b = true -> edge (block_source (opened b) ++ v).
Proof.
  intros H. pose proof (opened_p b H) as Ho.
  unfold block_source. rewrite <- app_assoc.
  exact (edge_tag _ _ _ Ho eq_refl).
Qed.

Lemma block_sealed (b : Block) :
  block_ok b = true -> sealed (lit "<body") (block_source b).
Proof.
  intros H. apply block_ok_parts in H as (Ho & Ha & Hf & Hcl).
  unfold block_source.
  rewrite !app_assoc, <- (app_assoc _ (flow_source (inner b))).
  apply sealed_app.
  - rewrite <- !app_assoc.
    apply head_sealed; [destruct Ho as [Ho | Ho]; tag | exact Ha].
  - destruct Hcl as [Hcl | Hcl];
      (eapply content_sealed;
       [apply flow_free; [cbn; tauto | exact Hf] | exact Hcl | tag]).
Qed.

(** No body element begins in the content of a document. *)
Lemma body_free (items : list (Flow * Block)) (tail : Flow) :
  forallb (fun x => flow_ok (fst x) && block_ok (snd x)) items = true ->
  flow_ok tail = true ->
  free (lit "<body") (body_source (items, tail)).
Proof.
  intros Hi Ht. unfold body_source.
  induction items as [|[f b] items IH].
  - unfold weave. cbn [fst snd map concat app].
    apply flow_free; [cbn; tauto | exact Ht].
  - cbn [forallb fst snd] in Hi. apply andb_true_iff in Hi as [Hfb Hi].
    apply andb_true_iff in Hfb as [Hf Hb].
    rewrite weave_cons. intros v Hv.
    rewrite begins_app.
    rewrite (flow_free (lit "<body") f ltac:(cbn; tauto) Hf)
      by (rewrite <- app_assoc; exact (proj1 (ok_edge b _ Hb))).
    rewrite begins_app, (block_sealed b Hb). now apply IH.
Qed.

(** The content that the builder takes from a document. *)
Lemma body_taken (d : Doc) :
  doc_ok d = true ->
  match re_search true body_pattern (doc_source d) with
  | Some m => group m 1
  | None => doc_source d
  end = body_source (snd d).
Proof.
  destruct d as [[w|] [items tail]]; unfold doc_ok, doc_source;
    cbn [fst snd]; intros H; apply andb_true_iff in H as [Hb H].
  - apply body_ok_parts in Hb as (_ & Hi & Ht). cbn [fst snd] in Hi, Ht.
    unfold frame_ok in H.
    apply andb_true_iff in H as [H Hc]. apply andb_true_iff in H as [H Hcl].
    apply andb_true_iff in H as [H Ha]. apply andb_true_iff in H as [Hp Ho].
    apply negb_true_iff in Hp, Hc.
    assert (S : re_search true body_pattern
                  (before w ++ body_open w ++ body_attributes w ++ lit ">"
                   ++ body_source (items, tail) ++ body_close w ++ behind w)
                = Some [(1, body_source (items, tail))]).
    { unfold re_search.
      rewrite (search_free_over _ (lit "<body") headed_body).
      - apply (search_hit _ _ (behind w)).
        apply (body_element_hit (body_open w) (body_attributes w)
                 (body_source (items, tail)) (body_close w) (behind w));
          auto.
        intros v Hv.
        now apply (occurs_begins "<" (lit "/body>")).
      - intros v Hv. now apply (occurs_begins "<" (lit "body")).
      - destruct (spelled_lt _ _ Ho) as [o' ->]. apply follows_tag. }
    rewrite S. reflexivity.
  - apply body_ok_parts in Hb as (_ & Hi & Ht). cbn [fst snd] in Hi, Ht.
    rewrite (search_free _ "<" (lit "body") _ headed_body); [reflexivity|].
    apply (body_free items tail Hi Ht). now left.
Qed.

(** A paragraph is found in a document that has a block. *)
Lemma paragraph_found (f : Flow) (b : Block) (rest : str) :
  flow_ok f = true -> plain b = true ->
  exists g,
    re_search true p_open_pattern (flow_source f ++ block_source b ++ rest)
    = Some g.
Proof.
  intros Hf Hb. pose proof (source_edge b Hb rest) as [Hfo _].
  apply plain_parts in Hb as (Ho & Ha & _ & _).
  unfold re_search.
  rewrite (search_free_over _ (lit "<p") headed_p_open);
    [| apply flow_free; [cbn; tauto | exact Hf] | exact Hfo].
  exists []. unfold block_source. rewrite <- !app_assoc.
  eapply search_hit.
  change (lit ">" ++ flow_source (inner b) ++ closing b ++ rest)
    with (">"%char :: flow_source (inner b) ++ closing b ++ rest).
  now apply p_open_hit.
Qed.

Lemma table_first (px : Z) (b : Block) :
  exists more,
    block_render px b = html "<table " ++ role_presentation ++ more.
Proof.
  unfold block_render, layout. destruct (empty b); eexists; reflexivity.
Qed.

(** The steps of the builder on the content of a document. *)
Lemma build_body (d : Doc) (px : Z) :
  doc_ok d = true ->
  build_inner (doc_source d) px = body_render (Z.max 0 px) (snd d).
Proof.
  intros W. unfold build_inner. cbv zeta. rewrite (body_taken d W).
  destruct d as [w [items tail]]. cbn [snd].
  unfold doc_ok in W. cbn [snd] in W. apply andb_true_iff in W as [W _].
  apply body_ok_parts in W as (Hn & Hi & Ht). cbn [fst snd] in Hn, Hi, Ht.
  set (px' := Z.max 0 px).
  unfold re_sub, body_source.
  rewrite (weave_pass div_open_pattern _ "<" (lit "div") headed_div_open
             flow_source flow_source block_source
             (fun b => block_source (opened b)) block_ok
             (kept_flow _ _ _ headed_div_open ltac:(cbn; tauto))
             (fun b v prev H => open_step b v prev H)
             (fun b v H => ok_edge b v H) items tail Hi Ht).
  rewrite (weave_pass div_close_pattern _ "<" (lit "/div>") headed_div_close
             flow_source flow_source (fun b => block_source (opened b))
             (fun b => block_source (normal b)) block_ok
             (kept_flow _ _ _ headed_div_close ltac:(cbn; tauto))
             (fun b v prev H => close_step b v prev H)
             (fun b v H => opened_edge b v H) items tail Hi Ht).
  rewrite weave_map.
  pose proof (plain_items items Hi) as Hp.
  set (items' := map (fun x => (fst x, normal (snd x))) items) in *.
  assert (Had : exists g,
             re_search true p_open_pattern
               (weave flow_source block_source (items', tail)) = Some g).
  { destruct items as [|[f b] items]; [discriminate|].
    unfold items' in *. cbn [map fst snd forallb] in *.
    apply andb_true_iff in Hp as [Hfb _].
    apply andb_true_iff in Hfb as [Hf Hb].
    rewrite weave_cons. now apply paragraph_found. }
  destruct Had as [g ->].
  rewrite (weave_pass br_run_pattern _ "<" (lit "br") headed_br_run
             flow_source (flow_render px') block_source
             (block_collapsed px') plain
             (collapsed_flow px')
             (fun b v prev H => collapse_step px' b H v prev)
             (fun b v H => source_edge b H v) items' tail Hp Ht).
  rewrite (weave_pass blank_p_pattern _ "<" (lit "p") headed_blank_p
             (flow_render px') (flow_render px') (block_collapsed px')
             (block_unblanked px') plain
             (kept_render _ _ _ headed_blank_p px' ltac:(cbn; tauto))
             (fun b v prev H => unblank_step px' b H v prev)
             (fun b v H => collapsed_edge px' b H v) items' tail Hp Ht).
  rewrite (weave_pass para_pattern _ "<" (lit "p") headed_para
             (flow_render px') (flow_render px') (block_unblanked px')
             (block_render px') plain
             (kept_render _ _ _ headed_para px' ltac:(cbn; tauto))
             (fun b v prev H => wrap_step px' b H v prev)
             (fun b v H => unblanked_edge px' b H v) items' tail Hp Ht).
  assert (R : weave (flow_render px') (block_render px') (items', tail)
              = body_render px' (items, tail)).
  { unfold items', body_render. now rewrite <- weave_map. }
  rewrite R.
  assert (C : contains role_presentation (body_render px' (items, tail))
              = true).
  { destruct items as [|[f b] items]; [discriminate|].
    unfold body_render. rewrite weave_cons.
    destruct (table_first px' b) as [more ->].
    rewrite <- !app_assoc, app_assoc. apply contains_here. }
  rewrite C. reflexivity.
Qed.

Lemma lone_block (b : Block) :
  doc_source (None, ([(([], []), b)], ([], []))) = block_source b.
Proof.
  unfold doc_source, body_source, weave, flow_source.
  cbn [fst snd map concat app]. now rewrite !app_nil_r.
Qed.

Lemma lone_render (px : Z) (b : Block) :
  body_render px ([(([], []), b)], ([], [])) = block_render px b.
Proof.
  unfold body_render, weave, flow_render.
  cbn [fst snd map concat app]. now rewrite !app_nil_r.
Qed.

Lemma render_at_12 (b : Block) :
  block_render 12 b
  = if empty b
    then html "<table role=`presentation` border=`0` cellspacing=`0` cellpadding=`0` width=`100%`><tr><td height=`12` style=`font-size:0; line-height:0;`>&nbsp;</td></tr></table>"
    else html "<table role=`presentation` border=`0` cellspacing=`0` cellpadding=`0` width=`100%`><tr><td style=`line-height:1.35; mso-line-height-rule:exactly; font-family: Segoe UI, Arial, sans-serif;`>"
         ++ flow_render 12 (inner b)
         ++ html "</td></tr><tr><td height=`12` style=`font-size:0; line-height:0;`>&nbsp;</td></tr></table>".
Proof.
  unfold block_render, layout, content_cell, spacer_cell.
  destruct (empty b); [reflexivity|].
  cbn [concat]. now rewrite app_nil_r, <- !app_assoc.
Qed.

(** C5: in a document of paragraph-like blocks, written as [p] or as
    [div] in any case of the letters, with or without attributes, with
    text and line breaks in them and between them, alone or as the body
    of a full document, the builder replaces every block that is not
    empty by a table of two rows, the content of the block (its runs of
    line breaks collapsed as everywhere) in a cell of line height 1.35 in
    the sans-serif fonts and then a spacer row of the height asked for,
    and every empty block by a table of the spacer row alone; the text
    between the blocks stays.  So a single block that is not empty, at
    12, gives one content row followed by one spacer row of height 12,
    and a single empty block the spacer row and no content row. *)
Theorem render_blocks (d : Doc) (px : Z) :
  doc_ok d = true ->
  build_outlook_safe_html (doc_source d) px
  = shell_open ++ body_render (Z.max 0 px) (snd d) ++ shell_close
  /\ forall b,
       block_ok b = true ->
       build_outlook_safe_html (block_source b) 12
       = shell_open
         ++ (if empty b
             then html "<table role=`presentation` border=`0` cellspacing=`0` cellpadding=`0` width=`100%`><tr><td height=`12` style=`font-size:0; line-height:0;`>&nbsp;</td></tr></table>"
             else html "<table role=`presentation` border=`0` cellspacing=`0` cellpadding=`0` width=`100%`><tr><td style=`line-height:1.35; mso-line-height-rule:exactly; font-family: Segoe UI, Arial, sans-serif;`>"
                  ++ flow_render 12 (inner b)
                  ++ html "</td></tr><tr><td height=`12` style=`font-size:0; line-height:0;`>&nbsp;</td></tr></table>")
         ++ shell_close.
Proof.
  intros W. split.
  - unfold build_outlook_safe_html. now rewrite build_body.
  - intros b Hb.
    assert (W1 : doc_ok (None, ([(([], []), b)], ([], []))) = true).
    { unfold doc_ok, body_ok. cbn [fst snd has_items forallb].
      rewrite Hb. reflexivity. }
    rewrite <- lone_block. unfold build_outlook_safe_html.
    rewrite (build_body _ 12 W1). cbn [snd].
    change (Z.max 0 12) with 12%Z.
    now rewrite lone_render, render_at_12.
Qed.

Lemma render_blocks_witness :
  doc_ok sample_doc = true
  /\ build_outlook_safe_html (doc_source sample_doc) 12
     = shell_open ++ body_render (Z.max 0 12) (snd sample_doc) ++ shell_close.
Proof.
  assert (W : doc_ok sample_doc = true) by (vm_compute; reflexivity).
  split; [exact W|].
  exact (proj1 (render_blocks sample_doc 12 W)).
Defined.

End BlockFacts.

(** ** Rows that cannot be sent *)

Module DoomedFacts.

Import Worker Trace SendSpec ConnectSpec AttemptSpec RunSpec TraceFacts
  RunFacts.

Lemma same_row (rows : DataFrame) (x y : nat * Row) :
  NoDup (map fst rows) -> In x rows -> In y rows -> fst y = fst x -> y = x.
Proof.
  induction rows as [|r rows IH]; intros Hnd Hx Hy E; [destruct Hx|].
  cbn [map] in Hnd. inversion Hnd as [|? ? Hr Hnd']; subst.
  destruct Hx as [-> | Hx], Hy as [-> | Hy]; auto.
  - exfalso. apply Hr. rewrite <- E. now apply in_map.
  - exfalso. apply Hr. rewrite E. now apply in_map.
Qed.

Lemma count_label (rows : DataFrame) (x : nat * Row) :
  NoDup (map fst rows) -> In x rows ->
  count_occ Nat.eq_dec (map fst rows) (fst x) = 1.
Proof.
  intros Hnd Hx. apply NoDup_count_occ'; [exact Hnd | now apply in_map].
Qed.

Lemma reports_doomed {World} (path_exists : World -> str -> bool)
    (rows : DataFrame) (i : nat) :
  (forall y, In y rows -> fst y = i -> hopeless path_exists (snd y)) ->
  forall results,
    results_of path_exists rows results ->
    Forall (fun st : nat * Status => fst st = i -> snd st = Failed)
           (reports rows results).
Proof.
  unfold reports, results_of.
  induction rows as [|r rows IH]; intros Hd [|b results] H; cbn [combine map];
    try constructor.
  - cbn [fst snd]. intros E. pose proof (Forall_inv H) as Hb.
    cbn [fst snd] in Hb. rewrite Hb; [reflexivity|].
    apply Hd; [now left | exact E].
  - apply IH; [|exact (Forall_inv_tail H)].
    intros y Hy. apply Hd. now right.
Qed.

Lemma failures_keep {World} (path_exists : World -> str -> bool)
    (rows : DataFrame) (x : nat * Row) :
  hopeless path_exists (snd x) ->
  forall results,
    results_of path_exists rows results ->
    length results = length rows -> In x rows ->
    In x (failures rows results).
Proof.
  intros Hx. unfold failures, results_of.
  induction rows as [|r rows IH]; intros [|b results] H L Hin;
    try (cbn in L; discriminate); [destruct Hin|].
  pose proof (Forall_inv H) as Hb. pose proof (Forall_inv_tail H) as H'.
  cbn [fst snd] in Hb.
  cbn [combine filter snd]. cbn [length] in L.
  destruct Hin as [-> | Hin].
  - rewrite (Hb Hx). cbn [negb map fst]. now left.
  - destruct (negb b); cbn [map fst]; [right|]; apply IH; auto.
Qed.

Lemma status_of_failed (evs : list Event) (i : nat) :
  Forall (fun st : nat * Status => fst st = i -> snd st = Failed)
         (statuses evs) ->
  forall now,
    now = Failed \/ In i (touched evs) -> status_of evs i now = Failed.
Proof.
  induction evs as [|e evs IH]; intros H now Hn.
  - destruct Hn as [-> | []]. reflexivity.
  - destruct e as [p|m|j st| |n]; cbn [statuses status_of touched map] in *;
      try (apply IH; assumption).
    pose proof (Forall_inv H) as Hj. pose proof (Forall_inv_tail H) as H'.
    cbn [fst snd] in Hj.
    apply IH; [exact H'|].
    destruct (Nat.eqb_spec j i) as [E | Ne].
    + left. now apply Hj.
    + destruct Hn as [-> | [E | Hin]]; [now left | contradiction
                                       | right; exact Hin].
Qed.

Section Doomed.

Variable World : Type.
Variable respond : World -> Call -> Result * World.
Variable path_exists : World -> str -> bool.
Variable running_at : nat -> bool.
Variable percent_of : nat -> nat -> Z.
Variable self : EmailWorker.

Hypothesis always : forall n, running_at n = true.

Variable x : nat * Row.
Hypothesis doomed : hopeless path_exists (snd x).

Let failing (st : nat * Status) : Prop := fst st = fst x -> snd st = Failed.

(** A pass that reaches all its rows attempts the row once, reports it
    as failed, and keeps it among the failed rows. *)
Lemma pass_doomed (rows : DataFrame) (results : list bool)
    (evs : list Event) :
  NoDup (map fst rows) -> In x rows ->
  length results = length rows ->
  statuses evs = reports rows results ->
  results_of path_exists rows results ->
  attempts_of evs (fst x) = 1
  /\ Forall failing (statuses evs)
  /\ In x (failures rows results).
Proof.
  intros Hnd Hx L Hs Hr. split; [|split].
  - unfold attempts_of, touched.
    rewrite Hs, reports_labels, L, firstn_all. now apply count_label.
  - rewrite Hs. apply (reports_doomed path_exists); [|exact Hr].
    intros y Hy E. now rewrite (same_row rows x y Hnd Hx Hy E).
  - now apply (failures_keep path_exists).
Qed.

Lemma all_reached (rows : DataFrame) (results : list bool) (n : nat) :
  length results <= length rows ->
  (length results < length rows -> running_at n = false) ->
  length results = length rows.
Proof.
  intros L G.
  destruct (Nat.eq_dec (length results) (length rows)) as [|Hne];
    [assumption|].
  rewrite always in G. assert (D : true = false) by (apply G; lia).
  discriminate.
Qed.

Lemma in_nonempty {T} (y : T) (l : list T) : In y l -> nonempty l = true.
Proof. destruct l; [intros [] | reflexivity]. Qed.

(** Every retry attempts the row again, fails, and is followed by a
    sleep of two seconds. *)
Lemma retry_loop_doomed (attempts : list nat) :
  forall failed (s : St World),
    NoDup (map fst failed) -> In x failed ->
    exists still s' evs,
      retry_loop respond path_exists running_at self attempts failed s
      = (Ret still, s')
      /\ events s' = events s ++ evs
      /\ attempts_of evs (fst x) = length attempts
      /\ sleeps_of evs 2 = length attempts
      /\ Forall failing (statuses evs)
      /\ In x still.
Proof.
  induction attempts as [|attempt attempts IH]; intros failed s Hnd Hx.
  - exists failed, s, []. cbn. rewrite app_nil_r.
    repeat split; auto.
  - cbn [retry_loop]. rewrite PassFacts.bind_running.
    rewrite always, (in_nonempty x failed Hx). cbn [negb orb].
    rewrite PassFacts.bind_emit.
    match goal with
    | |- context [bind (retry_pass _ _ _ _ failed []) _ ?s1] =>
        destruct (retry_pass_trace World respond path_exists running_at self
                    failed [] s1)
          as (results & s2 & e1 & c1 & E1 & Ev1 & _ & L1 & G1 & Hs1 & _
              & _ & Hz1 & _ & Hr1)
    end.
    cbn [app events] in E1, Ev1.
    rewrite (PassFacts.bind_ret _ _ _ _ _ E1).
    pose proof (all_reached failed results _ L1 G1) as L.
    destruct (pass_doomed failed results e1 Hnd Hx L Hs1 Hr1)
      as (A1 & F1 & K1).
    rewrite (in_nonempty x _ K1), PassFacts.bind_emit.
    match goal with
    | |- context [retry_loop _ _ _ _ attempts _ ?s3] =>
        destruct (IH (failures failed results) s3
                    (failures_labels_NoDup failed results Hnd) K1)
          as (still & s' & e2 & E2 & Ev2 & A2 & Z2 & F2 & K2)
    end.
    cbn [events] in Ev2.
    exists still, s',
      ([log_updated
          (log "🔄 Retry attempt " ++ str_of_nat (attempt + 1)
           ++ log "/" ++ str_of_Z (max_retries self))]
       ++ e1 ++ [sleep 2] ++ e2).
    split; [exact E2|].
    split; [rewrite Ev2, Ev1, <- !app_assoc; reflexivity|].
    rewrite !attempts_of_app, !sleeps_of_app, !statuses_app, A1, A2, Hz1, Z2.
    split; [reflexivity|]. split; [reflexivity|].
    split; [|exact K2].
    cbn [statuses app]. apply Forall_app. split; assumption.
Qed.

(** The passes of a job on a row that cannot be sent. *)
Lemma send_all_doomed (s : St World) :
  NoDup (map fst (df self)) -> In x (df self) ->
  exists s' evs,
    send_all respond path_exists running_at percent_of self s = (Ret tt, s')
    /\ events s' = events s ++ evs
    /\ attempts_of evs (fst x) = 1 + Z.to_nat (max_retries self)
    /\ sleeps_of evs 2 = Z.to_nat (max_retries self)
    /\ Forall failing (statuses evs).
Proof.
  intros Hnd Hx. unfold send_all. cbv zeta.
  destruct (first_pass_trace World respond path_exists running_at percent_of
              self (length (df self)) (df self) 0 [] s)
    as (results & s1 & e1 & c1 & E1 & Ev1 & _ & L1 & _ & G1 & Hs1 & _ & _
        & Hz1 & _ & Hr1).
  cbn [app] in E1. rewrite (PassFacts.bind_ret _ _ _ _ _ E1).
  pose proof (all_reached (df self) results _ L1 G1) as L.
  destruct (pass_doomed (df self) results e1 Hnd Hx L Hs1 Hr1)
    as (A1 & F1 & K1).
  set (failed := failures (df self) results) in *.
  rewrite (in_nonempty x failed K1). cbn [andb].
  match goal with
  | |- context [bind ?m _ s1] =>
      assert (H2 : exists still s2 e2,
                 m s1 = (Ret still, s2)
                 /\ events s2 = events s1 ++ e2
                 /\ attempts_of e2 (fst x) = Z.to_nat (max_retries self)
                 /\ sleeps_of e2 2 = Z.to_nat (max_retries self)
                 /\ Forall failing (statuses e2)
                 /\ In x still)
  end.
  { destruct (0 <? max_retries self)%Z eqn:B.
    - rewrite PassFacts.bind_emit.
      match goal with
      | |- context [retry_loop _ _ _ _ ?a failed ?s0] =>
          destruct (retry_loop_doomed a failed s0
                      (failures_labels_NoDup (df self) results Hnd) K1)
            as (still & s2 & e2 & E2 & Ev2 & A2 & Z2 & F2 & K2)
      end.
      rewrite length_seq in A2, Z2. cbn [events] in Ev2.
      exists still, s2,
        ([log_updated
            (log "🔄 Retrying " ++ str_of_nat (length failed)
             ++ log " failed emails...")] ++ e2).
      split; [exact E2|].
      split; [rewrite Ev2, <- app_assoc; reflexivity|].
      rewrite attempts_of_app, sleeps_of_app, statuses_app, A2, Z2.
      repeat split; auto.
    - apply Z.ltb_ge in B.
      assert (R0 : Z.to_nat (max_retries self) = 0) by lia.
      exists failed, s1, []. rewrite app_nil_r, R0.
      repeat split; auto. }
  destruct H2 as (still & s2 & e2 & E2 & Ev2 & A2 & Z2 & F2 & K2).
  rewrite (PassFacts.bind_ret _ _ _ _ _ E2).
  rewrite (in_nonempty x still K2), !PassFacts.bind_emit.
  eexists _, (e1 ++ e2 ++ [_; finished_sending]).
  split; [reflexivity|]. cbn [emit events].
  split; [rewrite Ev2, Ev1, <- !app_assoc; reflexivity|].
  rewrite !attempts_of_app, !sleeps_of_app, !statuses_app, A1, A2, Hz1, Z2.
  split; [cbn; lia|]. split; [cbn; lia|].
  cbn [statuses app]. rewrite app_nil_r. apply Forall_app.
  split; assumption.
Qed.

End Doomed.

Section Job.

Variable World : Type.
Variable respond : World -> Call -> Result * World.
Variable path_exists : World -> str -> bool.
Variable running_at : nat -> bool.
Variable percent_of : nat -> nat -> Z.
Variable self : EmailWorker.

(** A row that cannot be sent is tried again all the same: in a job
    that nothing stops and whose first calls return, over rows with
    distinct labels, a row without an address, or whose attachment is
    nowhere, is attempted once and then once in every retry, that is
    [1 + max_retries] times in all (once when [max_retries] is not
    positive), each time reported as [Failed]; the job sleeps two
    seconds after every retry, also the last, and leaves the row as
    [Failed]. *)
Theorem doomed_row_retried (w : World) (index : nat) (row : Row) :
  (forall n, running_at n = true) ->
  (forall w c, startup_call c = true ->
               exists v w', respond w c = (Returned v, w')) ->
  NoDup (map fst (df self)) ->
  In (index, row) (df self) ->
  hopeless path_exists row ->
  exists s',
    run respond path_exists running_at percent_of self (start w) = (Ret tt, s')
    /\ attempts_of (events s') index = 1 + Z.to_nat (max_retries self)
    /\ sleeps_of (events s') 2 = Z.to_nat (max_retries self)
    /\ (forall st, In (index, st) (statuses (events s')) -> st = Failed)
    /\ status_of (events s') index Pending = Failed.
Proof.
  intros Hgo Hready Hnd Hin Hd.
  destruct (Hready w CoInitialize) as (v0 & w0 & H0); [reflexivity|].
  destruct (Hready w0 Dispatch) as (v1 & w1 & H1); [reflexivity|].
  destruct (Hready w1 GetNamespace) as (v2 & w2 & H2); [reflexivity|].
  destruct (Hready w2 (GetDefaultFolder 4)) as (v3 & w3 & H3); [reflexivity|].
  destruct (Hready w3 (GetDefaultFolder 5)) as (v4 & w4 & H4); [reflexivity|].
  destruct (send_all_doomed World respond path_exists running_at percent_of
              self Hgo (index, row) Hd
              (mkSt w4 0 [log_updated connected]
                 [(CoInitialize, false); (Dispatch, false);
                  (GetNamespace, false); (GetDefaultFolder 4, false);
                  (GetDefaultFolder 5, false)]) Hnd Hin)
    as (s' & evs & E & Ev & A & Z & F).
  cbn [events fst] in Ev, A, F.
  exists s'. split.
  { unfold run. apply PassFacts.try_ret. unfold start.
    rewrite (PassFacts.bind_call_ok _ _ _ _ _ _ _ _ _ H0).
    cbn [world reads events calls app seq].
    rewrite (PassFacts.bind_ret _ _ _ _ _
               (PassFacts.connect_first _ _ _ _ _ _ _ _ _ H1)).
    cbn [negb world reads events calls app].
    rewrite (PassFacts.bind_call_ok _ _ _ _ _ _ _ _ _ H2).
    cbn [world reads events calls app].
    rewrite (PassFacts.bind_ret _ _ _ true
               (mkSt w4 0 [log_updated connected]
                  [(CoInitialize, false); (Dispatch, false);
                   (GetNamespace, false); (GetDefaultFolder 4, false);
                   (GetDefaultFolder 5, false)])).
    2:{ apply PassFacts.try_ret.
        rewrite (PassFacts.bind_call_ok _ _ _ _ _ _ _ _ _ H3).
        cbn [world reads events calls app].
        rewrite (PassFacts.bind_call_ok _ _ _ _ _ _ _ _ _ H4). reflexivity. }
    cbn [negb]. exact E. }
  assert (Fs : Forall (fun st : nat * Status =>
                         fst st = index -> snd st = Failed)
                 (statuses (events s'))).
  { rewrite Ev. change ([log_updated connected] ++ evs) with
      (log_updated connected :: evs). exact F. }
  split; [rewrite Ev; exact A|]. split; [rewrite Ev; exact Z|].
  split.
  - intros st Hst. rewrite Forall_forall in Fs.
    exact (Fs (index, st) Hst eq_refl).
  - apply status_of_failed; [exact Fs|]. right.
    assert (P : 0 < attempts_of (events s') index).
    { rewrite Ev. change ([log_updated connected] ++ evs) with
        (log_updated connected :: evs).
      unfold attempts_of, touched in *. cbn [statuses]. lia. }
    unfold attempts_of in P. now apply (count_occ_In Nat.eq_dec).
Qed.

End Job.

Lemma doomed_row_retried_witness :
  exists s',
    run (Sample.respond Sample.never) Sample.path_exists
        Sample.always_running (fun p t => 0%Z) sample_job (start tt)
    = (Ret tt, s')
    /\ attempts_of (events s') 1 = 1 + Z.to_nat (max_retries sample_job)
    /\ sleeps_of (events s') 2 = Z.to_nat (max_retries sample_job)
    /\ (forall st, In (1, st) (statuses (events s')) -> st = Failed)
    /\ status_of (events s') 1 Pending = Failed.
Proof.
  apply (doomed_row_retried unit (Sample.respond Sample.never)
           Sample.path_exists Sample.always_running (fun p t => 0%Z)
           sample_job tt 1 (mkRow (lit "Reyes, Ana") [] [] (lit "b.pdf"))).
  - reflexivity.
  - intros w c _. exists 0%Z, w. reflexivity.
  - cbn. repeat constructor; cbn; intuition discriminate.
  - cbn. tauto.
  - left. reflexivity.
Defined.

End DoomedFacts.
